(** * BadgerDB buffer manager ([src/src/buffer.cpp]): a shallow embedding

    The buffer pool is a mutable object talking to two collaborators, the
    page files and the hash index.  Every member function of [BufMgr] is
    embedded as a computation in a state-and-exception monad over one
    record that holds the members of the object, the contents of the
    files, and the sequence of calls made so far. *)

From Stdlib Require Import ZArith Lia.
From stdpp Require Import base option numbers list gmap strings.

Local Open Scope Z_scope.

(** ** Scalars *)

(** [PageId] and [FrameId] are [std::uint32_t]; a [File*] is an address. *)
Abbreviation PageId := Z (only parsing).
Abbreviation FrameId := Z (only parsing).
Abbreviation FilePtr := Z (only parsing).

Definition NULL : FilePtr := 0.

Definition UINT32_MOD : Z := 2 ^ 32.

(** [pinCnt] is an [int]; incrementing it past [INT_MAX] has no defined
    behaviour. *)
Definition INT_MAX : Z := 2 ^ 31 - 1.

(** Modelled from the spec: [Page::INVALID_NUMBER] is declared in a header
    that is not part of the sources; section 6 only requires a reserved
    sentinel distinct from any real page number. *)
Definition INVALID_NUMBER : PageId := 0.

(** ** Pages and frame descriptors *)

(** Modelled from the spec: the class [Page] is declared in a header that
    is not part of the sources.  Section 6: a page carries its own identity
    (its [pageNumber()]) next to its bytes. *)
Record Page : Type := mkPage {
  page_number : PageId;
  data : string
}.

(** Modelled from the spec: the constructor [Page()] is declared in a header
    that is not part of the sources.  A slot of the frame data array has no
    meaningful content until its descriptor is valid (section 3), so a new
    slot is an unnumbered, empty page. *)
Definition Page_default : Page := mkPage INVALID_NUMBER "".

(** Modelled from the spec: the class [BufDesc] is declared in [buffer.h],
    which is not part of the sources.  Its fields are those of section 3,
    under the names by which the source reads and writes them. *)
Record BufDesc : Type := mkBufDesc {
  file : FilePtr;
  pageNo : PageId;
  frameNo : FrameId;
  pinCnt : Z;
  dirty : bool;
  valid : bool;
  refbit : bool
}.

(** Modelled from the spec: [BufDesc::Clear] lives in [buffer.h], which is
    not part of the sources.  Section 3 lists the cleared defaults:
    [pinCnt == 0], [file == none], [pageNo == invalid], [dirty == false],
    [refbit == false], [valid == false]; [frameNo] never changes. *)
Definition Clear (d : BufDesc) : BufDesc :=
  {| file := NULL; pageNo := INVALID_NUMBER; frameNo := frameNo d;
     pinCnt := 0; dirty := false; valid := false; refbit := false |}.

(** Modelled from the spec: [BufDesc::Set] lives in [buffer.h] as well.
    Section 4.3: populate the descriptor with [valid=true], file, pageNo,
    [pinCnt=1], [refbit=true], [dirty=false]. *)
Definition Set_ (d : BufDesc) (f : FilePtr) (p : PageId) : BufDesc :=
  {| file := f; pageNo := p; frameNo := frameNo d;
     pinCnt := 1; dirty := false; valid := true; refbit := true |}.

Definition with_pinCnt (n : Z) (d : BufDesc) : BufDesc :=
  {| file := file d; pageNo := pageNo d; frameNo := frameNo d;
     pinCnt := n; dirty := dirty d; valid := valid d; refbit := refbit d |}.

Definition with_dirty (b : bool) (d : BufDesc) : BufDesc :=
  {| file := file d; pageNo := pageNo d; frameNo := frameNo d;
     pinCnt := pinCnt d; dirty := b; valid := valid d; refbit := refbit d |}.

Definition with_refbit (b : bool) (d : BufDesc) : BufDesc :=
  {| file := file d; pageNo := pageNo d; frameNo := frameNo d;
     pinCnt := pinCnt d; dirty := dirty d; valid := valid d; refbit := b |}.

(** ** Exceptions and the call trace *)

(** The exceptions that the source throws, with the arguments it gives
    them, and those that the index and the files throw. *)
Inductive Exn : Type :=
| BufferExceededException
| PageNotPinnedException (name : FilePtr) (pageNo : PageId) (frameNo : FrameId)
| PagePinnedException (name : FilePtr) (pageNo : PageId) (frameNo : FrameId)
| BadBufferException (frameNo : FrameId) (dirty valid refbit : bool)
| HashNotFoundException
| HashAlreadyPresentException
| InvalidPageException (pageNo : PageId) (name : FilePtr).

(** Calls that the properties below need to observe: the four requests to
    the storage backend, the moves of the clock hand, and the two
    descriptor methods. *)
Inductive Event : Type :=
| EvAdvanceClock
| EvReadPage (f : FilePtr) (p : PageId)
| EvWritePage (f : FilePtr) (pg : Page)
| EvAllocatePage (f : FilePtr) (p : PageId)
| EvDeletePage (f : FilePtr) (p : PageId)
| EvClear (i : FrameId)
| EvSet (i : FrameId) (f : FilePtr) (p : PageId).

Global Instance Page_eq_dec : EqDecision Page.
Proof. solve_decision. Defined.

Global Instance BufDesc_eq_dec : EqDecision BufDesc.
Proof. solve_decision. Defined.

Global Instance Event_eq_dec : EqDecision Event.
Proof. solve_decision. Defined.

(** ** The state *)

(** The first five fields are the members of [BufMgr]; [disk] is what the
    files hold, keyed by file and page number; [trace] is the sequence of
    calls made so far, oldest first. *)
Record State : Type := mkState {
  numBufs : Z;
  bufDescTable : list BufDesc;
  bufPool : list Page;
  hashTable : gmap (Z * Z) Z;
  clockHand : FrameId;
  disk : gmap (Z * Z) string;
  trace : list Event
}.

Definition with_table (t : list BufDesc) (s : State) : State :=
  mkState (numBufs s) t (bufPool s) (hashTable s) (clockHand s) (disk s) (trace s).

Definition with_pool (p : list Page) (s : State) : State :=
  mkState (numBufs s) (bufDescTable s) p (hashTable s) (clockHand s) (disk s) (trace s).

Definition with_hash (h : gmap (Z * Z) Z) (s : State) : State :=
  mkState (numBufs s) (bufDescTable s) (bufPool s) h (clockHand s) (disk s) (trace s).

Definition with_hand (c : FrameId) (s : State) : State :=
  mkState (numBufs s) (bufDescTable s) (bufPool s) (hashTable s) c (disk s) (trace s).

Definition with_disk (d : gmap (Z * Z) string) (s : State) : State :=
  mkState (numBufs s) (bufDescTable s) (bufPool s) (hashTable s) (clockHand s) d (trace s).

Definition emit (e : Event) (s : State) : State :=
  mkState (numBufs s) (bufDescTable s) (bufPool s) (hashTable s) (clockHand s)
          (disk s) (trace s ++ [e]).

(** ** The monad *)

(** A call returns, throws (keeping whatever it had already changed), or
    has no defined behaviour (an index outside an array, a null [File*]
    dereferenced, a signed overflow, a remainder by zero). *)
Inductive Result (A : Type) : Type :=
| Ok (a : A) (s : State)
| Throw (e : Exn) (s : State)
| Undefined.

Arguments Ok {A} a s.
Arguments Throw {A} e s.
Arguments Undefined {A}.

Definition M (A : Type) : Type := State → Result A.

Definition ret {A} (a : A) : M A := fun s => Ok a s.

Definition bind {A B} (m : M A) (k : A → M B) : M B := fun s =>
  match m s with
  | Ok a s' => k a s'
  | Throw e s' => Throw e s'
  | Undefined => Undefined
  end.

Definition throw {A} (e : Exn) : M A := fun s => Throw e s.

Definition undefined {A} : M A := fun _ => Undefined.

Definition gets {A} (f : State → A) : M A := fun s => Ok (f s) s.

Definition modify (f : State → State) : M unit := fun s => Ok tt (f s).

Notation "x <- m ;; k" := (bind m (fun x => k))
  (at level 100, m at next level, right associativity).
Notation "m ;; k" := (bind m (fun _ => k))
  (at level 100, right associativity).

(** ** Array accesses *)

Definition getDesc (i : FrameId) : M BufDesc := fun s =>
  match bufDescTable s !! Z.to_nat i with
  | Some d => Ok d s
  | None => Undefined
  end.

(** [bufDescTable[i].field = ...], as an update of the whole descriptor. *)
Definition updDesc (i : FrameId) (f : BufDesc → BufDesc) : M unit := fun s =>
  match bufDescTable s !! Z.to_nat i with
  | Some d => Ok tt (with_table (<[Z.to_nat i := f d]> (bufDescTable s)) s)
  | None => Undefined
  end.

Definition getPage (i : FrameId) : M Page := fun s =>
  match bufPool s !! Z.to_nat i with
  | Some pg => Ok pg s
  | None => Undefined
  end.

Definition setPage (i : FrameId) (pg : Page) : M unit := fun s =>
  match bufPool s !! Z.to_nat i with
  | Some _ => Ok tt (with_pool (<[Z.to_nat i := pg]> (bufPool s)) s)
  | None => Undefined
  end.

Definition descClear (i : FrameId) : M unit :=
  updDesc i Clear ;; modify (emit (EvClear i)).

Definition descSet (i : FrameId) (f : FilePtr) (p : PageId) : M unit :=
  updDesc i (fun d => Set_ d f p) ;; modify (emit (EvSet i f p)).

(** ** The hash index *)

(** Modelled from the spec: [BufHashTbl] is not part of the sources.
    Section 6: [lookup(file, pageNo)] gives the frame number or not-found. *)
Definition hash_lookup (f : FilePtr) (p : PageId) : M (option FrameId) :=
  gets (fun s => hashTable s !! (f, p)).

(** Modelled from the spec: [insert(file, pageNo, frameNo)] fails if the
    pair already exists. *)
Definition hash_insert (f : FilePtr) (p : PageId) (i : FrameId) : M unit := fun s =>
  match hashTable s !! (f, p) with
  | Some _ => Throw HashAlreadyPresentException s
  | None => Ok tt (with_hash (<[(f, p) := i]> (hashTable s)) s)
  end.

(** Modelled from the spec: [remove(file, pageNo)] fails if not present. *)
Definition hash_remove (f : FilePtr) (p : PageId) : M unit := fun s =>
  match hashTable s !! (f, p) with
  | Some _ => Ok tt (with_hash (delete (f, p) (hashTable s)) s)
  | None => Throw HashNotFoundException s
  end.

(** ** The storage backend *)

(** Modelled from the spec: [file->filename()] gives the identity string of
    the file (section 6), which stands here for the file itself. *)
Definition filename (f : FilePtr) : M FilePtr := fun s =>
  if decide (f = NULL) then Undefined else Ok f s.

(** Modelled from the spec: [File] is not part of the sources.  Section 6:
    [readPage(pageNo)] gives the page bytes and fails if [pageNo] does not
    exist in the file. *)
Definition file_readPage (f : FilePtr) (p : PageId) : M Page := fun s =>
  if decide (f = NULL) then Undefined else
  match disk s !! (f, p) with
  | Some bytes => Ok (mkPage p bytes) (emit (EvReadPage f p) s)
  | None => Throw (InvalidPageException p f) s
  end.

(** Modelled from the spec: [writePage(page)]; the page carries its own
    identity.  The one failure represented is a page that the file does not
    hold. *)
Definition file_writePage (f : FilePtr) (pg : Page) : M unit := fun s =>
  if decide (f = NULL) then Undefined else
  match disk s !! (f, page_number pg) with
  | Some _ =>
      Ok tt (emit (EvWritePage f pg)
               (with_disk (<[(f, page_number pg) := data pg]> (disk s)) s))
  | None => Throw (InvalidPageException (page_number pg) f) s
  end.

(** The largest page number in use in file [f], or 0; a helper of the model
    of [allocatePage] below. *)
Definition last_page (f : FilePtr) (d : gmap (Z * Z) string) : Z :=
  map_fold (fun k _ acc => if decide (k.1 = f) then Z.max k.2 acc else acc) 0 d.

(** Modelled from the spec: [allocatePage()] gives a new page with an
    assigned page number.  The number chosen here is the one after the
    largest in use, and the new page is empty. *)
Definition file_allocatePage (f : FilePtr) : M Page := fun s =>
  if decide (f = NULL) then Undefined else
  let p := last_page f (disk s) + 1 in
  Ok (mkPage p "") (emit (EvAllocatePage f p) (with_disk (<[(f, p) := ""]> (disk s)) s)).

(** Modelled from the spec: [deletePage(pageNo)] fails if not present. *)
Definition file_deletePage (f : FilePtr) (p : PageId) : M unit := fun s =>
  if decide (f = NULL) then Undefined else
  match disk s !! (f, p) with
  | Some _ => Ok tt (emit (EvDeletePage f p) (with_disk (delete (f, p) (disk s)) s))
  | None => Throw (InvalidPageException p f) s
  end.

(** ** [BufMgr] *)

(** Modelled from the spec: the constructor [BufDesc()] is in [buffer.h],
    which is not part of the sources.  Section 3: a frame that is not valid
    has every other field at its cleared default.  The constructor of
    [BufMgr] then sets [frameNo] and [valid]. *)
Definition BufDesc_new (i : FrameId) : BufDesc :=
  mkBufDesc NULL INVALID_NUMBER i 0 false false false.

(** Line 38 of the constructor:
    [int htsize = ((((int) (bufs * 1.2)) * 2) / 2) + 1].  The product is a
    [double]; for a 32-bit [bufs] its conversion to [int] truncates it to
    [6 * bufs / 5] (the [double] nearest to 1.2 is so close below it that
    the rounded product of a multiple of 5 is the whole number itself, and
    the other products keep their integral part).  That number has to fit
    an [int], and so has its double.  [None]: the conversion or the
    multiplication has no defined behaviour. *)
Definition htsize (bufs : Z) : option Z :=
  let t := 6 * bufs / 5 in
  if decide (t ≤ INT_MAX) then
    if decide (t * 2 ≤ INT_MAX) then Some (t * 2 / 2 + 1) else None
  else None.

(** The members as [BufMgr::BufMgr] (lines 26-42) leaves them, for a pool
    created over the files [files].  The size of the hash table, which
    line 38 computes, plays no part in the model of the index; whether
    line 38 has a defined behaviour is part of [BufMgr_constructor]. *)
Definition BufMgr (bufs : Z) (files : gmap (Z * Z) string) : State :=
  {| numBufs := bufs;
     bufDescTable := BufDesc_new <$> seqZ 0 bufs;
     bufPool := replicate (Z.to_nat bufs) Page_default;
     hashTable := ∅;
     clockHand := (bufs - 1) mod UINT32_MOD;
     disk := files;
     trace := [] |}.

(** [BufMgr::BufMgr] (lines 26-42) as a call: the object it builds, or
    [None] where line 38 has no defined behaviour, which is so from
    894784854 frames on. *)
Definition BufMgr_constructor (bufs : Z) (files : gmap (Z * Z) string)
    : option State :=
  match htsize bufs with
  | Some _ => Some (BufMgr bufs files)
  | None => None
  end.

(** [BufMgr::advanceClock] (lines 63-67): [clockHand++] in 32 bits, then
    the remainder by [numBufs]. *)
Definition advanceClock : M unit := fun s =>
  if decide (numBufs s = 0) then Undefined else
  Ok tt (emit EvAdvanceClock
           (with_hand (((clockHand s + 1) mod UINT32_MOD) mod numBufs s) s)).

(** How one run of the body of the [while] loop of [allocBuf] ends. *)
Inductive Ctl : Type := Continue | Break.

(** The body of the loop of [allocBuf] (lines 81-99); [maxBound--] is done
    by the loop below on [Continue]. *)
Definition allocBuf_body : M Ctl :=
  h <- gets clockHand ;;
  d <- getDesc h ;;
  if negb (valid d) then ret Break
  else if refbit d then
    updDesc h (with_refbit false) ;;
    advanceClock ;;
    ret Continue
  else if pinCnt d >? 0 then
    advanceClock ;;
    ret Continue
  else
    (if dirty d then pg <- getPage h ;; file_writePage (file d) pg else ret tt) ;;
    hash_remove (file d) (pageNo d) ;;
    descClear h ;;
    ret Break.

(** [while (maxBound > 0) { ... }]; the result is [maxBound] on exit. *)
Fixpoint allocBuf_loop (maxBound : nat) : M nat :=
  match maxBound with
  | O => ret O
  | S m =>
      c <- allocBuf_body ;;
      match c with
      | Break => ret (S m)
      | Continue => allocBuf_loop m
      end
  end.

(** [BufMgr::allocBuf] (lines 74-105); [2 * numBufs] is computed in 32
    bits. *)
Definition allocBuf : M FrameId :=
  n <- gets numBufs ;;
  advanceClock ;;
  maxBound <- allocBuf_loop (Z.to_nat ((2 * n) mod UINT32_MOD)) ;;
  if decide (maxBound = O) then throw BufferExceededException
  else gets clockHand.

(** [BufMgr::readPage] (lines 113-126).  The page handle
    [&bufPool[frameNo]] is returned as [frameNo]. *)
Definition readPage (f : FilePtr) (p : PageId) : M FrameId :=
  r <- hash_lookup f p ;;
  match r with
  | Some frameNo =>
      d <- getDesc frameNo ;;
      (if decide (pinCnt d = INT_MAX) then undefined else ret tt) ;;
      updDesc frameNo (fun d => with_pinCnt (pinCnt d + 1) d) ;;
      updDesc frameNo (with_refbit true) ;;
      ret frameNo
  | None =>
      frameNo <- allocBuf ;;
      pg <- file_readPage f p ;;
      setPage frameNo pg ;;
      descSet frameNo f p ;;
      hash_insert f p frameNo ;;
      ret frameNo
  end.

(** [BufMgr::unPinPage] (lines 134-147). *)
Definition unPinPage (f : FilePtr) (p : PageId) (dirty : bool) : M unit :=
  r <- hash_lookup f p ;;
  match r with
  | Some frameNo =>
      d <- getDesc frameNo ;;
      (if pinCnt d <=? 0 then
         name <- filename f ;;
         throw (PageNotPinnedException name p frameNo)
       else updDesc frameNo (fun d => with_pinCnt (pinCnt d - 1) d)) ;;
      if dirty then updDesc frameNo (with_dirty true) else ret tt
  | None => ret tt
  end.

(** Is descriptor [curr] not valid and yet not at its defaults?  This is
    the condition of the first [if] in the loop of [flushFile]. *)
Definition corrupt (curr : BufDesc) : bool :=
  negb (valid curr) &&
  (negb (pinCnt curr =? 0) || negb (file curr =? NULL)
   || negb (pageNo curr =? INVALID_NUMBER) || dirty curr || refbit curr).

(** The body of the [for] loop of [flushFile] (lines 156-171), at index
    [i]. *)
Definition flushFile_body (f : FilePtr) (i : FrameId) : M unit :=
  curr <- getDesc i ;;
  if corrupt curr then
    throw (BadBufferException i (dirty curr) false (refbit curr))
  else if negb (valid curr) || negb (file curr =? f) then ret tt
  else if pinCnt curr >? 0 then
    name <- filename f ;;
    throw (PagePinnedException name (pageNo curr) i)
  else
    (if dirty curr then pg <- getPage i ;; file_writePage (file curr) pg else ret tt) ;;
    hash_remove (file curr) (pageNo curr) ;;
    descClear i.

(** [for (i = ...; i < numBufs; i++)] with [n] iterations left. *)
Fixpoint flushFile_loop (f : FilePtr) (i : FrameId) (n : nat) : M unit :=
  match n with
  | O => ret tt
  | S n' => flushFile_body f i ;; flushFile_loop f (i + 1) n'
  end.

(** [BufMgr::flushFile] (lines 153-173). *)
Definition flushFile (f : FilePtr) : M unit :=
  n <- gets numBufs ;;
  flushFile_loop f 0 (Z.to_nat n).

(** [BufMgr::allocPage] (lines 181-192).  The new page number and the
    handle are returned as a pair. *)
Definition allocPage (f : FilePtr) : M (PageId * FrameId) :=
  new_pg <- file_allocatePage f ;;
  frame <- allocBuf ;;
  hash_insert f (page_number new_pg) frame ;;
  descSet frame f (page_number new_pg) ;;
  setPage frame new_pg ;;
  ret (page_number new_pg, frame).

(** [BufMgr::disposePage] (lines 199-207). *)
Definition disposePage (f : FilePtr) (p : PageId) : M unit :=
  file_deletePage f p ;;
  r <- hash_lookup f p ;;
  match r with
  | Some frameId =>
      hash_remove f p ;;
      descClear frameId
  | None => ret tt
  end.

(** The body of the loop of the destructor (lines 50-52), at index [i]. *)
Definition destructor_body (i : FrameId) : M unit :=
  d <- getDesc i ;;
  if dirty d then pg <- getPage i ;; file_writePage (file d) pg else ret tt.

(** [for (i = ...; i < numBufs; i++)] with [n] iterations left. *)
Fixpoint destructor_loop (i : FrameId) (n : nat) : M unit :=
  match n with
  | O => ret tt
  | S n' => destructor_body i ;; destructor_loop (i + 1) n'
  end.

(** [BufMgr::~BufMgr] (lines 48-57).  The three [delete]s end the life of
    the members of the object; what stays of the state afterwards is what
    the files hold and the trace. *)
Definition BufMgr_destructor : M unit :=
  n <- gets numBufs ;;
  destructor_loop 0 (Z.to_nat n).

(** The loop of [printSelf] (lines 214-222), with [n] iterations left.
    [out] is what has gone to the output so far, frame by frame: the frame
    number and the descriptor handed to [Print].  Modelled from the spec:
    [BufDesc::Print] is in [buffer.h], which is not part of the sources;
    section 4.3 has it print the state of the frame.  [validFrames] is an
    [int], whose increment past [INT_MAX] has no defined behaviour. *)
Fixpoint printSelf_loop (i : FrameId) (n : nat) (validFrames : Z)
    (out : list (Z * BufDesc)) : M (list (Z * BufDesc) * Z) :=
  match n with
  | O => ret (out, validFrames)
  | S n' =>
      tmpbuf <- getDesc i ;;
      if valid tmpbuf then
        (if decide (validFrames = INT_MAX) then undefined else ret tt) ;;
        printSelf_loop (i + 1) n' (validFrames + 1) (out ++ [(i, tmpbuf)])
      else printSelf_loop (i + 1) n' validFrames (out ++ [(i, tmpbuf)])
  end.

(** [BufMgr::printSelf] (lines 209-225): the result is the output, that is
    the frames printed and the total printed after them. *)
Definition printSelf : M (list (Z * BufDesc) * Z) :=
  n <- gets numBufs ;;
  printSelf_loop 0 (Z.to_nat n) 0 [].

(** ** Consumers and reachable states *)

(** What a consumer does with a handle: it overwrites the bytes of the
    page in the frame.  The page number is private to [Page]. *)
Definition writeHandle (i : FrameId) (bytes : string) : M unit :=
  pg <- getPage i ;;
  setPage i (mkPage (page_number pg) bytes).

Inductive Op : Type :=
| OpReadPage (f : FilePtr) (p : PageId)
| OpUnPinPage (f : FilePtr) (p : PageId) (dirty : bool)
| OpFlushFile (f : FilePtr)
| OpAllocPage (f : FilePtr)
| OpDisposePage (f : FilePtr) (p : PageId)
| OpWriteHandle (i : FrameId) (bytes : string).

Definition run (o : Op) : M unit :=
  match o with
  | OpReadPage f p => readPage f p ;; ret tt
  | OpUnPinPage f p b => unPinPage f p b
  | OpFlushFile f => flushFile f
  | OpAllocPage f => allocPage f ;; ret tt
  | OpDisposePage f p => disposePage f p
  | OpWriteHandle i bytes => writeHandle i bytes
  end.

(** The state in which a call leaves the pool, whether it returns or
    throws. *)
Definition state_after {A} (r : Result A) : option State :=
  match r with
  | Ok _ s => Some s
  | Throw _ s => Some s
  | Undefined => None
  end.

(** The states a pool of [bufs] frames can be in between two calls.  A
    pool of no frames is left out: its first sweep would take a remainder
    by zero.  The first rule takes every size that fits 32 bits, also the
    sizes for which [BufMgr_constructor] has no defined behaviour: what
    holds of all these states holds of those the program can be in. *)
Inductive reachable : State → Prop :=
| reach_new bufs files :
    0 < bufs < UINT32_MOD → reachable (BufMgr bufs files)
| reach_run o s s' :
    reachable s → state_after (run o s) = Some s' → reachable s'.

(** Running a list of calls; a call that throws does not stop the
    consumer from making the next one. *)
Fixpoint run_all (os : list Op) (s : State) : option State :=
  match os with
  | [] => Some s
  | o :: os' =>
      match state_after (run o s) with
      | Some s' => run_all os' s'
      | None => None
      end
  end.

(** ** The pool invariant *)

(** What holds of the descriptor [d] of frame [i]. *)
Record desc_ok (s : State) (i : nat) (d : BufDesc) : Prop := {
  ok_pin : 0 ≤ pinCnt d ≤ INT_MAX;
  ok_free : valid d = false → d = Clear d;
  ok_file : valid d = true → file d ≠ NULL;
  ok_hash : valid d = true → hashTable s !! (file d, pageNo d) = Some (Z.of_nat i);
  ok_page : valid d = true →
            ∃ pg, bufPool s !! i = Some pg ∧ page_number pg = pageNo d;
  ok_disk : valid d = true → is_Some (disk s !! (file d, pageNo d))
}.

(** What holds of the pool between two calls, and during a sweep. *)
Record pool_inv (s : State) : Prop := {
  inv_numBufs : 0 < numBufs s < UINT32_MOD;
  inv_table : Z.of_nat (length (bufDescTable s)) = numBufs s;
  inv_pool : Z.of_nat (length (bufPool s)) = numBufs s;
  inv_hand : 0 ≤ clockHand s < numBufs s;
  inv_desc : ∀ i d, bufDescTable s !! i = Some d → desc_ok s i d;
  inv_hash : ∀ f p j, hashTable s !! (f, p) = Some j →
             0 ≤ j ∧ ∃ d, bufDescTable s !! Z.to_nat j = Some d ∧
                          valid d = true ∧ file d = f ∧ pageNo d = p
}.

(** Two descriptors that differ at most in that the reference bit of the
    second has been cleared. *)
Definition same_but_refbit (d d' : BufDesc) : Prop :=
  d' = d ∨ d' = with_refbit false d.

(** ** The effect of the primitive steps, as functions on states *)

(** Where [advanceClock] takes the hand. *)
Definition next_hand (s : State) : FrameId :=
  ((clockHand s + 1) mod UINT32_MOD) mod numBufs s.

(** The state after [advanceClock]. *)
Definition advanced (s : State) : State :=
  emit EvAdvanceClock (with_hand (next_hand s) s).

(** The state after [bufDescTable[i] = d]. *)
Definition set_desc (i : FrameId) (d : BufDesc) (s : State) : State :=
  with_table (<[Z.to_nat i := d]> (bufDescTable s)) s.

(** The state after a [writePage] of [pg] to file [f] that succeeded. *)
Definition written (f : FilePtr) (pg : Page) (s : State) : State :=
  emit (EvWritePage f pg) (with_disk (<[(f, page_number pg) := data pg]> (disk s)) s).

(** Write-back of the page [pg] of a frame described by [d], when dirty. *)
Definition write_back (d : BufDesc) (pg : Page) (s : State) : State :=
  if dirty d then written (file d) pg s else s.

(** Frame [i], described by [d] and holding [pg], is written back, taken
    out of the index and cleared. *)
Definition evict_frame (i : FrameId) (d : BufDesc) (pg : Page) (s : State) : State :=
  emit (EvClear i)
    (set_desc i (Clear d)
       (with_hash (delete (file d, pageNo d) (hashTable s)) (write_back d pg s))).

(** The state in which [file->allocatePage()] leaves things. *)
Definition allocated (f : FilePtr) (s : State) : State :=
  emit (EvAllocatePage f (last_page f (disk s) + 1))
    (with_disk (<[(f, last_page f (disk s) + 1) := ""]> (disk s)) s).

(** The bound of the sweep, as the source computes it in 32 bits. *)
Definition sweep_bound (s : State) : nat :=
  Z.to_nat ((2 * numBufs s) mod UINT32_MOD).

(** ** How the loops end *)

(** The four ways through the body of the loop of [allocBuf], started in
    [s] with the hand on a frame described by [d] and holding [pg]. *)
Inductive body_case (s : State) (d : BufDesc) (pg : Page) : Result Ctl → Prop :=
| case_free :
    valid d = false → body_case s d pg (Ok Break s)
| case_refbit :
    valid d = true → refbit d = true →
    body_case s d pg
      (Ok Continue (advanced (set_desc (clockHand s) (with_refbit false d) s)))
| case_pinned :
    valid d = true → refbit d = false → 0 < pinCnt d →
    body_case s d pg (Ok Continue (advanced s))
| case_victim :
    valid d = true → refbit d = false → pinCnt d = 0 →
    body_case s d pg (Ok Break (evict_frame (clockHand s) d pg s)).

(** [swept s0 k s]: [s] is what [k] runs of the body that ended in
    [continue] make of [s0].  Only the clock hand, reference bits and the
    trace have changed, and only frames that the hand passed over. *)
Record swept (s0 : State) (k : nat) (s : State) : Prop := {
  sw_numBufs : numBufs s = numBufs s0;
  sw_pool : bufPool s = bufPool s0;
  sw_hash : hashTable s = hashTable s0;
  sw_disk : disk s = disk s0;
  sw_trace : trace s = trace s0 ++ replicate k EvAdvanceClock;
  sw_hand : clockHand s = (clockHand s0 + Z.of_nat k) mod numBufs s0;
  sw_table : Forall2 same_but_refbit (bufDescTable s0) (bufDescTable s);
  sw_visited : ∀ i d d',
    bufDescTable s0 !! i = Some d → bufDescTable s !! i = Some d' → d' ≠ d →
    ∃ j, (j < k)%nat ∧ (clockHand s0 + Z.of_nat j) mod numBufs s0 = Z.of_nat i
}.

(** How the loop of [allocBuf] ends when started in [s0] with [maxBound = m]:
    with the bound used up, at a free frame, or at a victim. *)
Inductive loop_outcome (s0 : State) (m : nat) : Result nat → Prop :=
| lo_exhausted s1 :
    swept s0 m s1 → pool_inv s1 →
    loop_outcome s0 m (Ok O s1)
| lo_free k s1 d r :
    (k < m)%nat → swept s0 k s1 → pool_inv s1 →
    bufDescTable s1 !! Z.to_nat (clockHand s1) = Some d →
    valid d = false → r ≠ O →
    allocBuf_body s1 = Ok Break s1 →
    loop_outcome s0 m (Ok r s1)
| lo_victim k s1 d pg r :
    (k < m)%nat → swept s0 k s1 → pool_inv s1 →
    bufDescTable s1 !! Z.to_nat (clockHand s1) = Some d →
    bufPool s1 !! Z.to_nat (clockHand s1) = Some pg →
    valid d = true → refbit d = false → pinCnt d = 0 → r ≠ O →
    allocBuf_body s1 = Ok Break (evict_frame (clockHand s1) d pg s1) →
    loop_outcome s0 m (Ok r (evict_frame (clockHand s1) d pg s1)).

(** How [allocBuf] ends. *)
Inductive allocBuf_outcome (s : State) : Result Z → Prop :=
| ao_exhausted s1 :
    swept (advanced s) (sweep_bound s) s1 → pool_inv s1 →
    allocBuf_outcome s (Throw BufferExceededException s1)
| ao_free k s1 d :
    (k < sweep_bound s)%nat → swept (advanced s) k s1 → pool_inv s1 →
    bufDescTable s1 !! Z.to_nat (clockHand s1) = Some d →
    valid d = false →
    allocBuf_body s1 = Ok Break s1 →
    allocBuf_outcome s (Ok (clockHand s1) s1)
| ao_victim k s1 d pg :
    (k < sweep_bound s)%nat → swept (advanced s) k s1 → pool_inv s1 →
    bufDescTable s1 !! Z.to_nat (clockHand s1) = Some d →
    bufPool s1 !! Z.to_nat (clockHand s1) = Some pg →
    valid d = true → refbit d = false → pinCnt d = 0 →
    allocBuf_body s1 = Ok Break (evict_frame (clockHand s1) d pg s1) →
    allocBuf_outcome s (Ok (clockHand s1) (evict_frame (clockHand s1) d pg s1)).

(** One run of the body of the loop of [flushFile], under the invariant. *)
Inductive flush_case (f : FilePtr) (i : FrameId) (s : State) (d : BufDesc) (pg : Page) :
    Result unit → Prop :=
| fc_skip :
    valid d = false ∨ file d ≠ f →
    flush_case f i s d pg (Ok tt s)
| fc_pinned :
    valid d = true → file d = f → 0 < pinCnt d →
    flush_case f i s d pg (Throw (PagePinnedException f (pageNo d) i) s)
| fc_flush :
    valid d = true → file d = f → pinCnt d = 0 →
    flush_case f i s d pg (Ok tt (evict_frame i d pg s)).

(** ** Vocabulary of the properties *)

(** [triple U P m Q E]: from a state in [P], the call [m] ends in [Q] when
    it returns and in [E] when it throws; [U] tells whether it may have no
    defined behaviour ([False]: it never does). *)
Definition triple {A} (U : Prop) (P : State → Prop) (m : M A)
    (Q : A → State → Prop) (E : Exn → State → Prop) : Prop :=
  ∀ s, P s →
    match m s with
    | Ok a s' => Q a s'
    | Throw e s' => E e s'
    | Undefined => U
    end.

(** Every frame is occupied and pinned. *)
Definition all_pinned (s : State) : Prop :=
  Forall (fun d => valid d = true ∧ 0 < pinCnt d) (bufDescTable s).

(** The frame described by [d] holds a page of file [f]. *)
Definition owned (f : FilePtr) (d : BufDesc) : Prop :=
  valid d = true ∧ file d = f.

Global Instance owned_dec f d : Decision (owned f d).
Proof. unfold owned. apply _. Defined.

(** The calls that flushing [f] makes for the frames described by [ds] and
    holding [pgs], the first of which has index [i]. *)
Fixpoint flush_events (f : FilePtr) (i : nat) (ds : list BufDesc) (pgs : list Page)
    : list Event :=
  match ds, pgs with
  | d :: ds', pg :: pgs' =>
      (if decide (owned f d)
       then (if dirty d then [EvWritePage f pg] else []) ++ [EvClear (Z.of_nat i)]
       else [])
      ++ flush_events f (S i) ds' pgs'
  | _, _ => []
  end.

(** From [s] to [s'] the trace has only grown, and every descriptor whose
    dirty flag went from set to cleared has had a call of [Clear] logged
    for its frame. *)
Definition clears_logged (s s' : State) : Prop :=
  length (bufDescTable s') = length (bufDescTable s) ∧
  ∃ evs, trace s' = trace s ++ evs ∧
         ∀ i d d', bufDescTable s !! i = Some d → bufDescTable s' !! i = Some d' →
                   dirty d = true → dirty d' = false →
                   EvClear (Z.of_nat i) ∈ evs.

(** Is [e] a call of [writePage]? *)
Definition is_write (e : Event) : bool :=
  match e with
  | EvWritePage _ _ => true
  | _ => false
  end.

(** How often the call [e] occurs in [evs]. *)
Definition times (e : Event) (evs : list Event) : nat :=
  length (filter (eq e) evs).

(** ** Example pools *)

(** A file, number 7, with four pages. *)
Definition files0 : gmap (Z * Z) string :=
  list_to_map [((7, 1), "A"); ((7, 2), "B"); ((7, 3), "C"); ((7, 4), "D")].

(** Three frames, pages 1, 2 and 3 of file 7 fetched and still pinned. *)
Definition ex_calls_full : list Op :=
  [OpReadPage 7 1; OpReadPage 7 2; OpReadPage 7 3].

Definition ex_full : State :=
  default (BufMgr 3 files0) (run_all ex_calls_full (BufMgr 3 files0)).

Definition ex_full_failed : State :=
  default ex_full (state_after (readPage 7 4 ex_full)).

Definition ex_full_alloc_failed : State :=
  default ex_full (state_after (allocPage 7 ex_full)).

(** Page 1 of file 7 fetched and released once. *)
Definition ex_calls_released : list Op := [OpReadPage 7 1; OpUnPinPage 7 1 false].

Definition ex_released : State :=
  default (BufMgr 3 files0) (run_all ex_calls_released (BufMgr 3 files0)).

(** Page 1 of file 7 fetched, released as modified, and fetched again. *)
Definition ex_dirty : State :=
  default (BufMgr 3 files0)
    (run_all [OpReadPage 7 1; OpUnPinPage 7 1 true; OpReadPage 7 1] (BufMgr 3 files0)).

Definition ex_dirty_released : State :=
  default ex_dirty (state_after (unPinPage 7 1 false ex_dirty)).

(** Three frames, all occupied; page 1 has been released as modified, pages
    2 and 3 are still pinned. *)
Definition ex_calls_pressure : list Op :=
  [OpReadPage 7 1; OpReadPage 7 2; OpReadPage 7 3; OpUnPinPage 7 1 true].

Definition ex_pressure : State :=
  default (BufMgr 3 files0) (run_all ex_calls_pressure (BufMgr 3 files0)).

Definition ex_pressure_evicted : State :=
  default ex_pressure (state_after (allocBuf ex_pressure)).

(** A pool of one frame, whose page is pinned. *)
Definition ex_calls_one : list Op := [OpReadPage 7 1].

Definition ex_one : State :=
  default (BufMgr 1 files0) (run_all ex_calls_one (BufMgr 1 files0)).

Definition ex_one_failed : State :=
  default ex_one (state_after (allocBuf ex_one)).

(** A consumer fetches page 1 of file 7, overwrites its bytes through the
    handle, and two more pages are fetched. *)
Definition ex_calls_modified : list Op :=
  [OpReadPage 7 1; OpWriteHandle 0 "A2"; OpReadPage 7 2; OpReadPage 7 3].

Definition ex_modified : State :=
  default (BufMgr 3 files0) (run_all ex_calls_modified (BufMgr 3 files0)).

(** ... and releases page 1 as modified. *)
Definition ex_calls_modified_released : list Op :=
  ex_calls_modified ++ [OpUnPinPage 7 1 true].

Definition ex_modified_released : State :=
  default (BufMgr 3 files0) (run_all ex_calls_modified_released (BufMgr 3 files0)).

(** The sweep run on that state. *)
Definition ex_modified_evicted : State :=
  default ex_modified_released (state_after (allocBuf ex_modified_released)).

(** Instead of the bare sweep: page 4 is fetched, which evicts page 1. *)
Definition ex_fetched_4 : State :=
  default ex_modified_released
    (state_after (run (OpReadPage 7 4) ex_modified_released)).

(** Then page 2 is released to make room. *)
Definition ex_calls_refetch : list Op :=
  ex_calls_modified_released ++ [OpReadPage 7 4; OpUnPinPage 7 2 false].

Definition ex_refetch : State :=
  default (BufMgr 3 files0) (run_all ex_calls_refetch (BufMgr 3 files0)).

Definition ex_refetched : State :=
  default ex_refetch (state_after (readPage 7 1 ex_refetch)).

(** Page 1 of file 7 released as modified, page 2 released unmodified, and a
    new page of file 8 still pinned. *)
Definition ex_calls_flush : list Op :=
  [OpReadPage 7 1; OpUnPinPage 7 1 true; OpReadPage 7 2; OpUnPinPage 7 2 false;
   OpAllocPage 8].

Definition ex_flush : State :=
  default (BufMgr 3 files0) (run_all ex_calls_flush (BufMgr 3 files0)).

Definition ex_flushed : State :=
  default ex_flush (state_after (flushFile 7 ex_flush)).

(** Page 1 is fetched and released unmodified, then pages 2, 3 and 4 are
    fetched. *)
Definition ex_calls_clean : list Op :=
  [OpReadPage 7 1; OpUnPinPage 7 1 false; OpReadPage 7 2; OpReadPage 7 3;
   OpReadPage 7 4].

Definition ex_clean : State :=
  default (BufMgr 3 files0) (run_all ex_calls_clean (BufMgr 3 files0)).

(** A pool of two frames in which frame 1 is marked not valid and yet dirty
    and pinned. *)
Definition ex_corrupt : State :=
  with_table [mkBufDesc NULL INVALID_NUMBER 0 0 false false false;
              mkBufDesc NULL INVALID_NUMBER 1 2 true false false]
             (BufMgr 2 files0).

(** ** Vocabulary of the further properties *)

(** The number of steps after which the sweep, started in [s], gets to
    choose the frame [j] described by [d], if it does not stop before. *)
Definition steps_to_choose (s : State) (j : FrameId) (d : BufDesc) : Z :=
  (j - clockHand s) mod numBufs s
  + (if valid d && refbit d then numBufs s else 0).

(** The state after a fetch has read page [p] of file [f] into the frame
    [i], described by [d] until then, [s] being the state in which
    [allocBuf] returned. *)
Definition loaded (i : FrameId) (d : BufDesc) (f : FilePtr) (p : PageId)
    (bytes : string) (s : State) : State :=
  with_hash (<[(f, p) := i]> (hashTable s))
    (emit (EvSet i f p)
       (set_desc i (Set_ d f p)
          (with_pool (<[Z.to_nat i := mkPage p bytes]> (bufPool s))
             (emit (EvReadPage f p) s)))).

(** The state after [allocPage] has put the new, empty page [p] of file [f]
    into the frame [i], described by [d] until then, [s] being the state in
    which [allocBuf] returned. *)
Definition installed (i : FrameId) (d : BufDesc) (f : FilePtr) (p : PageId)
    (s : State) : State :=
  with_pool (<[Z.to_nat i := mkPage p ""]> (bufPool s))
    (emit (EvSet i f p)
       (set_desc i (Set_ d f p)
          (with_hash (<[(f, p) := i]> (hashTable s)) s))).

(** The calls that the destructor makes for the frames described by [ds]
    and holding [pgs]. *)
Fixpoint destructor_events (ds : list BufDesc) (pgs : list Page) : list Event :=
  match ds, pgs with
  | d :: ds', pg :: pgs' =>
      (if dirty d then [EvWritePage (file d) pg] else [])
      ++ destructor_events ds' pgs'
  | _, _ => []
  end.

(** The frames described by [ds], numbered from [i] on: what the loop of
    [printSelf] hands to [Print] for them. *)
Fixpoint numbered (i : Z) (ds : list BufDesc) : list (Z * BufDesc) :=
  match ds with
  | [] => []
  | d :: ds' => (i, d) :: numbered (i + 1) ds'
  end.

(** The descriptors among [ds] that are valid. *)
Definition valid_frames (ds : list BufDesc) : list BufDesc :=
  filter (fun d => valid d = true) ds.

(** The exceptions in which a call can end. *)
Definition may_throw (o : Op) (e : Exn) : Prop :=
  match o with
  | OpReadPage f p => e = BufferExceededException ∨ e = InvalidPageException p f
  | OpUnPinPage f p _ => ∃ i, e = PageNotPinnedException f p i
  | OpFlushFile f => ∃ p i, e = PagePinnedException f p i
  | OpAllocPage f => e = BufferExceededException
  | OpDisposePage f p => e = InvalidPageException p f
  | OpWriteHandle _ _ => False
  end.

(** What it takes for a call to have no defined behaviour in the state
    [s]: a null [File*], a pin count that cannot grow, a handle that does
    not point into the pool. *)
Definition ill_formed (o : Op) (s : State) : Prop :=
  match o with
  | OpReadPage f p =>
      f = NULL ∨
      ∃ j d, hashTable s !! (f, p) = Some j ∧
             bufDescTable s !! Z.to_nat j = Some d ∧ pinCnt d = INT_MAX
  | OpUnPinPage _ _ _ => False
  | OpFlushFile _ => False
  | OpAllocPage f => f = NULL
  | OpDisposePage f _ => f = NULL
  | OpWriteHandle i _ => bufPool s !! Z.to_nat i = None
  end.

(** Frame [i], which held the page [pg] under the descriptor [d], holds it
    in [s'] as well, with at least [n] pins: the same page of the same
    file with the same bytes, in the index, and dirty if it was. *)
Definition frame_kept (i : nat) (d : BufDesc) (pg : Page) (n : Z) (s' : State) : Prop :=
  bufPool s' !! i = Some pg ∧
  hashTable s' !! (file d, pageNo d) = Some (Z.of_nat i) ∧
  ∃ d', bufDescTable s' !! i = Some d' ∧ valid d' = true ∧
        file d' = file d ∧ pageNo d' = pageNo d ∧ n ≤ pinCnt d' ∧
        (dirty d = true → dirty d' = true).

(** The calls that take the page described by [d] out of frame [i], or
    change its bytes, on purpose. *)
Definition gives_up (o : Op) (i : nat) (d : BufDesc) : Prop :=
  match o with
  | OpDisposePage f p => (f, p) = (file d, pageNo d)
  | OpWriteHandle j _ => Z.to_nat j = i
  | _ => False
  end.

(** The pins that the call [o] leaves of [n] pins on the page described by
    [d]. *)
Definition pins_left (o : Op) (d : BufDesc) (n : Z) : Z :=
  match o with
  | OpUnPinPage f p _ => if decide ((f, p) = (file d, pageNo d)) then n - 1 else n
  | _ => n
  end.

(** ** Further example pools *)

(** Page 1 is fetched and released unmodified, then pages 2 and 3 are
    fetched: the pool is full and frame 0 can be taken. *)
Definition ex_calls_clean_full : list Op :=
  [OpReadPage 7 1; OpUnPinPage 7 1 false; OpReadPage 7 2; OpReadPage 7 3].

Definition ex_clean_full : State :=
  default (BufMgr 3 files0) (run_all ex_calls_clean_full (BufMgr 3 files0)).

Definition ex_clean_evicted : State :=
  default ex_clean_full (state_after (allocBuf ex_clean_full)).

(** The sweep that a call of [allocPage] for file 8 starts on the pool
    [ex_released]. *)
Definition ex_released_swept : State :=
  default ex_released (state_after (allocBuf (allocated 8 ex_released))).

(** Page 1 of file 7 released as modified, page 2 of the same file still
    pinned. *)
Definition ex_calls_half_pinned : list Op :=
  [OpReadPage 7 1; OpUnPinPage 7 1 true; OpReadPage 7 2].

Definition ex_half_pinned : State :=
  default (BufMgr 3 files0) (run_all ex_calls_half_pinned (BufMgr 3 files0)).

(** * Proofs *)

Ltac run_monad :=
  unfold descClear, descSet;
  unfold bind, ret, gets, modify, throw, undefined, getDesc, updDesc, getPage,
    setPage, hash_lookup, hash_insert, hash_remove, filename;
  simpl.

(** ** Hoare triples over the monad *)

Lemma triple_ret {A} U (P : State → Prop) (a : A) (Q : A → State → Prop) E :
  (∀ s, P s → Q a s) → triple U P (ret a) Q E.
Proof. intros H s Hs. simpl. auto. Qed.

Lemma triple_bind {A B} U P (m : M A) (k : A → M B) R Q E :
  triple U P m R E → (∀ a, triple U (R a) (k a) Q E) → triple U P (bind m k) Q E.
Proof.
  intros Hm Hk s Hs. unfold bind. specialize (Hm s Hs).
  destruct (m s) as [a s'|e s'|]; [|done..].
  exact (Hk a s' Hm).
Qed.

Lemma triple_total_partial {A} P (m : M A) Q E :
  triple False P m Q E → triple True P m Q E.
Proof. intros H s Hs. specialize (H s Hs). by destruct (m s). Qed.

(** ** The branches of the loop of [allocBuf], as equations *)

Lemma evict_frame_numBufs i d pg s : numBufs (evict_frame i d pg s) = numBufs s.
Proof. unfold evict_frame, write_back. by destruct (dirty d). Qed.

Lemma evict_frame_hand i d pg s : clockHand (evict_frame i d pg s) = clockHand s.
Proof. unfold evict_frame, write_back. by destruct (dirty d). Qed.

Lemma evict_frame_pool i d pg s : bufPool (evict_frame i d pg s) = bufPool s.
Proof. unfold evict_frame, write_back. by destruct (dirty d). Qed.

Lemma evict_frame_table i d pg s :
  bufDescTable (evict_frame i d pg s) = <[Z.to_nat i := Clear d]> (bufDescTable s).
Proof. unfold evict_frame, write_back. by destruct (dirty d). Qed.

Lemma evict_frame_hash i d pg s :
  hashTable (evict_frame i d pg s) = delete (file d, pageNo d) (hashTable s).
Proof. unfold evict_frame, write_back. by destruct (dirty d). Qed.

Lemma evict_frame_disk i d pg s :
  disk (evict_frame i d pg s) =
    if dirty d then <[(file d, page_number pg) := data pg]> (disk s) else disk s.
Proof. unfold evict_frame, write_back. by destruct (dirty d). Qed.

Lemma evict_frame_trace i d pg s :
  trace (evict_frame i d pg s) =
    trace s ++ (if dirty d then [EvWritePage (file d) pg] else []) ++ [EvClear i].
Proof.
  unfold evict_frame, write_back. destruct (dirty d); simpl; [|done].
  by rewrite <- app_assoc.
Qed.

Lemma advanceClock_eq s : numBufs s ≠ 0 → advanceClock s = Ok tt (advanced s).
Proof. intros H. unfold advanceClock. by rewrite decide_False. Qed.

Section allocBuf_body_cases.
Variables (s : State) (d : BufDesc).
Hypothesis Hd : bufDescTable s !! Z.to_nat (clockHand s) = Some d.

Lemma allocBuf_body_free :
  valid d = false → allocBuf_body s = Ok Break s.
Proof. intros Hv. unfold allocBuf_body. run_monad. by rewrite Hd, Hv. Qed.

Lemma allocBuf_body_refbit :
  numBufs s ≠ 0 → valid d = true → refbit d = true →
  allocBuf_body s =
    Ok Continue (advanced (set_desc (clockHand s) (with_refbit false d) s)).
Proof.
  intros Hn Hv Hr. unfold allocBuf_body. run_monad. rewrite Hd, Hv, Hr. simpl.
  rewrite Hd. unfold advanceClock. simpl. by rewrite decide_False.
Qed.

Lemma allocBuf_body_pinned :
  numBufs s ≠ 0 → valid d = true → refbit d = false → 0 < pinCnt d →
  allocBuf_body s = Ok Continue (advanced s).
Proof.
  intros Hn Hv Hr Hp. unfold allocBuf_body. run_monad. rewrite Hd, Hv, Hr. simpl.
  destruct (Z.gtb_spec (pinCnt d) 0); [|lia].
  unfold advanceClock. by rewrite decide_False.
Qed.

Lemma allocBuf_body_victim pg j :
  valid d = true → refbit d = false → pinCnt d ≤ 0 →
  bufPool s !! Z.to_nat (clockHand s) = Some pg →
  file d ≠ NULL →
  is_Some (disk s !! (file d, page_number pg)) →
  hashTable s !! (file d, pageNo d) = Some j →
  allocBuf_body s = Ok Break (evict_frame (clockHand s) d pg s).
Proof.
  intros Hv Hr Hp Hpg Hf [x Hx] Hj. unfold allocBuf_body. run_monad.
  rewrite Hd, Hv, Hr. simpl.
  destruct (Z.gtb_spec (pinCnt d) 0); [lia|].
  unfold evict_frame, write_back. destruct (dirty d) eqn:Hdirty; simpl.
  - rewrite Hpg. unfold file_writePage. rewrite decide_False by done.
    rewrite Hx. simpl. rewrite Hj. simpl. by rewrite Hd.
  - rewrite Hj. simpl. by rewrite Hd.
Qed.
End allocBuf_body_cases.

(** ** The invariant under changes of the state *)

Lemma desc_ok_pin_range s i d : desc_ok s i d → 0 ≤ pinCnt d ≤ INT_MAX.
Proof. by intros []. Qed.

(** Nothing that the invariant reads has changed, except that pages may
    have appeared on disk or changed their bytes. *)
Lemma pool_inv_frame s s' :
  pool_inv s →
  numBufs s' = numBufs s →
  bufDescTable s' = bufDescTable s →
  bufPool s' = bufPool s →
  hashTable s' = hashTable s →
  0 ≤ clockHand s' < numBufs s →
  (∀ k, is_Some (hashTable s !! k) → is_Some (disk s !! k) → is_Some (disk s' !! k)) →
  pool_inv s'.
Proof.
  intros [Hn Ht Hp Hc Hd Hh] En Et Ep Eh Ec Ek.
  split; rewrite ?En, ?Et, ?Ep, ?Eh; try done.
  intros i d Hi. destruct (Hd i d Hi) as [H1 H2 H3 H4 H5 H6].
  split; rewrite ?Ep, ?Eh; try done.
  intros Hv. apply Ek; [rewrite (H4 Hv)|]; eauto.
Qed.

Lemma next_hand_range s : 0 < numBufs s → 0 ≤ next_hand s < numBufs s.
Proof. intros H. unfold next_hand. by apply Z.mod_pos_bound. Qed.

Lemma pool_inv_advanced s : pool_inv s → pool_inv (advanced s).
Proof.
  intros H. eapply pool_inv_frame; eauto. simpl.
  apply next_hand_range, H.
Qed.

Lemma pool_inv_written f pg s : pool_inv s → pool_inv (written f pg s).
Proof.
  intros H. eapply pool_inv_frame; eauto; simpl; [apply H|].
  intros k _ Hk. destruct (decide ((f, page_number pg) = k)) as [->|Hne].
  - rewrite lookup_insert_eq. eauto.
  - by rewrite lookup_insert_ne.
Qed.

(** A valid descriptor is replaced by one with the same identity. *)
Lemma pool_inv_set_desc s i d d' :
  pool_inv s →
  bufDescTable s !! Z.to_nat i = Some d →
  valid d = true → valid d' = true →
  file d' = file d → pageNo d' = pageNo d →
  0 ≤ pinCnt d' ≤ INT_MAX →
  pool_inv (set_desc i d' s).
Proof.
  intros [Hn Ht Hp Hc Hd Hh] Hi Hv Hv' Ef Ep Hpin.
  split; simpl; rewrite ?length_insert; try done.
  - intros k dk Hk. destruct (decide (k = Z.to_nat i)) as [->|Hne].
    + rewrite list_lookup_insert_eq in Hk by (by eapply lookup_lt_Some).
      injection Hk as <-. destruct (Hd _ _ Hi) as [H1 H2 H3 H4 H5 H6].
      split; simpl; rewrite ?Ef, ?Ep; try done; try congruence; intros _; auto.
    + rewrite list_lookup_insert_ne in Hk by done.
      destruct (Hd _ _ Hk). by split.
  - intros f p j Hj. destruct (Hh f p j Hj) as (Hj0 & dj & Hdj & Hvj & Hfj & Hpj).
    split; [done|]. destruct (decide (Z.to_nat j = Z.to_nat i)) as [Heq|Hne].
    + exists d'. rewrite Heq, list_lookup_insert_eq by (by eapply lookup_lt_Some).
      rewrite Heq in Hdj. by simplify_eq.
    + exists dj. by rewrite list_lookup_insert_ne.
Qed.

(** A valid frame leaves the pool: its descriptor is cleared and its key
    leaves the index; its page may leave the disk at the same time. *)
Lemma pool_inv_evicted s s' i d :
  pool_inv s →
  bufDescTable s !! Z.to_nat i = Some d →
  valid d = true →
  numBufs s' = numBufs s →
  bufDescTable s' = <[Z.to_nat i := Clear d]> (bufDescTable s) →
  bufPool s' = bufPool s →
  hashTable s' = delete (file d, pageNo d) (hashTable s) →
  0 ≤ clockHand s' < numBufs s →
  (∀ k, k ≠ (file d, pageNo d) → is_Some (disk s !! k) → is_Some (disk s' !! k)) →
  pool_inv s'.
Proof.
  intros [Hn Ht Hp Hc Hd Hh] Hi Hv En Et Ep Eh Ec Ek.
  pose proof (ok_hash _ _ _ (Hd _ _ Hi) Hv) as Hkey.
  split; rewrite ?En, ?Et, ?Ep, ?Eh, ?length_insert; try done.
  - intros k dk Hk. destruct (decide (k = Z.to_nat i)) as [->|Hne].
    + rewrite list_lookup_insert_eq in Hk by (by eapply lookup_lt_Some).
      injection Hk as <-. split; simpl; try done; unfold INT_MAX; lia.
    + rewrite list_lookup_insert_ne in Hk by done.
      destruct (Hd _ _ Hk) as [H1 H2 H3 H4 H5 H6].
      assert (valid dk = true → (file dk, pageNo dk) ≠ (file d, pageNo d)) as Hkne.
      { intros Hvk Heq. specialize (H4 Hvk). rewrite Heq, Hkey in H4.
        injection H4 as H4. lia. }
      split; rewrite ?Ep, ?Eh; try done.
      * intros Hvk. rewrite lookup_delete_ne by (symmetry; auto). auto.
      * intros Hvk. apply Ek; auto.
  - intros f p j Hj. apply lookup_delete_Some in Hj as [Hne Hj].
    destruct (Hh f p j Hj) as (Hj0 & dj & Hdj & Hvj & Hfj & Hpj).
    split; [done|]. exists dj. split; [|done].
    rewrite list_lookup_insert_ne; [done|]. intros Heq. rewrite <- Heq in Hdj.
    by simplify_eq.
Qed.

Lemma pool_inv_evict_frame s i d pg :
  pool_inv s →
  bufDescTable s !! Z.to_nat i = Some d →
  valid d = true →
  pool_inv (evict_frame i d pg s).
Proof.
  intros H Hi Hv. unfold evict_frame, write_back.
  assert (pool_inv (if dirty d then written (file d) pg s else s)) as H'.
  { destruct (dirty d); [by apply pool_inv_written|done]. }
  eapply (pool_inv_evicted _ _ i d H'); try by destruct (dirty d).
  destruct (dirty d); apply H.
Qed.

(** A free frame receives the page [(f, p)]. *)
Lemma pool_inv_installed s s' i d f p pg :
  pool_inv s →
  bufDescTable s !! Z.to_nat i = Some d →
  0 ≤ i →
  valid d = false →
  hashTable s !! (f, p) = None →
  f ≠ NULL →
  page_number pg = p →
  numBufs s' = numBufs s →
  bufDescTable s' = <[Z.to_nat i := Set_ d f p]> (bufDescTable s) →
  bufPool s' = <[Z.to_nat i := pg]> (bufPool s) →
  hashTable s' = <[(f, p) := i]> (hashTable s) →
  0 ≤ clockHand s' < numBufs s →
  is_Some (disk s' !! (f, p)) →
  (∀ k, is_Some (disk s !! k) → is_Some (disk s' !! k)) →
  pool_inv s'.
Proof.
  intros [Hn Ht Hp Hc Hd Hh] Hi Hi0 Hv Hnone Hf Hpg En Et Ep Eh Ec Hnew Ek.
  assert (Z.to_nat i < length (bufDescTable s))%nat as Hlt by (by eapply lookup_lt_Some).
  split; rewrite ?En, ?Et, ?Ep, ?Eh, ?length_insert; try done.
  - intros k dk Hk. destruct (decide (k = Z.to_nat i)) as [->|Hne].
    + rewrite list_lookup_insert_eq in Hk by done.
      injection Hk as <-. split; rewrite ?Ep, ?Eh; simpl; try done.
      * intros _. rewrite lookup_insert_eq. f_equal. lia.
      * intros _. exists pg. split; [|done]. apply list_lookup_insert_eq. lia.
    + rewrite list_lookup_insert_ne in Hk by done.
      destruct (Hd _ _ Hk) as [H1 H2 H3 H4 H5 H6].
      split; rewrite ?Ep, ?Eh; try done.
      * intros Hvk. rewrite lookup_insert_ne; [auto|].
        intros Heq. specialize (H4 Hvk). rewrite <- Heq in H4. congruence.
      * intros Hvk. rewrite list_lookup_insert_ne by done. auto.
      * auto.
  - intros f' p' j Hj. destruct (decide ((f, p) = (f', p'))) as [Heq|Hne].
    + rewrite Heq, lookup_insert_eq in Hj. injection Hj as <-. injection Heq as <- <-.
      split; [done|]. exists (Set_ d f p). by rewrite list_lookup_insert_eq.
    + rewrite lookup_insert_ne in Hj by done.
      destruct (Hh f' p' j Hj) as (Hj0 & dj & Hdj & Hvj & Hfj & Hpj).
      split; [done|]. exists dj. split; [|done].
      rewrite list_lookup_insert_ne; [done|]. intros Heq. rewrite <- Heq in Hdj.
      simplify_eq; congruence.
Qed.

(** The bytes of a page in a frame change; its number does not. *)
Lemma pool_inv_set_page s s' i pg bytes :
  pool_inv s →
  bufPool s !! Z.to_nat i = Some pg →
  numBufs s' = numBufs s →
  bufDescTable s' = bufDescTable s →
  bufPool s' = <[Z.to_nat i := mkPage (page_number pg) bytes]> (bufPool s) →
  hashTable s' = hashTable s →
  clockHand s' = clockHand s →
  disk s' = disk s →
  pool_inv s'.
Proof.
  intros [Hn Ht Hp Hc Hd Hh] Hi En Et Ep Eh Ec Ek.
  split; rewrite ?En, ?Et, ?Ep, ?Eh, ?Ec, ?Ek, ?length_insert; try done.
  intros k dk Hk. destruct (Hd _ _ Hk) as [H1 H2 H3 H4 H5 H6].
  split; rewrite ?Ep, ?Eh, ?Ek; try done.
  intros Hvk. destruct (H5 Hvk) as (pgk & Hpgk & Hnum).
  destruct (decide (k = Z.to_nat i)) as [->|Hne].
  - rewrite list_lookup_insert_eq by (by eapply lookup_lt_Some).
    eexists; split; [done|]. simpl. congruence.
  - rewrite list_lookup_insert_ne by done. eauto.
Qed.

(** ** One run of the body of the sweep, under the invariant *)

Lemma pool_inv_lookup s i :
  pool_inv s → 0 ≤ i < numBufs s →
  ∃ d pg, bufDescTable s !! Z.to_nat i = Some d ∧ bufPool s !! Z.to_nat i = Some pg.
Proof.
  intros H Hi.
  destruct (lookup_lt_is_Some_2 (bufDescTable s) (Z.to_nat i)) as [d Hd].
  { pose proof (inv_table _ H). lia. }
  destruct (lookup_lt_is_Some_2 (bufPool s) (Z.to_nat i)) as [pg Hpg].
  { pose proof (inv_pool _ H). lia. }
  eauto.
Qed.

Lemma allocBuf_body_spec s :
  pool_inv s →
  ∃ d pg, bufDescTable s !! Z.to_nat (clockHand s) = Some d ∧
          bufPool s !! Z.to_nat (clockHand s) = Some pg ∧
          body_case s d pg (allocBuf_body s).
Proof.
  intros H. destruct (pool_inv_lookup s (clockHand s) H (inv_hand _ H))
    as (d & pg & Hd & Hpg).
  exists d, pg. split; [done|]. split; [done|].
  pose proof (inv_numBufs _ H) as Hn.
  destruct (inv_desc _ H _ _ Hd) as [Hpin Hfree Hfile Hhash Hpage Hdisk].
  destruct (valid d) eqn:Hv.
  - destruct (refbit d) eqn:Hr.
    + rewrite (allocBuf_body_refbit s d) by (done || lia). by constructor.
    + destruct (decide (0 < pinCnt d)) as [Hp|Hp].
      * rewrite (allocBuf_body_pinned s d) by (done || lia). by constructor.
      * destruct (Hpage eq_refl) as (pg' & Hpg' & Hnum).
        assert (pg' = pg) as -> by congruence.
        rewrite (allocBuf_body_victim s d Hd pg (Z.of_nat (Z.to_nat (clockHand s))));
          auto; try lia.
        -- constructor; auto. lia.
        -- rewrite Hnum. auto.
  - rewrite (allocBuf_body_free s d) by done. by constructor.
Qed.

(** ** The sweep as a whole *)

Lemma same_but_refbit_refl d : same_but_refbit d d.
Proof. by left. Qed.

Lemma same_but_refbit_fields d d' :
  same_but_refbit d d' →
  valid d' = valid d ∧ pinCnt d' = pinCnt d ∧ file d' = file d ∧
  pageNo d' = pageNo d ∧ dirty d' = dirty d ∧ frameNo d' = frameNo d ∧
  (refbit d' = true → refbit d = true).
Proof. intros [->| ->]; simpl; repeat split; done. Qed.

Lemma same_but_refbit_clear d d' :
  same_but_refbit d d' → same_but_refbit d (with_refbit false d').
Proof. intros [->| ->]; by right. Qed.

Lemma swept_0 s0 : 0 ≤ clockHand s0 < numBufs s0 → swept s0 0 s0.
Proof.
  intros Hc. split; try done.
  - simpl. by rewrite app_nil_r.
  - rewrite Z.add_0_r, Z.mod_small; done.
  - apply Forall2_same_length_lookup_2; [done|].
    intros i d d' H1 H2. simplify_eq. apply same_but_refbit_refl.
  - intros i d d' H1 H2 Hne. congruence.
Qed.

Lemma next_hand_eq s :
  pool_inv s → next_hand s = (clockHand s + 1) mod numBufs s.
Proof.
  intros H. unfold next_hand. f_equal. apply Z.mod_small.
  pose proof (inv_numBufs _ H). pose proof (inv_hand _ H). lia.
Qed.

Lemma swept_hand_step s0 k s :
  pool_inv s → swept s0 k s →
  next_hand s = (clockHand s0 + Z.of_nat (S k)) mod numBufs s0.
Proof.
  intros H Hsw. rewrite (next_hand_eq s H), (sw_hand _ _ _ Hsw), (sw_numBufs _ _ _ Hsw).
  rewrite Zplus_mod_idemp_l. f_equal. lia.
Qed.

Lemma replicate_snoc {A} (x : A) k : replicate k x ++ [x] = replicate (S k) x.
Proof. induction k as [|k IH]; simpl; [done|]. by rewrite IH. Qed.

Lemma swept_pinned s0 k s :
  pool_inv s → swept s0 k s → swept s0 (S k) (advanced s).
Proof.
  intros H Hsw. pose proof (swept_hand_step _ _ _ H Hsw) as Hh.
  destruct Hsw as [H1 H2 H3 H4 H5 H6 H7 H8]. split; simpl; try done.
  - by rewrite H5, <- app_assoc, replicate_snoc.
  - intros i d d' Hd Hd' Hne. destruct (H8 i d d' Hd Hd' Hne) as (j & Hj & Hji).
    exists j. split; [lia|done].
Qed.

Lemma swept_refbit s0 k s d :
  pool_inv s → swept s0 k s →
  bufDescTable s !! Z.to_nat (clockHand s) = Some d →
  swept s0 (S k) (advanced (set_desc (clockHand s) (with_refbit false d) s)).
Proof.
  intros H Hsw Hd. pose proof (swept_hand_step _ _ _ H Hsw) as Hh.
  pose proof (inv_hand _ H) as Hc.
  destruct Hsw as [H1 H2 H3 H4 H5 H6 H7 H8]. split; simpl; try done.
  - by rewrite H5, <- app_assoc, replicate_snoc.
  - apply Forall2_same_length_lookup_2.
    { rewrite length_insert. by eapply Forall2_length. }
    intros i d0 d' Hd0 Hd'.
    pose proof (Forall2_lookup_l _ _ _ _ _ H7 Hd0) as (d1 & Hd1 & Hrel).
    destruct (decide (i = Z.to_nat (clockHand s))) as [->|Hne].
    + rewrite list_lookup_insert_eq in Hd' by (by eapply lookup_lt_Some).
      simplify_eq. by apply same_but_refbit_clear.
    + rewrite list_lookup_insert_ne in Hd' by done. by simplify_eq.
  - intros i d0 d' Hd0 Hd' Hne.
    destruct (decide (i = Z.to_nat (clockHand s))) as [->|Hi].
    + exists k. split; [lia|]. rewrite <- H6. lia.
    + rewrite list_lookup_insert_ne in Hd' by done.
      destruct (H8 i d0 d' Hd0 Hd' Hne) as (j & Hj & Hji).
      exists j. split; [lia|done].
Qed.

Lemma allocBuf_loop_from s0 m : ∀ k s,
  pool_inv s → swept s0 k s →
  loop_outcome s0 (k + m) (allocBuf_loop m s).
Proof.
  induction m as [|m IH]; intros k s H Hsw; simpl.
  - rewrite Nat.add_0_r. by constructor.
  - unfold bind.
    destruct (allocBuf_body_spec s H) as (d & pg & Hd & Hpg & Hcase).
    inversion Hcase as [Hv Heq|Hv Hr Heq|Hv Hr Hp Heq|Hv Hr Hp Heq].
    + eapply (lo_free s0 _ k); eauto. lia.
    + replace (k + S m)%nat with (S k + m)%nat by lia. apply IH.
      * apply pool_inv_advanced. eapply pool_inv_set_desc; eauto.
        exact (desc_ok_pin_range _ _ _ (inv_desc _ H _ _ Hd)).
      * by apply swept_refbit.
    + replace (k + S m)%nat with (S k + m)%nat by lia. apply IH.
      * by apply pool_inv_advanced.
      * by apply swept_pinned.
    + eapply (lo_victim s0 _ k); eauto. lia.
Qed.

Lemma allocBuf_loop_spec s0 m :
  pool_inv s0 → loop_outcome s0 m (allocBuf_loop m s0).
Proof.
  intros H. apply (allocBuf_loop_from s0 m 0 s0 H), swept_0, H.
Qed.

Lemma allocBuf_spec s : pool_inv s → allocBuf_outcome s (allocBuf s).
Proof.
  intros H. unfold allocBuf. run_monad.
  rewrite advanceClock_eq by (pose proof (inv_numBufs _ H); lia).
  pose proof (allocBuf_loop_spec (advanced s) (sweep_bound s) (pool_inv_advanced _ H))
    as Hloop.
  unfold sweep_bound in Hloop at 2. simpl in Hloop.
  inversion Hloop as [s1 Hsw H1 Heq|k s1 d r Hk Hsw H1 Hd Hv Hr Hb Heq
                      |k s1 d pg r Hk Hsw H1 Hd Hpg Hv Hrb Hp Hr Hb Heq];
    cbv beta iota.
  - by constructor.
  - rewrite decide_False by done. by eapply ao_free.
  - rewrite decide_False by done. rewrite evict_frame_hand.
    by eapply (ao_victim s k s1 d pg).
Qed.

(** ** Every call keeps the invariant *)

Lemma swept_pool_inv_fields s0 k s :
  swept s0 k s →
  numBufs s = numBufs s0 ∧ hashTable s = hashTable s0 ∧ disk s = disk s0.
Proof. by intros []. Qed.

(** What the callers of [allocBuf] rely on: the frame they get is free, and
    the sweep has only taken entries out of the index and left every page
    on disk. *)
Lemma allocBuf_frame s :
  pool_inv s →
  match allocBuf s with
  | Ok i s' =>
      pool_inv s' ∧ 0 ≤ i < numBufs s' ∧
      (∃ d, bufDescTable s' !! Z.to_nat i = Some d ∧ valid d = false) ∧
      (∀ k, hashTable s !! k = None → hashTable s' !! k = None) ∧
      (∀ k, is_Some (disk s !! k) → is_Some (disk s' !! k))
  | Throw e s' => pool_inv s' ∧ e = BufferExceededException
  | Undefined => False
  end.
Proof.
  intros H. pose proof (allocBuf_spec s H) as Hout.
  inversion Hout as [s1 Hsw H1 Heq|k s1 d Hk Hsw H1 Hd Hv Hb Heq
                     |k s1 d pg Hk Hsw H1 Hd Hpg Hv Hrb Hp Hb Heq].
  - done.
  - destruct (swept_pool_inv_fields _ _ _ Hsw) as (En & Eh & Ed). simpl in *.
    split; [done|]. split; [apply H1|].
    split; [eauto|]. rewrite Eh, Ed. done.
  - destruct (swept_pool_inv_fields _ _ _ Hsw) as (En & Eh & Ed).
    simpl in En, Eh, Ed.
    split; [by apply pool_inv_evict_frame|].
    split; [rewrite evict_frame_numBufs; apply H1|].
    split; [|split].
    + exists (Clear d). split; [|done]. rewrite evict_frame_table.
      apply list_lookup_insert_eq. by eapply lookup_lt_Some.
    + intros key Hkey. rewrite evict_frame_hash, Eh.
      apply lookup_delete_None. by right.
    + intros key Hkey. rewrite evict_frame_disk, Ed.
      destruct (dirty d); [|done].
      destruct (decide ((file d, page_number pg) = key)) as [->|Hne].
      * rewrite lookup_insert_eq. eauto.
      * by rewrite lookup_insert_ne.
Qed.

Lemma readPage_inv f p :
  triple True pool_inv (readPage f p) (fun _ => pool_inv) (fun _ => pool_inv).
Proof.
  intros s H. unfold readPage. run_monad.
  destruct (hashTable s !! (f, p)) as [j|] eqn:Hj.
  - destruct (inv_hash _ H _ _ _ Hj) as (Hj0 & d & Hd & Hv & Hf & Hp).
    rewrite Hd. destruct (decide (pinCnt d = INT_MAX)) as [|Hmax]; [done|].
    simpl. rewrite Hd. simpl. rewrite list_lookup_insert_eq by (by eapply lookup_lt_Some).
    pose proof (desc_ok_pin_range _ _ _ (inv_desc _ H _ _ Hd)) as Hpin.
    assert (pool_inv (set_desc j (with_pinCnt (pinCnt d + 1) d) s)) as H1.
    { eapply pool_inv_set_desc; eauto. simpl. lia. }
    eapply (pool_inv_set_desc _ j (with_pinCnt (pinCnt d + 1) d)) in H1; eauto.
    + simpl. apply list_lookup_insert_eq. by eapply lookup_lt_Some.
    + simpl. lia.
  - pose proof (allocBuf_frame s H) as Ha.
    destruct (allocBuf s) as [i s1|e s1|]; [|by destruct Ha|done].
    destruct Ha as (H1 & Hi & (d & Hd & Hv) & Hhash & Hdisk).
    unfold file_readPage. destruct (decide (f = NULL)) as [|Hf]; [done|].
    destruct (disk s1 !! (f, p)) as [bytes|] eqn:Hbytes; [|done].
    simpl. destruct (pool_inv_lookup s1 i H1) as (d' & pg & Hd' & Hpg).
    { done. }
    rewrite Hpg. simpl. rewrite Hd. simpl. rewrite (Hhash _ Hj). simpl.
    eapply (pool_inv_installed s1 _ i d f p (mkPage p bytes)); simpl; eauto.
    all: try lia. apply H1.
Qed.

Lemma unPinPage_inv f p b :
  triple False pool_inv (unPinPage f p b) (fun _ => pool_inv) (fun _ => pool_inv).
Proof.
  intros s H. unfold unPinPage. run_monad.
  destruct (hashTable s !! (f, p)) as [j|] eqn:Hj; [|done].
  destruct (inv_hash _ H _ _ _ Hj) as (Hj0 & d & Hd & Hv & Hf & Hp).
  rewrite Hd. pose proof (desc_ok_pin_range _ _ _ (inv_desc _ H _ _ Hd)) as Hpin.
  destruct (Z.leb_spec (pinCnt d) 0) as [Hle|Hgt].
  - rewrite decide_False; [done|].
    rewrite <- Hf. by apply (ok_file _ _ _ (inv_desc _ H _ _ Hd)).
  - simpl. rewrite Hd. simpl.
    assert (pool_inv (set_desc j (with_pinCnt (pinCnt d - 1) d) s)) as H1.
    { eapply pool_inv_set_desc; eauto. simpl. lia. }
    destruct b; [|done]. simpl.
    rewrite list_lookup_insert_eq by (by eapply lookup_lt_Some).
    eapply (pool_inv_set_desc _ j (with_pinCnt (pinCnt d - 1) d)) in H1; eauto.
    + simpl. apply list_lookup_insert_eq. by eapply lookup_lt_Some.
    + simpl. lia.
Qed.

Lemma corrupt_valid d : valid d = true → corrupt d = false.
Proof. intros H. unfold corrupt. by rewrite H. Qed.

Section flushFile_body_cases.
Variables (f : FilePtr) (i : FrameId) (s : State) (d : BufDesc).
Hypothesis Hd : bufDescTable s !! Z.to_nat i = Some d.

Lemma flushFile_body_corrupt :
  corrupt d = true →
  flushFile_body f i s = Throw (BadBufferException i (dirty d) false (refbit d)) s.
Proof. intros Hc. unfold flushFile_body. run_monad. by rewrite Hd, Hc. Qed.

Lemma flushFile_body_skip :
  corrupt d = false → valid d = false ∨ file d ≠ f →
  flushFile_body f i s = Ok tt s.
Proof.
  intros Hc Hskip. unfold flushFile_body. run_monad. rewrite Hd, Hc.
  destruct Hskip as [->|Hf]; [done|].
  destruct (Z.eqb_spec (file d) f); [done|]. by rewrite orb_true_r.
Qed.

Lemma flushFile_body_pinned :
  valid d = true → file d = f → f ≠ NULL → 0 < pinCnt d →
  flushFile_body f i s = Throw (PagePinnedException f (pageNo d) i) s.
Proof.
  intros Hv Hf Hnull Hp. unfold flushFile_body. run_monad.
  rewrite Hd, (corrupt_valid d Hv), Hv. simpl.
  destruct (Z.eqb_spec (file d) f); [|done]. simpl.
  destruct (Z.gtb_spec (pinCnt d) 0); [|lia].
  by rewrite decide_False.
Qed.

Lemma flushFile_body_flush pg j :
  valid d = true → file d = f → f ≠ NULL → pinCnt d ≤ 0 →
  bufPool s !! Z.to_nat i = Some pg →
  is_Some (disk s !! (file d, page_number pg)) →
  hashTable s !! (file d, pageNo d) = Some j →
  flushFile_body f i s = Ok tt (evict_frame i d pg s).
Proof.
  intros Hv Hf Hnull Hp Hpg [x Hx] Hj. unfold flushFile_body. run_monad.
  rewrite Hd, (corrupt_valid d Hv), Hv. simpl.
  destruct (Z.eqb_spec (file d) f); [|done]. simpl.
  destruct (Z.gtb_spec (pinCnt d) 0); [lia|].
  unfold evict_frame, write_back. destruct (dirty d) eqn:Hdirty; simpl.
  - rewrite Hpg. unfold file_writePage. rewrite decide_False by congruence.
    rewrite Hx. simpl. rewrite Hj. simpl. by rewrite Hd.
  - rewrite Hj. simpl. by rewrite Hd.
Qed.
End flushFile_body_cases.

Lemma flushFile_body_spec f i s :
  pool_inv s → 0 ≤ i < numBufs s →
  ∃ d pg, bufDescTable s !! Z.to_nat i = Some d ∧
          bufPool s !! Z.to_nat i = Some pg ∧
          flush_case f i s d pg (flushFile_body f i s).
Proof.
  intros H Hi. destruct (pool_inv_lookup s i H Hi) as (d & pg & Hd & Hpg).
  exists d, pg. split; [done|]. split; [done|].
  destruct (inv_desc _ H _ _ Hd) as [Hpin Hfree Hfile Hhash Hpage Hdisk].
  destruct (valid d) eqn:Hv.
  - destruct (decide (file d = f)) as [Hf|Hf].
    + assert (f ≠ NULL) by (rewrite <- Hf; auto).
      destruct (decide (0 < pinCnt d)) as [Hp|Hp].
      * rewrite (flushFile_body_pinned f i s d) by done. by constructor.
      * destruct (Hpage eq_refl) as (pg' & Hpg' & Hnum).
        assert (pg' = pg) as -> by congruence.
        rewrite (flushFile_body_flush f i s d Hd pg (Z.of_nat (Z.to_nat i)));
          auto; try lia.
        -- constructor; auto. lia.
        -- rewrite Hnum. auto.
    + rewrite (flushFile_body_skip f i s d); auto.
      * constructor. by right.
      * by apply corrupt_valid.
  - rewrite (flushFile_body_skip f i s d); auto.
    + constructor. by left.
    + by rewrite (Hfree eq_refl).
Qed.

Lemma flushFile_inv f :
  triple False pool_inv (flushFile f) (fun _ => pool_inv) (fun _ => pool_inv).
Proof.
  intros s H. unfold flushFile. run_monad.
  assert (∀ n i, 0 ≤ i → i + Z.of_nat n ≤ numBufs s →
    triple False (fun s' => pool_inv s' ∧ numBufs s' = numBufs s)
      (flushFile_loop f i n)
      (fun _ s' => pool_inv s' ∧ numBufs s' = numBufs s)
      (fun _ => pool_inv)) as Hloop.
  { induction n as [|n IH]; intros i Hi Hn s0 [H0 En]; simpl; [done|].
    unfold bind.
    destruct (flushFile_body_spec f i s0 H0) as (d & pg & Hd & Hpg & Hcase); [lia|].
    inversion Hcase as [Hskip Heq|Hv Hf Hp Heq|Hv Hf Hp Heq].
    - apply (IH (i + 1)); [lia|lia|done].
    - done.
    - apply (IH (i + 1)); [lia|lia|]. split.
      + by apply pool_inv_evict_frame.
      + by rewrite evict_frame_numBufs. }
  specialize (Hloop (Z.to_nat (numBufs s)) 0 (Z.le_refl 0)).
  pose proof (inv_numBufs _ H).
  specialize (Hloop ltac:(lia) s (conj H eq_refl)).
  destruct (flushFile_loop f 0 (Z.to_nat (numBufs s)) s); try done. apply Hloop.
Qed.

(** No page of file [f] has a number above [last_page f]. *)
Lemma last_page_bound (f : FilePtr) (d : gmap (Z * Z) string) :
  0 ≤ last_page f d ∧ ∀ p, is_Some (d !! (f, p)) → p ≤ last_page f d.
Proof.
  unfold last_page.
  apply (map_fold_weak_ind
           (fun r (m : gmap (Z * Z) string) =>
              0 ≤ r ∧ ∀ p, is_Some (m !! (f, p)) → p ≤ r)).
  - split; [done|]. intros p [x Hx]. by rewrite lookup_empty in Hx.
  - intros [f' p'] x m r Hnone [Hr IH]. simpl.
    destruct (decide (f' = f)) as [->|Hne].
    + split; [lia|]. intros p Hp.
      destruct (decide (p' = p)) as [->|Hpp]; [lia|].
      rewrite lookup_insert_ne in Hp by congruence. specialize (IH p Hp). lia.
    + split; [done|]. intros p Hp.
      rewrite lookup_insert_ne in Hp by congruence. auto.
Qed.

Lemma last_page_fresh (f : FilePtr) (d : gmap (Z * Z) string) :
  d !! (f, last_page f d + 1) = None.
Proof.
  destruct (d !! (f, last_page f d + 1)) eqn:E; [|done].
  destruct (last_page_bound f d) as [_ H].
  specialize (H (last_page f d + 1)). rewrite E in H.
  specialize (H (mk_is_Some _ _ eq_refl)). lia.
Qed.

(** Under the invariant the index only holds pages that are on disk. *)
Lemma pool_inv_hash_disk s k :
  pool_inv s → is_Some (hashTable s !! k) → is_Some (disk s !! k).
Proof.
  intros H [j Hj]. destruct k as [f p].
  destruct (inv_hash _ H _ _ _ Hj) as (_ & d & Hd & Hv & <- & <-).
  by apply (ok_disk _ _ _ (inv_desc _ H _ _ Hd)).
Qed.

Lemma allocPage_inv f :
  triple True pool_inv (allocPage f) (fun _ => pool_inv) (fun _ => pool_inv).
Proof.
  intros s H. unfold allocPage. unfold bind at 1. unfold file_allocatePage.
  destruct (decide (f = NULL)) as [|Hf]; [done|].
  set (p := last_page f (disk s) + 1).
  set (s0 := emit (EvAllocatePage f p) (with_disk (<[(f, p) := ""]> (disk s)) s)).
  assert (pool_inv s0) as H0.
  { eapply pool_inv_frame; eauto; simpl; [apply H|].
    intros k _ [x Hx]. destruct (decide ((f, p) = k)) as [<-|Hne].
    - rewrite lookup_insert_eq. eauto.
    - rewrite lookup_insert_ne by done. eauto. }
  assert (hashTable s0 !! (f, p) = None) as Hnone.
  { simpl. destruct (hashTable s !! (f, p)) eqn:E; [|done].
    destruct (pool_inv_hash_disk s (f, p) H) as [x Hx]; [by rewrite E|].
    unfold p in Hx. by rewrite last_page_fresh in Hx. }
  assert (is_Some (disk s0 !! (f, p))) as Hnew.
  { simpl. rewrite lookup_insert_eq. eauto. }
  unfold bind at 1. pose proof (allocBuf_frame s0 H0) as Ha.
  destruct (allocBuf s0) as [i s1|e s1|]; [|by destruct Ha|done].
  destruct Ha as (H1 & Hi & (d & Hd & Hv) & Hhash & Hdisk).
  destruct (pool_inv_lookup s1 i H1 Hi) as (d' & pg & Hd' & Hpg).
  run_monad. rewrite (Hhash _ Hnone). simpl. rewrite Hd. simpl. rewrite Hpg. simpl.
  eapply (pool_inv_installed s1 _ i d f p (mkPage p "")); simpl; eauto.
  all: try lia. apply H1.
Qed.

Lemma disposePage_inv f p :
  triple True pool_inv (disposePage f p) (fun _ => pool_inv) (fun _ => pool_inv).
Proof.
  intros s H. unfold disposePage. unfold bind at 1. unfold file_deletePage.
  destruct (decide (f = NULL)) as [|Hf]; [done|].
  destruct (disk s !! (f, p)) as [x|] eqn:Hx; [|done].
  run_monad. destruct (hashTable s !! (f, p)) as [j|] eqn:Hj; simpl.
  - destruct (inv_hash _ H _ _ _ Hj) as (Hj0 & d & Hd & Hv & Ef & Ep).
    rewrite Hj. simpl. rewrite Hd. simpl.
    eapply (pool_inv_evicted s _ j d); simpl; eauto.
    + by rewrite Ef, Ep.
    + apply H.
    + intros k Hk. rewrite Ef, Ep in Hk. by rewrite lookup_delete_ne.
  - eapply pool_inv_frame; eauto; simpl; [apply H|].
    intros k [j Hk] Hd. rewrite lookup_delete_ne; [done|]. congruence.
Qed.

Lemma writeHandle_inv i bytes :
  triple True pool_inv (writeHandle i bytes) (fun _ => pool_inv) (fun _ => pool_inv).
Proof.
  intros s H. unfold writeHandle. run_monad.
  destruct (bufPool s !! Z.to_nat i) as [pg|] eqn:Hpg; [|done]. simpl.
  rewrite Hpg. by eapply (pool_inv_set_page s _ i pg bytes).
Qed.

Lemma run_inv o :
  triple True pool_inv (run o) (fun _ => pool_inv) (fun _ => pool_inv).
Proof.
  destruct o as [f p|f p b|f|f|f p|i bytes]; simpl.
  - eapply triple_bind; [apply readPage_inv|]. intros a. by apply triple_ret.
  - apply triple_total_partial, unPinPage_inv.
  - apply triple_total_partial, flushFile_inv.
  - eapply triple_bind; [apply allocPage_inv|]. intros a. by apply triple_ret.
  - apply disposePage_inv.
  - apply writeHandle_inv.
Qed.

Lemma BufMgr_inv bufs files : 0 < bufs < UINT32_MOD → pool_inv (BufMgr bufs files).
Proof.
  intros Hb. split; simpl.
  - done.
  - rewrite length_fmap, length_seqZ. lia.
  - rewrite length_replicate. lia.
  - rewrite Z.mod_small by lia. lia.
  - intros i d Hi. apply list_lookup_fmap_Some in Hi as (j & -> & Hj).
    split; simpl; try done; unfold INT_MAX; lia.
  - intros f p j Hj. by rewrite lookup_empty in Hj.
Qed.

Lemma reachable_inv s : reachable s → pool_inv s.
Proof.
  induction 1 as [bufs files Hb|o s s' _ IH Hrun].
  - by apply BufMgr_inv.
  - pose proof (run_inv o s IH) as Ho.
    destruct (run o s); simpl in Hrun; by simplify_eq.
Qed.

Lemma run_all_reachable os : ∀ s s',
  reachable s → run_all os s = Some s' → reachable s'.
Proof.
  induction os as [|o os IH]; intros s s' Hs Hrun; simpl in Hrun.
  - by simplify_eq.
  - destruct (state_after (run o s)) as [s1|] eqn:E; [|done].
    apply (IH s1); [|done]. by eapply reach_run.
Qed.

Lemma ex_full_reachable : reachable ex_full.
Proof.
  apply (run_all_reachable ex_calls_full (BufMgr 3 files0)).
  - apply reach_new. unfold UINT32_MOD. lia.
  - by vm_compute.
Qed.

(** ** Releases *)

(** C8.  Releasing a pair that is not in the index returns normally and
    leaves the whole state as it was; [unPinPage] throws only when the pair
    is in the index and the pin count of its frame is not positive, which
    under the pool invariant means zero, and then the exception is
    [PageNotPinnedException] and nothing has changed. *)
Theorem unPinPage_absent_is_noop f p b s :
  (hashTable s !! (f, p) = None → unPinPage f p b s = Ok tt s) ∧
  (∀ e s', unPinPage f p b s = Throw e s' →
     ∃ i d, hashTable s !! (f, p) = Some i ∧
            bufDescTable s !! Z.to_nat i = Some d ∧
            pinCnt d ≤ 0 ∧ (pool_inv s → pinCnt d = 0) ∧
            e = PageNotPinnedException f p i ∧ s' = s).
Proof.
  split.
  - intros Hnone. unfold unPinPage. run_monad. by rewrite Hnone.
  - intros e s'. unfold unPinPage. run_monad.
    destruct (hashTable s !! (f, p)) as [i|] eqn:Hi; [|done].
    destruct (bufDescTable s !! Z.to_nat i) as [d|] eqn:Hd; [|done].
    destruct (Z.leb_spec (pinCnt d) 0) as [Hle|Hgt].
    + destruct (decide (f = NULL)); [done|]. intros [= <- <-].
      exists i, d. repeat split; try done.
      intros H. pose proof (desc_ok_pin_range _ _ _ (inv_desc _ H _ _ Hd)). lia.
    + simpl. rewrite Hd. simpl. destruct b; [|done]. simpl.
      by rewrite list_lookup_insert_eq by (by eapply lookup_lt_Some).
Qed.

Lemma unPinPage_absent_is_noop_witness :
  unPinPage 7 9 true ex_full = Ok tt ex_full ∧
  ∃ i d, hashTable ex_released !! (7, 1) = Some i ∧
         bufDescTable ex_released !! Z.to_nat i = Some d ∧
         pinCnt d ≤ 0 ∧ (pool_inv ex_released → pinCnt d = 0) ∧
         PageNotPinnedException 7 1 0 = PageNotPinnedException 7 1 i ∧
         ex_released = ex_released.
Proof.
  split.
  - apply (proj1 (unPinPage_absent_is_noop 7 9 true ex_full)).
    by vm_compute.
  - apply (proj2 (unPinPage_absent_is_noop 7 1 true ex_released)
             (PageNotPinnedException 7 1 0) ex_released).
    by vm_compute.
Defined.

Lemma ex_released_reachable : reachable ex_released.
Proof.
  apply (run_all_reachable ex_calls_released (BufMgr 3 files0)).
  - apply reach_new. unfold UINT32_MOD. lia.
  - by vm_compute.
Qed.

(** ** [flushFile] and corrupt descriptors *)

(** A run of the body of the loop of [flushFile] that returns has touched
    no descriptor but the one at its index. *)
Lemma flushFile_body_others f i s s' :
  flushFile_body f i s = Ok tt s' →
  numBufs s' = numBufs s ∧
  ∀ k, k ≠ Z.to_nat i → bufDescTable s' !! k = bufDescTable s !! k.
Proof.
  unfold flushFile_body, file_writePage. run_monad. intros Hrun.
  repeat (case_match; simplify_eq; simpl in *; try done).
  all: split; [done|]; intros k Hk; by rewrite list_lookup_insert_ne.
Qed.

(** C7.  A descriptor that is not valid and has a field off its default
    makes the body of the loop of [flushFile] throw [BadBufferException]
    at its index, whatever the file and the rest of the state; so the loop
    throws it as soon as it gets there, and a call of [flushFile] on a pool
    with such a frame never returns normally. *)
Theorem flushFile_reports_corrupt f j s d :
  bufDescTable s !! Z.to_nat j = Some d →
  corrupt d = true →
  flushFile_body f j s = Throw (BadBufferException j (dirty d) false (refbit d)) s ∧
  (∀ n, flushFile_loop f j (S n) s =
          Throw (BadBufferException j (dirty d) false (refbit d)) s) ∧
  (0 ≤ j < numBufs s → ∀ s', flushFile f s ≠ Ok tt s').
Proof.
  intros Hd Hc.
  pose proof (flushFile_body_corrupt f j s d Hd Hc) as Hbody.
  split; [done|]. split.
  - intros n. simpl. unfold bind. by rewrite Hbody.
  - intros Hj s' Hrun. unfold flushFile in Hrun. revert Hrun. run_monad.
    assert (∀ n i s0, 0 ≤ i → i ≤ j < i + Z.of_nat n →
              bufDescTable s0 !! Z.to_nat j = Some d →
              flushFile_loop f i n s0 ≠ Ok tt s') as Hloop.
    { induction n as [|n IH]; intros i s0 Hi Hij Hd0; [lia|]. simpl. unfold bind.
      destruct (decide (i = j)) as [->|Hne].
      - by rewrite (flushFile_body_corrupt f j s0 d Hd0 Hc).
      - destruct (flushFile_body f i s0) as [[] s1|e s1|] eqn:Hb; [|done..].
        apply (IH (i + 1) s1); [lia|lia|].
        destruct (flushFile_body_others f i s0 s1 Hb) as [_ Hk].
        rewrite Hk; [done|lia]. }
    apply (Hloop (Z.to_nat (numBufs s)) 0 s); [lia|lia|done].
Qed.

Lemma flushFile_reports_corrupt_witness :
  flushFile_body 7 1 ex_corrupt = Throw (BadBufferException 1 true false false) ex_corrupt ∧
  (∀ n, flushFile_loop 7 1 (S n) ex_corrupt =
          Throw (BadBufferException 1 true false false) ex_corrupt) ∧
  (∀ s', flushFile 7 ex_corrupt ≠ Ok tt s').
Proof.
  destruct (flushFile_reports_corrupt 7 1 ex_corrupt
              (mkBufDesc NULL INVALID_NUMBER 1 2 true false false)
              eq_refl eq_refl) as (Hbody & Hloop & Hcall).
  split; [exact Hbody|]. split; [exact Hloop|].
  apply Hcall. simpl. lia.
Defined.

(** ** Victim selection *)

(** Two steps of a walk around [n] positions that land on the same
    position are at least [n] steps apart. *)
Lemma same_position_full_turn (n a : Z) (j k : nat) :
  0 < n → (j < k)%nat →
  (a + Z.of_nat j) mod n = (a + Z.of_nat k) mod n →
  n ≤ Z.of_nat k - Z.of_nat j.
Proof.
  intros Hn Hjk Heq.
  assert ((Z.of_nat k - Z.of_nat j) mod n = 0) as Hmod.
  { replace (Z.of_nat k - Z.of_nat j) with ((a + Z.of_nat k) - (a + Z.of_nat j)) by lia.
    rewrite Zminus_mod, Heq, Z.sub_diag. by apply Z.mod_0_l, Z.neq_sym, Z.lt_neq. }
  apply Z.mod_divide in Hmod; [|lia].
  apply Z.divide_pos_le in Hmod; lia.
Qed.

Lemma file_allocatePage_eq f s :
  f ≠ NULL →
  file_allocatePage f s = Ok (mkPage (last_page f (disk s) + 1) "") (allocated f s).
Proof. intros Hf. unfold file_allocatePage. by rewrite decide_False. Qed.

Lemma pool_inv_allocated f s : pool_inv s → pool_inv (allocated f s).
Proof.
  intros H. eapply pool_inv_frame; eauto; simpl; [apply H|].
  intros k _ [x Hx].
  destruct (decide ((f, last_page f (disk s) + 1) = k)) as [<-|Hne].
  - rewrite lookup_insert_eq. eauto.
  - rewrite lookup_insert_ne by done. eauto.
Qed.

(** Where the two callers of [allocBuf] start the sweep: [readPage], on
    a page that is not resident, in the state of the call; [allocPage] in
    the state that [file->allocatePage()] has made of it.  From a reachable
    state both satisfy the pool invariant. *)
Lemma sweep_starts_in_pool_inv s :
  reachable s →
  (pool_inv s ∧
   ∀ f p, hashTable s !! (f, p) = None →
     readPage f p s
     = (frameNo <- allocBuf ;;
        pg <- file_readPage f p ;;
        setPage frameNo pg ;;
        descSet frameNo f p ;;
        hash_insert f p frameNo ;;
        ret frameNo) s) ∧
  (∀ f, pool_inv (allocated f s) ∧
     (f ≠ NULL →
      allocPage f s
      = (frame <- allocBuf ;;
         hash_insert f (last_page f (disk s) + 1) frame ;;
         descSet frame f (last_page f (disk s) + 1) ;;
         setPage frame (mkPage (last_page f (disk s) + 1) "") ;;
         ret (last_page f (disk s) + 1, frame)) (allocated f s))).
Proof.
  intros Hr. pose proof (reachable_inv s Hr) as H. split; [split; [done|]|].
  - intros f p Hnone. unfold readPage. unfold bind at 1.
    unfold hash_lookup, gets. by rewrite Hnone.
  - intros f. split; [by apply pool_inv_allocated|].
    intros Hf. unfold allocPage. unfold bind at 1.
    by rewrite file_allocatePage_eq.
Qed.

(** C1.  In a state that satisfies the pool invariant, let [allocBuf] hand
    out a frame [i] that was occupied when it was called.  These are the
    states in which a sweep starts: [readPage] starts it in a reachable
    state, [allocPage] in the state that [file->allocatePage()] has made of
    one ([sweep_starts_in_pool_inv]).  Then the body of the loop chose the
    frame in a state [s1], reached after [k] runs that ended in [continue],
    in which its descriptor had [pinCnt = 0] and [refbit = false]; its pin
    count was already zero at the call; and if its reference bit was set at
    the call, then the bit was cleared on an earlier visit and the hand
    went around the whole pool before the frame was chosen
    ([numBufs <= k]). *)
Theorem allocBuf_victim_unpinned_unreferenced s i s' d0 :
  pool_inv s →
  allocBuf s = Ok i s' →
  bufDescTable s !! Z.to_nat i = Some d0 →
  valid d0 = true →
  ∃ (k : nat) s1 d pg,
    swept (advanced s) k s1 ∧ clockHand s1 = i ∧
    bufDescTable s1 !! Z.to_nat i = Some d ∧
    bufPool s1 !! Z.to_nat i = Some pg ∧
    valid d = true ∧ pinCnt d = 0 ∧ refbit d = false ∧
    allocBuf_body s1 = Ok Break s' ∧
    s' = evict_frame i d pg s1 ∧
    pinCnt d0 = 0 ∧
    (refbit d0 = true → d = with_refbit false d0 ∧ numBufs s ≤ Z.of_nat k).
Proof.
  intros Hs Hrun Hd0 Hv0.
  pose proof (allocBuf_spec s Hs) as Hout. rewrite Hrun in Hout.
  inversion Hout as [|k s1 d Hk Hsw H1 Hd Hv Hb Hi
                     |k s1 d pg Hk Hsw H1 Hd Hpg Hv Hrb Hp Hb Hi].
  - (* a free frame: it was free at the call as well *)
    subst. pose proof (sw_table _ _ _ Hsw) as Htab. simpl in Htab.
    destruct (Forall2_lookup_l _ _ _ _ _ Htab Hd0) as (d' & Hd' & Hrel).
    apply same_but_refbit_fields in Hrel as (Hvalid & _). congruence.
  - subst i s'. exists k, s1, d, pg.
    pose proof (sw_table _ _ _ Hsw) as Htab. simpl in Htab.
    destruct (Forall2_lookup_l _ _ _ _ _ Htab Hd0) as (d' & Hd' & Hrel).
    assert (d' = d) as -> by congruence.
    pose proof (same_but_refbit_fields _ _ Hrel) as (_ & Hpin & _).
    do 9 (split; [done|]). split; [congruence|].
    intros Hr0. split.
    + destruct Hrel as [->| ->]; [congruence|done].
    + destruct (sw_visited _ _ _ Hsw (Z.to_nat (clockHand s1)) d0 d) as (j & Hj & Hji);
        [done|done|congruence|].
      pose proof (sw_hand _ _ _ Hsw) as Hhand. simpl in Hhand, Hji.
      pose proof (inv_hand _ H1) as Hrange. pose proof (inv_numBufs _ Hs) as Hn.
      assert ((next_hand s + Z.of_nat j) mod numBufs s
              = (next_hand s + Z.of_nat k) mod numBufs s) as Heq by lia.
      pose proof (same_position_full_turn _ _ _ _ (proj1 Hn) Hj Heq). lia.
Qed.

Lemma ex_pressure_reachable : reachable ex_pressure.
Proof.
  apply (run_all_reachable ex_calls_pressure (BufMgr 3 files0)).
  - apply reach_new. unfold UINT32_MOD. lia.
  - by vm_compute.
Qed.

Lemma allocBuf_victim_unpinned_unreferenced_witness :
  ∃ (k : nat) s1 d pg,
    swept (advanced ex_pressure) k s1 ∧ clockHand s1 = 0 ∧
    bufDescTable s1 !! Z.to_nat 0 = Some d ∧
    bufPool s1 !! Z.to_nat 0 = Some pg ∧
    valid d = true ∧ pinCnt d = 0 ∧ refbit d = false ∧
    allocBuf_body s1 = Ok Break ex_pressure_evicted ∧
    ex_pressure_evicted = evict_frame 0 d pg s1 ∧
    pinCnt (mkBufDesc 7 1 0 0 true true true) = 0 ∧
    (refbit (mkBufDesc 7 1 0 0 true true true) = true →
     d = with_refbit false (mkBufDesc 7 1 0 0 true true true) ∧
     numBufs ex_pressure ≤ Z.of_nat k).
Proof.
  apply (allocBuf_victim_unpinned_unreferenced ex_pressure 0 ex_pressure_evicted
           (mkBufDesc 7 1 0 0 true true true)).
  - apply reachable_inv, ex_pressure_reachable.
  - by vm_compute.
  - by vm_compute.
  - reflexivity.
Defined.

(** ** Exhaustion *)

(** When [allocBuf] throws [BufferExceededException], the sweep has used
    its whole bound and has done nothing but clear reference bits. *)
Lemma allocBuf_exhausted_swept s s' :
  pool_inv s →
  allocBuf s = Throw BufferExceededException s' →
  swept (advanced s) (sweep_bound s) s' ∧ pool_inv s'.
Proof.
  intros H Hrun. pose proof (allocBuf_spec s H) as Hout. rewrite Hrun in Hout.
  by inversion Hout.
Qed.

Lemma allocBuf_all_pinned s :
  pool_inv s → all_pinned s →
  ∃ s', allocBuf s = Throw BufferExceededException s'.
Proof.
  intros H Hall. pose proof (allocBuf_spec s H) as Hout.
  assert (∀ k s1 d, swept (advanced s) k s1 →
            bufDescTable s1 !! Z.to_nat (clockHand s1) = Some d →
            valid d = true ∧ 0 < pinCnt d) as Hpinned.
  { intros k s1 d Hsw Hd. pose proof (sw_table _ _ _ Hsw) as Htab. simpl in Htab.
    destruct (Forall2_lookup_r _ _ _ _ _ Htab Hd) as (d0 & Hd0 & Hrel).
    apply same_but_refbit_fields in Hrel as (-> & -> & _).
    unfold all_pinned in Hall. rewrite Forall_lookup in Hall. eauto. }
  inversion Hout as [s1 Hsw H1 Heq|k s1 d Hk Hsw H1 Hd Hv Hb Heq
                     |k s1 d pg Hk Hsw H1 Hd Hpg Hv Hrb Hp Hb Heq].
  - eauto.
  - destruct (Hpinned _ _ _ Hsw Hd). congruence.
  - destruct (Hpinned _ _ _ Hsw Hd). lia.
Qed.

(** C2, as amended.  With every frame occupied and pinned, fetching a page
    that is not resident throws [BufferExceededException]; the failed fetch
    leaves the index, the frames' pages and the files as they were, and
    each descriptor is as it was except that its reference bit may have
    been cleared. *)
Theorem readPage_pool_exhausted f p s :
  pool_inv s → all_pinned s →
  hashTable s !! (f, p) = None →
  ∃ s', readPage f p s = Throw BufferExceededException s' ∧
        Forall2 same_but_refbit (bufDescTable s) (bufDescTable s') ∧
        hashTable s' = hashTable s ∧ bufPool s' = bufPool s ∧
        disk s' = disk s ∧ numBufs s' = numBufs s.
Proof.
  intros H Hall Hnone. destruct (allocBuf_all_pinned s H Hall) as (s' & Hrun).
  exists s'. destruct (allocBuf_exhausted_swept s s' H Hrun) as [[] _].
  split; [|done]. unfold readPage. run_monad. by rewrite Hnone, Hrun.
Qed.

Lemma ex_full_all_pinned : all_pinned ex_full.
Proof. vm_compute. repeat constructor. Qed.

Lemma readPage_pool_exhausted_witness :
  ∃ s', readPage 7 4 ex_full = Throw BufferExceededException s' ∧
        Forall2 same_but_refbit (bufDescTable ex_full) (bufDescTable s') ∧
        hashTable s' = hashTable ex_full ∧ bufPool s' = bufPool ex_full ∧
        disk s' = disk ex_full ∧ numBufs s' = numBufs ex_full.
Proof.
  apply (readPage_pool_exhausted 7 4 ex_full).
  - apply reachable_inv, ex_full_reachable.
  - apply ex_full_all_pinned.
  - by vm_compute.
Defined.

(** C2 as it was stated fails: in the pool with pages 1, 2 and 3 pinned,
    the fetch of page 4 throws and yet changes all three descriptors (their
    reference bits go from set to cleared). *)
Lemma readPage_pool_exhausted_mutates :
  reachable ex_full ∧ all_pinned ex_full ∧ hashTable ex_full !! (7, 4) = None ∧
  readPage 7 4 ex_full = Throw BufferExceededException ex_full_failed ∧
  bufDescTable ex_full = [mkBufDesc 7 1 0 1 false true true;
                          mkBufDesc 7 2 1 1 false true true;
                          mkBufDesc 7 3 2 1 false true true] ∧
  bufDescTable ex_full_failed = [mkBufDesc 7 1 0 1 false true false;
                                 mkBufDesc 7 2 1 1 false true false;
                                 mkBufDesc 7 3 2 1 false true false] ∧
  bufDescTable ex_full_failed ≠ bufDescTable ex_full.
Proof.
  split; [apply ex_full_reachable|]. split; [apply ex_full_all_pinned|].
  do 4 (split; [by vm_compute|]). by vm_compute.
Qed.

(** ** Termination of the sweep *)

Lemma sweep_bound_le s : 0 < numBufs s → Z.of_nat (sweep_bound s) ≤ 2 * numBufs s.
Proof.
  intros Hn. unfold sweep_bound, UINT32_MOD.
  rewrite Z2Nat.id by (apply Z.mod_pos_bound; lia).
  apply Z.mod_le; lia.
Qed.

(** C6, as amended.  Under the pool invariant [allocBuf] always ends, either
    returning a frame index within the pool, which is where the clock hand
    stays, or throwing [BufferExceededException].  It moves the hand once
    before the sweep and then once per sweep step that ends in [continue];
    there are [k] of these with [k <= 2 * numBufs], so [k + 1] moves in
    all, and nothing it does afterwards moves the hand.  When a frame is
    returned [k] is below the bound of the sweep, when the exception is
    thrown [k] is that bound.  Each move takes the hand to the next
    position modulo [numBufs]. *)
Theorem allocBuf_terminates s :
  pool_inv s →
  (advanceClock s = Ok tt (advanced s) ∧
   clockHand (advanced s) = (clockHand s + 1) mod numBufs s) ∧
  ∃ (k : nat) evs s',
    Z.of_nat k ≤ 2 * numBufs s ∧
    trace s' = trace s ++ EvAdvanceClock :: replicate k EvAdvanceClock ++ evs ∧
    (EvAdvanceClock ∉ evs) ∧
    0 ≤ clockHand s' < numBufs s ∧
    ((allocBuf s = Ok (clockHand s') s' ∧ (k < sweep_bound s)%nat) ∨
     (allocBuf s = Throw BufferExceededException s' ∧ k = sweep_bound s)).
Proof.
  intros H. pose proof (inv_numBufs _ H) as Hn. split.
  { split; [apply advanceClock_eq; lia|]. simpl. by apply next_hand_eq. }
  pose proof (sweep_bound_le s (proj1 Hn)) as Hbound.
  pose proof (allocBuf_spec s H) as Hout.
  inversion Hout as [s1 Hsw H1 Heq|k s1 d Hk Hsw H1 Hd Hv Hb Heq
                     |k s1 d pg Hk Hsw H1 Hd Hpg Hv Hrb Hp Hb Heq].
  - exists (sweep_bound s), [], s1. pose proof (inv_hand _ H1) as Hh.
    destruct Hsw as [En _ _ _ Et _ _ _]. simpl in En, Et.
    split; [done|]. split.
    { by rewrite Et, app_nil_r, <- app_assoc. }
    split; [apply not_elem_of_nil|]. split; [lia|]. by right.
  - exists k, [], s1. pose proof (inv_hand _ H1) as Hh.
    destruct Hsw as [En _ _ _ Et _ _ _]. simpl in En, Et.
    split; [lia|]. split.
    { by rewrite Et, app_nil_r, <- app_assoc. }
    split; [apply not_elem_of_nil|]. split; [lia|]. left. by split.
  - exists k, ((if dirty d then [EvWritePage (file d) pg] else []) ++ [EvClear (clockHand s1)]),
      (evict_frame (clockHand s1) d pg s1).
    pose proof (inv_hand _ H1) as Hh.
    destruct Hsw as [En _ _ _ Et _ _ _]. simpl in En, Et.
    split; [lia|]. split.
    { rewrite evict_frame_trace, Et, <- !app_assoc. done. }
    split.
    { destruct (dirty d); simpl; intros Hin;
        repeat (apply elem_of_cons in Hin as [Hin|Hin]; [done|]);
        by apply elem_of_nil in Hin. }
    rewrite evict_frame_hand. split; [lia|]. left. by split.
Qed.

Lemma allocBuf_terminates_witness :
  (advanceClock ex_full = Ok tt (advanced ex_full) ∧
   clockHand (advanced ex_full) = (clockHand ex_full + 1) mod numBufs ex_full) ∧
  ∃ (k : nat) evs s',
    Z.of_nat k ≤ 2 * numBufs ex_full ∧
    trace s' = trace ex_full ++ EvAdvanceClock :: replicate k EvAdvanceClock ++ evs ∧
    (EvAdvanceClock ∉ evs) ∧
    0 ≤ clockHand s' < numBufs ex_full ∧
    ((allocBuf ex_full = Ok (clockHand s') s' ∧ (k < sweep_bound ex_full)%nat) ∨
     (allocBuf ex_full = Throw BufferExceededException s' ∧ k = sweep_bound ex_full)).
Proof.
  apply (allocBuf_terminates ex_full).
  apply reachable_inv, ex_full_reachable.
Defined.

(** C6 as it was stated fails: in a pool of one frame whose page is pinned,
    [allocBuf] throws after moving the hand three times, one more than
    [2 * numBufs]. *)
Lemma allocBuf_three_advances_for_one_frame :
  run_all ex_calls_one (BufMgr 1 files0) = Some ex_one ∧
  numBufs ex_one = 1 ∧
  allocBuf ex_one = Throw BufferExceededException ex_one_failed ∧
  trace ex_one_failed =
    trace ex_one ++ [EvAdvanceClock; EvAdvanceClock; EvAdvanceClock] ∧
  ¬ (Z.of_nat (length [EvAdvanceClock; EvAdvanceClock; EvAdvanceClock])
     ≤ 2 * numBufs ex_one).
Proof.
  do 4 (split; [by vm_compute|]). by vm_compute.
Qed.

(** ** [allocPage] when the pool is exhausted *)

(** C10.  [allocPage] asks the file for its new page first, and only then
    looks for a frame.  If [allocBuf], run in the state that the allocation
    left, throws [BufferExceededException], then [allocPage] throws it too,
    in a state where the new page [p] is on disk (it was not before) while
    the index is as it was and holds no entry for [p], no valid descriptor
    names [p], and the descriptors are as they were but for cleared
    reference bits.  The trace shows the allocation before every move of
    the clock hand. *)
Theorem allocPage_exhausted_leaves_page_on_disk f s s' :
  pool_inv s → f ≠ NULL →
  allocBuf (allocated f s) = Throw BufferExceededException s' →
  let p := last_page f (disk s) + 1 in
  allocPage f s = Throw BufferExceededException s' ∧
  disk s !! (f, p) = None ∧
  disk s' !! (f, p) = Some "" ∧
  hashTable s' = hashTable s ∧
  hashTable s' !! (f, p) = None ∧
  (∀ i d, bufDescTable s' !! i = Some d → valid d = true →
          (file d, pageNo d) ≠ (f, p)) ∧
  Forall2 same_but_refbit (bufDescTable s) (bufDescTable s') ∧
  trace s' = trace s ++ EvAllocatePage f p
                     :: replicate (S (sweep_bound s)) EvAdvanceClock.
Proof.
  intros H Hf Hrun p.
  pose proof (pool_inv_allocated f s H) as H0.
  destruct (allocBuf_exhausted_swept _ _ H0 Hrun) as [Hsw H1].
  destruct Hsw as [En Ep Eh Ed Et Ec Etab _]. simpl in En, Ep, Eh, Ed, Et, Etab.
  assert (hashTable s !! (f, p) = None) as Hnone.
  { destruct (hashTable s !! (f, p)) eqn:E; [|done].
    destruct (pool_inv_hash_disk s (f, p) H) as [x Hx]; [by rewrite E|].
    unfold p in Hx. by rewrite last_page_fresh in Hx. }
  split.
  { unfold allocPage. unfold bind at 1. rewrite file_allocatePage_eq by done.
    unfold bind at 1. by rewrite Hrun. }
  split; [apply last_page_fresh|].
  split; [rewrite Ed; apply lookup_insert_eq|].
  split; [done|]. split; [by rewrite Eh|].
  split.
  { intros i d Hd Hv Hkey.
    pose proof (ok_hash _ _ _ (inv_desc _ H1 _ _ Hd) Hv) as Hh.
    rewrite Hkey, Eh, Hnone in Hh. done. }
  split; [done|].
  rewrite Et. unfold sweep_bound. simpl. by rewrite <- !app_assoc.
Qed.

Lemma allocPage_exhausted_leaves_page_on_disk_witness :
  let p := last_page 7 (disk ex_full) + 1 in
  allocPage 7 ex_full = Throw BufferExceededException ex_full_alloc_failed ∧
  disk ex_full !! (7, p) = None ∧
  disk ex_full_alloc_failed !! (7, p) = Some "" ∧
  hashTable ex_full_alloc_failed = hashTable ex_full ∧
  hashTable ex_full_alloc_failed !! (7, p) = None ∧
  (∀ i d, bufDescTable ex_full_alloc_failed !! i = Some d → valid d = true →
          (file d, pageNo d) ≠ (7, p)) ∧
  Forall2 same_but_refbit (bufDescTable ex_full) (bufDescTable ex_full_alloc_failed) ∧
  trace ex_full_alloc_failed =
    trace ex_full ++ EvAllocatePage 7 p
                  :: replicate (S (sweep_bound ex_full)) EvAdvanceClock.
Proof.
  apply (allocPage_exhausted_leaves_page_on_disk 7 ex_full ex_full_alloc_failed).
  - apply reachable_inv, ex_full_reachable.
  - done.
  - by vm_compute.
Defined.

(** ** Write-back and reading back *)

(** A sweep leaves the disk as it was at every key that is not in the
    index. *)
Lemma allocBuf_disk_unindexed s s' key :
  pool_inv s →
  state_after (allocBuf s) = Some s' →
  hashTable s !! key = None →
  disk s' !! key = disk s !! key.
Proof.
  intros H Hs' Hkey. pose proof (allocBuf_spec s H) as Hout.
  inversion Hout as [s1 Hsw H1 Heq|k s1 d Hk Hsw H1 Hd Hv Hb Heq
                     |k s1 d pg Hk Hsw H1 Hd Hpg Hv Hrb Hp Hb Heq];
    rewrite <- Heq in Hs'; simpl in Hs'; simplify_eq;
    destruct (swept_pool_inv_fields _ _ _ Hsw) as (En & Eh & Ed);
    simpl in En, Eh, Ed; rewrite ?Ed; try done.
  rewrite evict_frame_disk, Ed. destruct (dirty d); [|done].
  apply lookup_insert_ne. intros <-.
  pose proof (ok_hash _ _ _ (inv_desc _ H1 _ _ Hd) Hv) as Hh.
  destruct (ok_page _ _ _ (inv_desc _ H1 _ _ Hd) Hv) as (pg' & Hpg' & Hnum).
  assert (pg' = pg) as -> by congruence.
  rewrite Hnum, <- Eh, Hh in Hkey. done.
Qed.

(** C4.  Let frame [i] hold page [p] of file [f], with contents [pg].
    (A) Releasing the page as modified, while it is pinned, sets the dirty
    flag of the frame.  (B) If the frame is dirty when a sweep chooses it as
    victim, the sweep calls [writePage] with the contents of the frame, once
    and before it clears the descriptor, after which the file holds those
    bytes for [p] and the page is out of the index.  (C) A fetch of a page
    that is not resident hands out a frame holding what the file holds for
    that page, so a later fetch of [p] gives the written bytes back. *)
Theorem dirty_page_round_trip s i d pg f p :
  pool_inv s → 0 ≤ i →
  bufDescTable s !! Z.to_nat i = Some d →
  bufPool s !! Z.to_nat i = Some pg →
  valid d = true → file d = f → pageNo d = p →
  (0 < pinCnt d →
   unPinPage f p true s =
     Ok tt (set_desc i (with_dirty true (with_pinCnt (pinCnt d - 1) d)) s)) ∧
  (dirty d = true → ∀ s1, allocBuf s = Ok i s1 →
   (∃ k, trace s1 = trace s ++ replicate (S k) EvAdvanceClock
                           ++ [EvWritePage f pg; EvClear i]) ∧
   disk s1 !! (f, p) = Some (data pg) ∧
   hashTable s1 !! (f, p) = None ∧
   bufDescTable s1 !! Z.to_nat i = Some (Clear d)) ∧
  (∀ s2 bytes j s3,
     pool_inv s2 →
     hashTable s2 !! (f, p) = None →
     disk s2 !! (f, p) = Some bytes →
     readPage f p s2 = Ok j s3 →
     bufPool s3 !! Z.to_nat j = Some (mkPage p bytes) ∧
     hashTable s3 !! (f, p) = Some j ∧
     ∃ d', bufDescTable s3 !! Z.to_nat j = Some d' ∧ valid d' = true ∧
           file d' = f ∧ pageNo d' = p ∧ pinCnt d' = 1 ∧ dirty d' = false).
Proof.
  intros H Hi Hd Hpg Hv Hf Hp.
  destruct (inv_desc _ H _ _ Hd) as [Hpin Hfree Hfile Hhash Hpage Hdisk].
  specialize (Hhash Hv). rewrite Hf, Hp, Z2Nat.id in Hhash by done.
  assert (Z.to_nat i < length (bufDescTable s))%nat as Hlt by (by eapply lookup_lt_Some).
  split; [|split].
  - intros Hpinned. unfold unPinPage. run_monad. rewrite Hhash, Hd.
    destruct (Z.leb_spec (pinCnt d) 0); [lia|]. simpl. rewrite Hd. simpl.
    rewrite list_lookup_insert_eq by done. unfold set_desc, with_table. simpl.
    by rewrite list_insert_insert_eq.
  - intros Hdirty s1 Hrun.
    pose proof (allocBuf_spec s H) as Hout. rewrite Hrun in Hout.
    inversion Hout as [|k s0 d0 Hk Hsw H0 Hd0 Hv0 Hb Hi0
                       |k s0 d0 pg0 Hk Hsw H0 Hd0 Hpg0 Hv0 Hrb Hp0 Hb Hi0].
    + subst. pose proof (sw_table _ _ _ Hsw) as Htab. simpl in Htab.
      destruct (Forall2_lookup_l _ _ _ _ _ Htab Hd) as (d' & Hd' & Hrel).
      apply same_but_refbit_fields in Hrel as (Hvalid & _). congruence.
    + subst i s1. pose proof (sw_table _ _ _ Hsw) as Htab. simpl in Htab.
      destruct (Forall2_lookup_l _ _ _ _ _ Htab Hd) as (d' & Hd' & Hrel).
      assert (d' = d0) as -> by congruence.
      apply same_but_refbit_fields in Hrel
        as (_ & _ & Hfile0 & Hpage0 & Hdirty0 & Hframe0 & _).
      destruct Hsw as [En Ep Eh Ed Et Ec _ _]. simpl in En, Ep, Eh, Ed, Et.
      assert (pg0 = pg) as -> by congruence.
      destruct (Hpage Hv) as (pg' & Hpg' & Hnum).
      assert (pg' = pg) as -> by congruence.
      assert (Clear d0 = Clear d) as HClear by (unfold Clear; congruence).
      split; [|split; [|split]].
      * exists k. rewrite evict_frame_trace, Et, Hdirty0, Hdirty, Hfile0, Hf.
        rewrite <- !app_assoc. simpl. by rewrite <- ?app_assoc.
      * rewrite evict_frame_disk, Hdirty0, Hdirty, Hfile0, Hf, Hnum, Hp.
        apply lookup_insert_eq.
      * rewrite evict_frame_hash, Hfile0, Hpage0, Hf, Hp. apply lookup_delete_eq.
      * rewrite evict_frame_table, HClear. apply list_lookup_insert_eq.
        by eapply lookup_lt_Some.
  - intros s2 bytes j s3 H2 Hnone Hbytes Hrun. revert Hrun.
    unfold readPage. run_monad. rewrite Hnone.
    pose proof (allocBuf_frame s2 H2) as Ha.
    pose proof (allocBuf_disk_unindexed s2) as Hdk.
    destruct (allocBuf s2) as [j' s2'|e s2'|]; [|done..].
    destruct Ha as (H2' & Hj & (dj & Hdj & Hvj) & Hhash' & _).
    specialize (Hdk s2' (f, p) H2 eq_refl Hnone). rewrite Hbytes in Hdk.
    unfold file_readPage. destruct (decide (f = NULL)); [done|].
    rewrite Hdk. simpl.
    destruct (pool_inv_lookup s2' j' H2' Hj) as (dj' & pgj & _ & Hpgj).
    rewrite Hpgj. simpl. rewrite Hdj. simpl. rewrite (Hhash' _ Hnone). simpl.
    intros [= <- <-]. simpl.
    split; [apply list_lookup_insert_eq; by eapply lookup_lt_Some|].
    split; [apply lookup_insert_eq|].
    eexists. split; [apply list_lookup_insert_eq; by eapply lookup_lt_Some|].
    done.
Qed.

Lemma ex_reachable os s :
  run_all os (BufMgr 3 files0) = Some s → reachable s.
Proof.
  apply run_all_reachable, reach_new. unfold UINT32_MOD. lia.
Qed.

Lemma dirty_page_round_trip_witness :
  unPinPage 7 1 true ex_modified = Ok tt ex_modified_released ∧
  ((∃ k, trace ex_modified_evicted =
           trace ex_modified_released ++ replicate (S k) EvAdvanceClock
             ++ [EvWritePage 7 (mkPage 1 "A2"); EvClear 0]) ∧
   disk ex_modified_evicted !! (7, 1) = Some "A2" ∧
   hashTable ex_modified_evicted !! (7, 1) = None ∧
   bufDescTable ex_modified_evicted !! Z.to_nat 0
     = Some (Clear (mkBufDesc 7 1 0 0 true true true))) ∧
  (bufPool ex_refetched !! Z.to_nat 1 = Some (mkPage 1 "A2") ∧
   hashTable ex_refetched !! (7, 1) = Some 1 ∧
   ∃ d', bufDescTable ex_refetched !! Z.to_nat 1 = Some d' ∧ valid d' = true ∧
         file d' = 7 ∧ pageNo d' = 1 ∧ pinCnt d' = 1 ∧ dirty d' = false).
Proof.
  assert (pool_inv ex_modified) as Ha.
  { apply reachable_inv, (ex_reachable ex_calls_modified). by vm_compute. }
  assert (pool_inv ex_modified_released) as Hb.
  { apply reachable_inv, (ex_reachable ex_calls_modified_released). by vm_compute. }
  assert (pool_inv ex_refetch) as Hc.
  { apply reachable_inv, (ex_reachable ex_calls_refetch). by vm_compute. }
  split; [|split].
  - replace ex_modified_released
      with (set_desc 0 (with_dirty true
              (with_pinCnt (pinCnt (mkBufDesc 7 1 0 1 false true true) - 1)
                 (mkBufDesc 7 1 0 1 false true true))) ex_modified)
      by (by vm_compute).
    apply (proj1 (dirty_page_round_trip ex_modified 0
                    (mkBufDesc 7 1 0 1 false true true) (mkPage 1 "A2") 7 1
                    Ha ltac:(lia) ltac:(by vm_compute) ltac:(by vm_compute)
                    eq_refl eq_refl eq_refl)).
    simpl. lia.
  - apply (proj1 (proj2 (dirty_page_round_trip ex_modified_released 0
                    (mkBufDesc 7 1 0 0 true true true) (mkPage 1 "A2") 7 1
                    Hb ltac:(lia) ltac:(by vm_compute) ltac:(by vm_compute)
                    eq_refl eq_refl eq_refl)) eq_refl).
    by vm_compute.
  - apply (proj2 (proj2 (dirty_page_round_trip ex_modified_released 0
                    (mkBufDesc 7 1 0 0 true true true) (mkPage 1 "A2") 7 1
                    Hb ltac:(lia) ltac:(by vm_compute) ltac:(by vm_compute)
                    eq_refl eq_refl eq_refl)) ex_refetch "A2" 1 ex_refetched Hc).
    + by vm_compute.
    + by vm_compute.
    + by vm_compute.
Defined.

(** ** [flushFile] on a file without pinned pages *)

Lemma flushFile_loop_spec f n : ∀ i s,
  pool_inv s →
  (i + n = length (bufDescTable s))%nat →
  (∀ k d, (i ≤ k)%nat → bufDescTable s !! k = Some d → owned f d → pinCnt d = 0) →
  ∃ s', flushFile_loop f (Z.of_nat i) n s = Ok tt s' ∧
        pool_inv s' ∧ numBufs s' = numBufs s ∧ bufPool s' = bufPool s ∧
        clockHand s' = clockHand s ∧
        trace s' = trace s ++ flush_events f i (drop i (bufDescTable s))
                                               (drop i (bufPool s)) ∧
        (∀ k d, bufDescTable s !! k = Some d →
           bufDescTable s' !! k
             = Some (if decide ((i ≤ k)%nat ∧ owned f d) then Clear d else d)).
Proof.
  induction n as [|n IH]; intros i s H Hlen Hunpinned; simpl.
  - exists s. split; [done|]. do 4 (split; [done|]). split.
    + rewrite drop_ge by lia. simpl. by rewrite app_nil_r.
    + intros k d Hk. rewrite decide_False; [done|].
      intros [Hik _]. apply lookup_lt_Some in Hk. lia.
  - unfold bind.
    destruct (flushFile_body_spec f (Z.of_nat i) s H) as (d & pg & Hd & Hpg & Hcase).
    { pose proof (inv_table _ H). lia. }
    rewrite Nat2Z.id in Hd, Hpg.
    rewrite (drop_S _ _ _ Hd), (drop_S _ _ _ Hpg). simpl.
    replace (Z.of_nat i + 1) with (Z.of_nat (S i)) by lia.
    inversion Hcase as [Hskip Heq|Hv Hf Hp Heq|Hv Hf Hp Heq].
    + destruct (IH (S i) s H) as (s' & Hrun & H' & En & Ep & Ec & Et & Etab);
        [lia|intros k dk Hk Hdk Ho; apply (Hunpinned k dk); [lia|done..]|].
      exists s'. split; [done|]. do 4 (split; [done|]). split.
      * rewrite Et. rewrite decide_False; [done|]. unfold owned. intros [Hv Hf].
        destruct Hskip; congruence.
      * intros k dk Hk. rewrite (Etab k dk Hk).
        destruct (decide (k = i)) as [->|Hne].
        -- assert (dk = d) as -> by congruence.
           rewrite !decide_False; [done|..]; unfold owned.
           ++ intros [_ [Hv Hf]]. destruct Hskip; congruence.
           ++ intros [Hlt _]. lia.
        -- destruct (decide ((S i ≤ k)%nat ∧ owned f dk)) as [[Hle Ho]|Hno].
           ++ rewrite decide_True; [done|]. split; [lia|done].
           ++ rewrite decide_False; [done|]. intros [Hle Ho]. apply Hno.
              split; [lia|done].
    + specialize (Hunpinned i d (Nat.le_refl i) Hd (conj Hv Hf)). lia.
    + assert (bufDescTable (evict_frame (Z.of_nat i) d pg s)
              = <[i := Clear d]> (bufDescTable s)) as Etab1.
      { by rewrite evict_frame_table, Nat2Z.id. }
      destruct (IH (S i) (evict_frame (Z.of_nat i) d pg s))
        as (s' & Hrun & H' & En & Ep & Ec & Et & Etab).
      * apply pool_inv_evict_frame; [done| |done]. by rewrite Nat2Z.id.
      * rewrite Etab1, length_insert. lia.
      * intros k dk Hk Hdk Ho. rewrite Etab1, list_lookup_insert_ne in Hdk by lia.
        apply (Hunpinned k dk); [lia|done..].
      * exists s'. split; [done|]. split; [done|].
        rewrite evict_frame_numBufs in En. rewrite evict_frame_pool in Ep.
        rewrite evict_frame_hand in Ec. do 3 (split; [done|]). split.
        -- rewrite Et, evict_frame_trace, Etab1, evict_frame_pool.
           rewrite drop_insert_lt by lia. rewrite decide_True by done.
           rewrite Hf. by rewrite <- !app_assoc.
        -- intros k dk Hk. destruct (decide (k = i)) as [->|Hne].
           ++ assert (dk = d) as -> by congruence.
              rewrite (Etab i (Clear d)).
              ** rewrite decide_False by (intros [_ [Hc _]]; done).
                 by rewrite decide_True.
              ** rewrite Etab1. apply list_lookup_insert_eq.
                 by eapply lookup_lt_Some.
           ++ rewrite (Etab k dk) by (by rewrite Etab1, list_lookup_insert_ne).
              destruct (decide ((S i ≤ k)%nat ∧ owned f dk)) as [[Hle Ho]|Hno].
              ** rewrite decide_True; [done|]. split; [lia|done].
              ** rewrite decide_False; [done|]. intros [Hle Ho]. apply Hno.
                 split; [lia|done].
Qed.

Lemma times_app e l1 l2 : times e (l1 ++ l2) = (times e l1 + times e l2)%nat.
Proof. unfold times. by rewrite filter_app, length_app. Qed.

Lemma times_frame_events f pg i d pg' :
  times (EvWritePage f pg)
    (if decide (owned f d)
     then (if dirty d then [EvWritePage f pg'] else []) ++ [EvClear i]
     else [])
  = if decide (owned f d ∧ dirty d = true ∧ pg' = pg) then 1%nat else 0%nat.
Proof.
  unfold times.
  destruct (decide (owned f d)) as [Ho|Ho], (dirty d) eqn:Hdirty,
    (decide (pg' = pg)) as [Hpg|Hpg];
    rewrite ?filter_app, ?filter_cons, ?filter_nil;
    repeat case_decide; simplify_eq; simpl; try done; intuition congruence.
Qed.

(** No dirty frame of [f] holds [pg]: flushing never writes [pg]. *)
Lemma times_flush_events_none f pg ds : ∀ pgs i,
  (∀ j d, ds !! j = Some d → pgs !! j = Some pg →
          ¬ (owned f d ∧ dirty d = true)) →
  times (EvWritePage f pg) (flush_events f i ds pgs) = 0%nat.
Proof.
  induction ds as [|d ds IH]; intros [|pg' pgs] i Hnone; simpl; try done.
  rewrite times_app, times_frame_events, IH.
  - rewrite decide_False; [done|]. intros (Ho & Hd & ->).
    by apply (Hnone 0%nat d).
  - intros j dj Hj Hpg. by apply (Hnone (S j) dj).
Qed.

(** Exactly one dirty frame of [f] holds [pg]: flushing writes [pg] once. *)
Lemma times_flush_events_one f pg ds : ∀ pgs i j d,
  ds !! j = Some d → pgs !! j = Some pg → owned f d → dirty d = true →
  (∀ j' d', j' ≠ j → ds !! j' = Some d' → pgs !! j' = Some pg →
            ¬ (owned f d' ∧ dirty d' = true)) →
  times (EvWritePage f pg) (flush_events f i ds pgs) = 1%nat.
Proof.
  induction ds as [|d0 ds IH]; intros [|pg' pgs] i j d Hj Hpg Ho Hdirty Hothers;
    simpl; try done.
  rewrite times_app, times_frame_events. destruct j as [|j]; simpl in Hj, Hpg.
  - simplify_eq. rewrite decide_True by done.
    rewrite times_flush_events_none; [done|].
    intros j' d' Hj' Hpg'. by apply (Hothers (S j') d').
  - rewrite decide_False.
    + rewrite (IH pgs (S i) j d); try done.
      intros j' d' Hne Hj' Hpg'. apply (Hothers (S j') d'); [lia|done..].
    + intros (Ho0 & Hd0 & ->). by apply (Hothers 0%nat d0).
Qed.

(** Under the invariant, two frames of the same file that hold the same
    page are one frame. *)
Lemma pool_inv_owned_distinct s f j j' d d' pg :
  pool_inv s →
  bufDescTable s !! j = Some d → bufPool s !! j = Some pg → owned f d →
  bufDescTable s !! j' = Some d' → bufPool s !! j' = Some pg → owned f d' →
  j' = j.
Proof.
  intros H Hd Hpg [Hv Hf] Hd' Hpg' [Hv' Hf'].
  destruct (inv_desc _ H _ _ Hd) as [_ _ _ Hh Hp _].
  destruct (inv_desc _ H _ _ Hd') as [_ _ _ Hh' Hp' _].
  destruct (Hp Hv) as (pg1 & Hpg1 & Hn1). destruct (Hp' Hv') as (pg2 & Hpg2 & Hn2).
  specialize (Hh Hv). specialize (Hh' Hv').
  assert (pageNo d' = pageNo d) as Hsame by congruence.
  rewrite Hf', Hsame, <- Hf, Hh in Hh'. injection Hh' as Hh'. lia.
Qed.

(** C5.  Let the invariant hold and let no frame that holds a page of [f]
    be pinned.  Then [flushFile f] returns; the calls it makes include, for
    each frame of [f], one [writePage] of its page when the frame was dirty
    and none when it was not; afterwards the index has no entry for any
    page of [f] and its entries for other files are as before; every frame
    of [f] is cleared and every other descriptor is as it was; and the
    frames' pages are untouched. *)
Theorem flushFile_unpinned_file f s :
  pool_inv s →
  (∀ k d, bufDescTable s !! k = Some d → owned f d → ¬ 0 < pinCnt d) →
  ∃ s' evs,
    flushFile f s = Ok tt s' ∧
    trace s' = trace s ++ evs ∧
    (∀ k d pg, bufDescTable s !! k = Some d → bufPool s !! k = Some pg →
       owned f d →
       times (EvWritePage f pg) evs = if dirty d then 1%nat else 0%nat) ∧
    (∀ p, hashTable s' !! (f, p) = None) ∧
    (∀ f' p, f' ≠ f → hashTable s' !! (f', p) = hashTable s !! (f', p)) ∧
    (∀ k d, bufDescTable s !! k = Some d →
       bufDescTable s' !! k = Some (if decide (owned f d) then Clear d else d)) ∧
    bufPool s' = bufPool s.
Proof.
  intros H Hunpinned.
  destruct (flushFile_loop_spec f (length (bufDescTable s)) 0%nat s H)
    as (s' & Hrun & H' & En & Ep & Ec & Et & Etab); [done| |].
  { intros k d _ Hd Ho. specialize (Hunpinned k d Hd Ho).
    pose proof (desc_ok_pin_range _ _ _ (inv_desc _ H _ _ Hd)). lia. }
  rewrite !drop_0 in Et.
  assert (∀ k d, bufDescTable s !! k = Some d →
            bufDescTable s' !! k = Some (if decide (owned f d) then Clear d else d))
    as Etab'.
  { intros k d Hd. rewrite (Etab k d Hd).
    destruct (decide (owned f d)) as [Ho|Ho].
    - rewrite decide_True; [done|]. split; [lia|done].
    - rewrite decide_False; [done|]. by intros [_ ?]. }
  exists s', (flush_events f 0 (bufDescTable s) (bufPool s)).
  split.
  { unfold flushFile. run_monad. simpl in Hrun.
    rewrite <- (inv_table _ H), Nat2Z.id. exact Hrun. }
  split; [done|]. split; [|split; [|split; [|split; [done|done]]]].
  - intros k d pg Hd Hpg Ho. destruct (dirty d) eqn:Hdirty.
    + apply (times_flush_events_one f pg _ _ _ k d); try done.
      intros j' d' Hne Hd' Hpg' [Ho' _]. apply Hne.
      by apply (pool_inv_owned_distinct s f k j' d d' pg).
    + apply times_flush_events_none. intros j d' Hd' Hpg' [Ho' Hdirty'].
      assert (j = k) as -> by (by apply (pool_inv_owned_distinct s f k j d d' pg)).
      congruence.
  - intros p. destruct (hashTable s' !! (f, p)) as [j|] eqn:Hj; [|done].
    destruct (inv_hash _ H' _ _ _ Hj) as (Hj0 & d' & Hd' & Hv' & Hf' & _).
    destruct (lookup_lt_is_Some_2 (bufDescTable s) (Z.to_nat j)) as [d Hd].
    { apply lookup_lt_Some in Hd'. pose proof (inv_table _ H).
      pose proof (inv_table _ H'). lia. }
    rewrite (Etab' _ _ Hd) in Hd'. destruct (decide (owned f d)) as [Ho|Ho].
    + by simplify_eq.
    + simplify_eq. destruct Ho. done.
  - intros f' p Hne. destruct (hashTable s !! (f', p)) as [j|] eqn:Hj.
    + destruct (inv_hash _ H _ _ _ Hj) as (Hj0 & d & Hd & Hv & Hf & Hp).
      pose proof (Etab' _ _ Hd) as Hd'.
      rewrite decide_False in Hd' by (intros [_ ?]; congruence).
      pose proof (ok_hash _ _ _ (inv_desc _ H' _ _ Hd') Hv) as Hh.
      rewrite Hf, Hp, Z2Nat.id in Hh by done. done.
    + destruct (hashTable s' !! (f', p)) as [j|] eqn:Hj'; [|done].
      destruct (inv_hash _ H' _ _ _ Hj') as (Hj0 & d' & Hd' & Hv' & Hf' & Hp').
      destruct (lookup_lt_is_Some_2 (bufDescTable s) (Z.to_nat j)) as [d Hd].
      { apply lookup_lt_Some in Hd'. pose proof (inv_table _ H).
        pose proof (inv_table _ H'). lia. }
      rewrite (Etab' _ _ Hd) in Hd'. destruct (decide (owned f d)) as [Ho|Ho].
      * by simplify_eq.
      * simplify_eq.
        pose proof (ok_hash _ _ _ (inv_desc _ H _ _ Hd) Hv') as Hh.
        rewrite Z2Nat.id in Hh by done. congruence.
Qed.

Example ex_flush_run :
  flushFile 7 ex_flush = Ok tt ex_flushed ∧
  trace ex_flushed =
    trace ex_flush ++ [EvWritePage 7 (mkPage 1 "A"); EvClear 0; EvClear 1] ∧
  bufDescTable ex_flushed =
    [mkBufDesc NULL INVALID_NUMBER 0 0 false false false;
     mkBufDesc NULL INVALID_NUMBER 1 0 false false false;
     mkBufDesc 8 1 2 1 false true true] ∧
  map_to_list (hashTable ex_flushed) = [((8, 1), 2)].
Proof. do 3 (split; [by vm_compute|]). by vm_compute. Qed.

Lemma flushFile_unpinned_file_witness :
  ∃ s' evs,
    flushFile 7 ex_flush = Ok tt s' ∧
    trace s' = trace ex_flush ++ evs ∧
    (∀ k d pg, bufDescTable ex_flush !! k = Some d → bufPool ex_flush !! k = Some pg →
       owned 7 d →
       times (EvWritePage 7 pg) evs = if dirty d then 1%nat else 0%nat) ∧
    (∀ p, hashTable s' !! (7, p) = None) ∧
    (∀ f' p, f' ≠ 7 → hashTable s' !! (f', p) = hashTable ex_flush !! (f', p)) ∧
    (∀ k d, bufDescTable ex_flush !! k = Some d →
       bufDescTable s' !! k = Some (if decide (owned 7 d) then Clear d else d)) ∧
    bufPool s' = bufPool ex_flush.
Proof.
  apply (flushFile_unpinned_file 7 ex_flush).
  - apply reachable_inv, (ex_reachable ex_calls_flush). by vm_compute.
  - intros k d Hd [Hv Hf].
    destruct k as [|[|[|k]]]; vm_compute in Hd; simplify_eq; vm_compute; congruence.
Defined.

(** ** Where dirty flags are cleared *)

Lemma clears_logged_refl s : clears_logged s s.
Proof.
  split; [done|]. exists []. split; [by rewrite app_nil_r|].
  intros i d d' Hd Hd' H1 H2. congruence.
Qed.

Lemma clears_logged_trans s1 s2 s3 :
  clears_logged s1 s2 → clears_logged s2 s3 → clears_logged s1 s3.
Proof.
  intros [Hl1 (evs1 & Et1 & H1)] [Hl2 (evs2 & Et2 & H2)].
  split; [congruence|]. exists (evs1 ++ evs2).
  split; [by rewrite Et2, Et1, app_assoc|].
  intros i d d' Hd Hd' Hdirty Hclean.
  destruct (lookup_lt_is_Some_2 (bufDescTable s2) i) as [d2 Hd2].
  { apply lookup_lt_Some in Hd. lia. }
  apply elem_of_app. destruct (dirty d2) eqn:E; [right|left]; eauto.
Qed.

(** A change that touches no dirty flag and only adds to the trace. *)
Lemma clears_logged_same_dirty s s' evs :
  trace s' = trace s ++ evs →
  Forall2 (fun d d' => dirty d' = dirty d) (bufDescTable s) (bufDescTable s') →
  clears_logged s s'.
Proof.
  intros Et Htab. split; [symmetry; by eapply Forall2_length|].
  exists evs. split; [done|]. intros i d d' Hd Hd' H1 H2.
  destruct (Forall2_lookup_l _ _ _ _ _ Htab Hd) as (d2 & Hd2 & Hsame).
  congruence.
Qed.

Lemma clears_logged_same_table s s' evs :
  trace s' = trace s ++ evs → bufDescTable s' = bufDescTable s →
  clears_logged s s'.
Proof.
  intros Et Htab. apply (clears_logged_same_dirty s s' evs Et). rewrite Htab.
  apply Forall2_same_length_lookup_2; [done|]. intros; congruence.
Qed.

Lemma clears_logged_set_desc s i d d' :
  bufDescTable s !! Z.to_nat i = Some d → dirty d' = dirty d ∨ dirty d = false →
  clears_logged s (set_desc i d' s).
Proof.
  intros Hd Hsame. split; [apply length_insert|]. exists [].
  split; [by rewrite app_nil_r|]. simpl. intros k dk dk' Hk Hk' H1 H2.
  destruct (decide (k = Z.to_nat i)) as [->|Hne].
  - rewrite list_lookup_insert_eq in Hk' by (by eapply lookup_lt_Some).
    simplify_eq. destruct Hsame; congruence.
  - rewrite list_lookup_insert_ne in Hk' by done. congruence.
Qed.

Lemma clears_logged_evict_frame s i d pg :
  0 ≤ i → clears_logged s (evict_frame i d pg s).
Proof.
  intros Hi. split; [by rewrite evict_frame_table, length_insert|].
  eexists. split; [apply evict_frame_trace|].
  intros k dk dk' Hk Hk' H1 H2. rewrite evict_frame_table in Hk'.
  destruct (decide (k = Z.to_nat i)) as [->|Hne].
  - rewrite Z2Nat.id by done. apply elem_of_app. right.
    by apply list_elem_of_singleton.
  - rewrite list_lookup_insert_ne in Hk' by done. congruence.
Qed.

Lemma clears_logged_swept s0 k s : swept s0 k s → clears_logged s0 s.
Proof.
  intros Hsw. apply (clears_logged_same_dirty _ _ _ (sw_trace _ _ _ Hsw)).
  eapply Forall2_impl; [apply (sw_table _ _ _ Hsw)|].
  intros d d' Hrel. by apply same_but_refbit_fields in Hrel as (_ & _ & _ & _ & ? & _).
Qed.

Lemma clears_logged_allocBuf s s' :
  pool_inv s → state_after (allocBuf s) = Some s' → clears_logged s s'.
Proof.
  intros H Hs'. pose proof (allocBuf_spec s H) as Hout.
  assert (clears_logged s (advanced s)) as Hadv.
  { by apply (clears_logged_same_table _ _ [EvAdvanceClock]). }
  inversion Hout as [s1 Hsw H1 Heq|k s1 d Hk Hsw H1 Hd Hv Hb Heq
                     |k s1 d pg Hk Hsw H1 Hd Hpg Hv Hrb Hp Hb Heq];
    rewrite <- Heq in Hs'; simpl in Hs'; simplify_eq;
    apply (clears_logged_trans _ _ _ Hadv);
    try (by eapply clears_logged_swept).
  eapply clears_logged_trans; [by eapply clears_logged_swept|].
  apply clears_logged_evict_frame, H1.
Qed.

(** One descriptor is replaced; its dirty flag is kept, or was not set, or
    a call of [Clear] for the frame is among the new events. *)
Lemma clears_logged_insert s s' i d d' evs :
  bufDescTable s !! i = Some d →
  bufDescTable s' = <[i := d']> (bufDescTable s) →
  trace s' = trace s ++ evs →
  dirty d' = dirty d ∨ dirty d = false ∨ EvClear (Z.of_nat i) ∈ evs →
  clears_logged s s'.
Proof.
  intros Hd Et Etr Hcase. split; [by rewrite Et, length_insert|].
  exists evs. split; [done|]. intros k dk dk' Hk Hk' H1 H2. rewrite Et in Hk'.
  destruct (decide (k = i)) as [->|Hne].
  - rewrite list_lookup_insert_eq in Hk' by (by eapply lookup_lt_Some).
    simplify_eq. destruct Hcase as [?|[?|?]]; [congruence|congruence|done].
  - rewrite list_lookup_insert_ne in Hk' by done. congruence.
Qed.

Lemma clears_logged_readPage f p s s' :
  pool_inv s → state_after (readPage f p s) = Some s' → clears_logged s s'.
Proof.
  intros H. unfold readPage. run_monad.
  destruct (hashTable s !! (f, p)) as [j|] eqn:Hj.
  - destruct (inv_hash _ H _ _ _ Hj) as (Hj0 & d & Hd & _).
    rewrite Hd. destruct (decide (pinCnt d = INT_MAX)); [done|]. simpl.
    rewrite Hd. simpl. rewrite list_lookup_insert_eq by (by eapply lookup_lt_Some).
    simpl. intros [= <-].
    apply (clears_logged_insert s _ (Z.to_nat j) d
             (with_refbit true (with_pinCnt (pinCnt d + 1) d)) []); simpl.
    + done.
    + by rewrite list_insert_insert_eq.
    + by rewrite app_nil_r.
    + by left.
  - pose proof (allocBuf_frame s H) as Ha.
    pose proof (clears_logged_allocBuf s) as Hc.
    destruct (allocBuf s) as [i s1|e s1|]; simpl; [|intros [= <-]; by apply Hc|done].
    specialize (Hc s1 H eq_refl).
    destruct Ha as (H1 & Hi & (d & Hd & Hv) & Hhash & Hdisk).
    unfold file_readPage. destruct (decide (f = NULL)); [done|].
    destruct (disk s1 !! (f, p)) as [bytes|]; simpl; [|by intros [= <-]].
    destruct (pool_inv_lookup s1 i H1 Hi) as (d' & pg & _ & Hpg).
    rewrite Hpg. simpl. rewrite Hd. simpl. rewrite (Hhash _ Hj). simpl.
    intros [= <-]. apply (clears_logged_trans _ _ _ Hc).
    apply (clears_logged_insert s1 _ (Z.to_nat i) d (Set_ d f p)
             [EvReadPage f p; EvSet i f p]); simpl.
    + done.
    + done.
    + by rewrite <- app_assoc.
    + right. left. rewrite (ok_free _ _ _ (inv_desc _ H1 _ _ Hd) Hv). done.
Qed.

Lemma clears_logged_allocPage f s s' :
  pool_inv s → state_after (allocPage f s) = Some s' → clears_logged s s'.
Proof.
  intros H. unfold allocPage. unfold bind at 1.
  unfold file_allocatePage. destruct (decide (f = NULL)) as [|Hf]; [done|].
  fold (allocated f s). pose proof (pool_inv_allocated f s H) as H0.
  assert (clears_logged s (allocated f s)) as Hc0.
  { by apply (clears_logged_same_table _ _
                [EvAllocatePage f (last_page f (disk s) + 1)]). }
  unfold bind at 1.
  pose proof (allocBuf_frame _ H0) as Ha.
  pose proof (clears_logged_allocBuf (allocated f s)) as Hc.
  destruct (allocBuf (allocated f s)) as [i s1|e s1|]; simpl;
    [|intros [= <-]; apply (clears_logged_trans _ _ _ Hc0); by apply Hc|done].
  specialize (Hc s1 H0 eq_refl).
  destruct Ha as (H1 & Hi & (d & Hd & Hv) & Hhash & Hdisk).
  destruct (pool_inv_lookup s1 i H1 Hi) as (d' & pg & _ & Hpg).
  run_monad.
  destruct (hashTable s1 !! (f, last_page f (disk s) + 1)); simpl.
  { intros [= <-]. by apply (clears_logged_trans _ _ _ Hc0). }
  rewrite Hd. simpl. rewrite Hpg. simpl. intros [= <-].
  apply (clears_logged_trans _ _ _ Hc0), (clears_logged_trans _ _ _ Hc).
  apply (clears_logged_insert s1 _ (Z.to_nat i) d
           (Set_ d f (last_page f (disk s) + 1))
           [EvSet i f (last_page f (disk s) + 1)]); simpl.
  - done.
  - done.
  - done.
  - right. left. rewrite (ok_free _ _ _ (inv_desc _ H1 _ _ Hd) Hv). done.
Qed.

Lemma clears_logged_disposePage f p s s' :
  pool_inv s → state_after (disposePage f p s) = Some s' → clears_logged s s'.
Proof.
  intros H. unfold disposePage. unfold bind at 1. unfold file_deletePage.
  destruct (decide (f = NULL)); [done|].
  destruct (disk s !! (f, p)); simpl;
    [|intros [= <-]; apply clears_logged_refl].
  run_monad. destruct (hashTable s !! (f, p)) as [j|] eqn:Hj; simpl.
  - destruct (inv_hash _ H _ _ _ Hj) as (Hj0 & d & Hd & _).
    rewrite Hj. simpl. rewrite Hd. simpl. intros [= <-].
    apply (clears_logged_insert s _ (Z.to_nat j) d (Clear d)
             [EvDeletePage f p; EvClear j]); simpl.
    + done.
    + done.
    + by rewrite <- app_assoc.
    + right. right. rewrite Z2Nat.id by done.
      apply elem_of_cons. right. by apply list_elem_of_singleton.
  - intros [= <-]. by apply (clears_logged_same_table _ _ [EvDeletePage f p]).
Qed.

Lemma clears_logged_flushFile f s s' :
  pool_inv s → state_after (flushFile f s) = Some s' → clears_logged s s'.
Proof.
  intros H. unfold flushFile. run_monad.
  assert (∀ n i s0, 0 ≤ i → i + Z.of_nat n ≤ numBufs s0 → pool_inv s0 →
            state_after (flushFile_loop f i n s0) = Some s' →
            clears_logged s0 s') as Hloop.
  { induction n as [|n IH]; intros i s0 Hi Hn H0; simpl.
    - intros [= <-]. apply clears_logged_refl.
    - unfold bind.
      destruct (flushFile_body_spec f i s0 H0) as (d & pg & Hd & Hpg & Hcase); [lia|].
      inversion Hcase as [Hskip Heq|Hv Hf Hp Heq|Hv Hf Hp Heq].
      + apply (IH (i + 1)); [lia|lia|done].
      + simpl. intros [= <-]. apply clears_logged_refl.
      + intros Hrest. apply (clears_logged_trans _ (evict_frame i d pg s0)).
        * by apply clears_logged_evict_frame.
        * apply (IH (i + 1)); [lia|rewrite evict_frame_numBufs; lia| |done].
          by apply pool_inv_evict_frame. }
  apply (Hloop _ 0 s); [lia| |done]. pose proof (inv_numBufs _ H). lia.
Qed.

(** A release leaves the trace alone, sets no dirty flag back, and with
    [dirty = false] changes no dirty flag at all. *)
Lemma unPinPage_dirty f p b s s' :
  state_after (unPinPage f p b s) = Some s' →
  trace s' = trace s ∧
  length (bufDescTable s') = length (bufDescTable s) ∧
  (∀ i d, bufDescTable s !! i = Some d → dirty d = true →
     ∃ d', bufDescTable s' !! i = Some d' ∧ dirty d' = true) ∧
  (b = false → dirty <$> bufDescTable s' = dirty <$> bufDescTable s).
Proof.
  unfold unPinPage. run_monad.
  destruct (hashTable s !! (f, p)) as [j|] eqn:Hj; simpl.
  2:{ intros [= <-]. repeat split; eauto. }
  destruct (bufDescTable s !! Z.to_nat j) as [dj|] eqn:Hdj; [|done].
  assert (Z.to_nat j < length (bufDescTable s))%nat as Hlt by (by eapply lookup_lt_Some).
  destruct (Z.leb_spec (pinCnt dj) 0) as [Hle|Hgt].
  { destruct (decide (f = NULL)); [done|]. simpl. intros [= <-]. repeat split; eauto. }
  simpl. rewrite Hdj. simpl. destruct b; simpl.
  - rewrite list_lookup_insert_eq by done. simpl. intros [= <-]. simpl.
    split; [done|]. split; [by rewrite !length_insert|].
    split; [|done]. intros i d Hi Hdirty. rewrite list_insert_insert_eq.
    destruct (decide (i = Z.to_nat j)) as [->|Hne].
    + rewrite list_lookup_insert_eq by done. eauto.
    + rewrite list_lookup_insert_ne by done. eauto.
  - intros [= <-]. simpl. split; [done|]. split; [by rewrite length_insert|]. split.
    + intros i d Hi Hdirty. destruct (decide (i = Z.to_nat j)) as [->|Hne].
      * rewrite list_lookup_insert_eq by done. simplify_eq. eauto.
      * rewrite list_lookup_insert_ne by done. eauto.
    + intros _. rewrite list_fmap_insert. simpl. apply list_insert_id.
      by rewrite list_lookup_fmap, Hdj.
Qed.

Lemma clears_logged_unPinPage f p b s s' :
  state_after (unPinPage f p b s) = Some s' → clears_logged s s'.
Proof.
  intros Hrun. destruct (unPinPage_dirty f p b s s' Hrun) as (Et & Hlen & Hkeep & _).
  split; [done|]. exists []. split; [by rewrite app_nil_r|].
  intros i d d' Hd Hd' H1 H2. destruct (Hkeep i d Hd H1) as (d2 & Hd2 & Hdirty).
  congruence.
Qed.

Lemma clears_logged_writeHandle i bytes s s' :
  state_after (writeHandle i bytes s) = Some s' → clears_logged s s'.
Proof.
  unfold writeHandle. run_monad.
  destruct (bufPool s !! Z.to_nat i) as [pg|] eqn:Hpg; [|done]. simpl.
  rewrite Hpg. simpl. intros [= <-].
  apply (clears_logged_same_table _ _ []); [|done]. simpl. by rewrite app_nil_r.
Qed.

Lemma clears_logged_run o s s' :
  pool_inv s → state_after (run o s) = Some s' → clears_logged s s'.
Proof.
  intros H. destruct o as [f p|f p b|f|f|f p|i bytes]; simpl.
  - unfold bind, ret. intros Hrun. apply (clears_logged_readPage f p s s' H).
    by destruct (readPage f p s).
  - apply clears_logged_unPinPage.
  - by apply clears_logged_flushFile.
  - unfold bind, ret. intros Hrun. apply (clears_logged_allocPage f s s' H).
    by destruct (allocPage f s).
  - by apply clears_logged_disposePage.
  - apply clears_logged_writeHandle.
Qed.

(** C9.  A release never clears a dirty flag: a frame that is dirty before
    [unPinPage] is dirty after it, whatever the arguments and whether the
    call returns or throws, and with [dirty = false] no dirty flag changes
    at all.  And whatever call is made on a reachable pool, a descriptor
    whose dirty flag goes from set to cleared has been cleared by [Clear]
    in that call (which evictions and flushes call after the write-back). *)
Theorem unPinPage_keeps_dirty :
  (∀ f p b s s',
     state_after (unPinPage f p b s) = Some s' →
     (∀ i d, bufDescTable s !! i = Some d → dirty d = true →
        ∃ d', bufDescTable s' !! i = Some d' ∧ dirty d' = true) ∧
     (b = false → dirty <$> bufDescTable s' = dirty <$> bufDescTable s)) ∧
  (∀ o s s',
     reachable s → state_after (run o s) = Some s' →
     ∃ evs, trace s' = trace s ++ evs ∧
            ∀ i d d', bufDescTable s !! i = Some d → bufDescTable s' !! i = Some d' →
                      dirty d = true → dirty d' = false →
                      EvClear (Z.of_nat i) ∈ evs).
Proof.
  split.
  - intros f p b s s' Hrun.
    by destruct (unPinPage_dirty f p b s s' Hrun) as (_ & _ & ? & ?).
  - intros o s s' Hs Hrun.
    by destruct (clears_logged_run o s s' (reachable_inv s Hs) Hrun) as [_ ?].
Qed.

Lemma unPinPage_keeps_dirty_witness :
  ((∀ i d, bufDescTable ex_dirty !! i = Some d → dirty d = true →
      ∃ d', bufDescTable ex_dirty_released !! i = Some d' ∧ dirty d' = true) ∧
   (false = false →
    dirty <$> bufDescTable ex_dirty_released = dirty <$> bufDescTable ex_dirty)) ∧
  (∃ evs, trace ex_fetched_4 = trace ex_modified_released ++ evs ∧
          ∀ i d d', bufDescTable ex_modified_released !! i = Some d →
                    bufDescTable ex_fetched_4 !! i = Some d' →
                    dirty d = true → dirty d' = false →
                    EvClear (Z.of_nat i) ∈ evs).
Proof.
  split.
  - apply (proj1 unPinPage_keeps_dirty 7 1 false ex_dirty ex_dirty_released).
    by vm_compute.
  - apply (proj2 unPinPage_keeps_dirty (OpReadPage 7 4) ex_modified_released
             ex_fetched_4).
    + apply (ex_reachable ex_calls_modified_released). by vm_compute.
    + by vm_compute.
Defined.

(** ** The two scenarios of section 8 of the specification *)

(** Capacity 3: fetching A, B and C fills the pool with pinned pages, a
    fetch of D throws, and after A is released D takes frame 0 and A is out
    of the index. *)
Example scenario_pool_exhausted :
  ∃ s1 s2 s3,
    run_all ex_calls_full (BufMgr 3 files0) = Some ex_full ∧
    readPage 7 4 ex_full = Throw BufferExceededException s1 ∧
    unPinPage 7 1 false s1 = Ok tt s2 ∧
    readPage 7 4 s2 = Ok 0 s3 ∧
    hashTable s3 !! (7, 4) = Some 0 ∧
    hashTable s3 !! (7, 1) = None.
Proof.
  exists ex_full_failed.
  exists (default ex_full_failed (state_after (unPinPage 7 1 false ex_full_failed))).
  exists (default ex_full_failed
            (state_after (readPage 7 4
               (default ex_full_failed
                  (state_after (unPinPage 7 1 false ex_full_failed)))))).
  do 5 (split; [by vm_compute|]). by vm_compute.
Qed.

(** Fetch A, release it unmodified, fetch B and C, and fetch D: the sweep
    passes A twice, evicts it, and no [writePage] is called. *)
Example scenario_clean_eviction :
  run_all ex_calls_clean (BufMgr 3 files0) = Some ex_clean ∧
  hashTable ex_clean !! (7, 1) = None ∧
  hashTable ex_clean !! (7, 4) = Some 0 ∧
  filter (fun e => is_write e = true) (trace ex_clean) = [] ∧
  trace ex_clean =
    [EvAdvanceClock; EvReadPage 7 1; EvSet 0 7 1;
     EvAdvanceClock; EvReadPage 7 2; EvSet 1 7 2;
     EvAdvanceClock; EvReadPage 7 3; EvSet 2 7 3;
     EvAdvanceClock; EvAdvanceClock; EvAdvanceClock; EvAdvanceClock;
     EvClear 0; EvReadPage 7 4; EvSet 0 7 4].
Proof. do 4 (split; [by vm_compute|]). by vm_compute. Qed.

(** * More of the buffer manager *)

(** ** When the sweep finds a frame *)

(** The hand [h] moves one step towards the frame [j]. *)
Lemma hand_approaches (n h j : Z) :
  0 ≤ h < n → 0 ≤ j < n → h ≠ j →
  (j - (h + 1) mod n) mod n = (j - h) mod n - 1.
Proof.
  intros Hh Hj Hne. rewrite Zminus_mod_idemp_r.
  destruct (decide (h < j)).
  - rewrite !Z.mod_small by lia. lia.
  - rewrite <- (Z.mod_add (j - (h + 1)) 1 n) by lia.
    rewrite <- (Z.mod_add (j - h) 1 n) by lia.
    rewrite !Z.mod_small by lia. lia.
Qed.

(** The hand has just left the frame [j]: it is a whole turn away, less one
    step. *)
Lemma hand_leaves (n j : Z) :
  0 ≤ j < n → (j - (j + 1) mod n) mod n = n - 1.
Proof.
  intros Hj. rewrite Zminus_mod_idemp_r.
  rewrite <- (Z.mod_add (j - (j + 1)) 1 n) by lia.
  rewrite Z.mod_small by lia. lia.
Qed.

Ltac hand_simpl :=
  repeat match goal with
  | |- context [clockHand (advanced ?x)] =>
      change (clockHand (advanced x)) with (next_hand x)
  | |- context [numBufs (advanced ?x)] =>
      change (numBufs (advanced x)) with (numBufs x)
  | |- context [next_hand (set_desc ?i ?d ?x)] =>
      change (next_hand (set_desc i d x)) with (next_hand x)
  | |- context [numBufs (set_desc ?i ?d ?x)] =>
      change (numBufs (set_desc i d x)) with (numBufs x)
  end.

(** With the bound above [steps_to_choose] for some frame that is free or
    unpinned, the loop of [allocBuf] ends at a frame. *)
Lemma allocBuf_loop_finds m : ∀ s j d,
  pool_inv s → 0 ≤ j < numBufs s →
  bufDescTable s !! Z.to_nat j = Some d →
  valid d = false ∨ pinCnt d = 0 →
  steps_to_choose s j d < Z.of_nat m →
  ∃ r s', allocBuf_loop m s = Ok r s' ∧ r ≠ O.
Proof.
  induction m as [|m IH]; intros s j d H Hj Hd Hfree Hsteps.
  { unfold steps_to_choose in Hsteps.
    pose proof (Z.mod_pos_bound (j - clockHand s) (numBufs s)).
    destruct (valid d && refbit d); lia. }
  simpl. unfold bind.
  pose proof (inv_hand _ H) as Hh. pose proof (inv_numBufs _ H) as Hn.
  destruct (allocBuf_body_spec s H) as (dh & pg & Hdh & Hpg & Hcase).
  inversion Hcase as [Hv Heq|Hv Hr Heq|Hv Hr Hp Heq|Hv Hr Hp Heq].
  - eauto.
  - (* the reference bit of the frame under the hand is cleared *)
    assert (pool_inv (advanced (set_desc (clockHand s) (with_refbit false dh) s)))
      as H1.
    { apply pool_inv_advanced. eapply pool_inv_set_desc; eauto.
      exact (desc_ok_pin_range _ _ _ (inv_desc _ H _ _ Hdh)). }
    destruct (decide (clockHand s = j)) as [Heqj|Hne].
    + subst j. assert (dh = d) as -> by congruence.
      apply (IH _ (clockHand s) (with_refbit false d) H1).
      * done.
      * simpl. apply list_lookup_insert_eq. by eapply lookup_lt_Some.
      * destruct Hfree; [congruence|by right].
      * unfold steps_to_choose in *. hand_simpl.
        rewrite Hv, Hr in Hsteps. simpl in Hsteps. simpl (valid _ && refbit _).
        rewrite andb_false_r, (next_hand_eq s H), hand_leaves by done.
        pose proof (Z.mod_pos_bound (clockHand s - clockHand s) (numBufs s)). lia.
    + apply (IH _ j d H1).
      * done.
      * simpl. rewrite list_lookup_insert_ne by lia. done.
      * done.
      * unfold steps_to_choose in *. hand_simpl.
        rewrite (next_hand_eq s H), hand_approaches by done. lia.
  - (* the frame under the hand is pinned: it is not [j] *)
    assert (clockHand s ≠ j) as Hne.
    { intros Heqj. rewrite Heqj in Hdh. assert (dh = d) as -> by congruence.
      destruct Hfree; [congruence|lia]. }
    apply (IH _ j d (pool_inv_advanced s H)); [done..|].
    unfold steps_to_choose in *. hand_simpl.
    rewrite (next_hand_eq s H), hand_approaches by done. lia.
  - eauto.
Qed.

(** A frame that is free or unpinned is enough for [allocBuf] to return a
    frame, in a pool of fewer than [2^31] frames. *)
Lemma allocBuf_finds s :
  pool_inv s → numBufs s < 2 ^ 31 → ¬ all_pinned s →
  ∃ i s' d, allocBuf s = Ok i s' ∧ 0 ≤ i < numBufs s ∧
            bufDescTable s' !! Z.to_nat i = Some d ∧ valid d = false.
Proof.
  intros H Hsmall Hnot. pose proof (inv_numBufs _ H) as Hn.
  unfold all_pinned in Hnot.
  apply not_Forall_Exists in Hnot; [|apply _].
  apply Exists_exists in Hnot as (d & Hin & Hd).
  apply list_elem_of_lookup in Hin as (k & Hk).
  assert (valid d = false ∨ pinCnt d = 0) as Hfree.
  { pose proof (desc_ok_pin_range _ _ _ (inv_desc _ H _ _ Hk)). simpl in Hd.
    destruct (valid d) eqn:Hv; [right|by left].
    destruct (decide (pinCnt d = 0)); [done|]. exfalso. apply Hd. split; [done|lia]. }
  assert (0 ≤ Z.of_nat k < numBufs s) as Hkr.
  { apply lookup_lt_Some in Hk. pose proof (inv_table _ H). lia. }
  destruct (allocBuf_loop_finds (sweep_bound s) (advanced s) (Z.of_nat k) d)
    as (r & s1 & Hloop & Hr); simpl; try done.
  - by apply pool_inv_advanced.
  - by rewrite Nat2Z.id.
  - unfold steps_to_choose, sweep_bound, UINT32_MOD. simpl.
    rewrite (Z.mod_small (2 * numBufs s)) by lia.
    pose proof (Z.mod_pos_bound (Z.of_nat k - next_hand s) (numBufs s)).
    destruct (valid d && refbit d); lia.
  - pose proof (allocBuf_frame s H) as Ha. unfold allocBuf in *. revert Ha.
    run_monad. rewrite advanceClock_eq by lia. fold (sweep_bound s).
    rewrite Hloop. simpl. rewrite decide_False by done.
    intros (H1 & Hi & (d' & Hd' & Hv') & _).
    exists (clockHand s1), s1, d'. split; [done|]. split; [|done].
    destruct (allocBuf_loop_spec (advanced s) (sweep_bound s)
                (pool_inv_advanced s H)); simplify_eq;
      rewrite ?evict_frame_numBufs in Hi;
      match goal with Hsw : swept _ _ _ |- _ =>
        rewrite (sw_numBufs _ _ _ Hsw) in Hi end; done.
Qed.

(** X1.  On a pool of fewer than [2^31] frames that satisfies the pool
    invariant, [allocBuf] throws [BufferExceededException] exactly when
    every frame is occupied and pinned; otherwise it returns a frame, which
    is free on return. *)
Theorem allocBuf_throws_iff_all_pinned s :
  pool_inv s → numBufs s < 2 ^ 31 →
  ((∃ s', allocBuf s = Throw BufferExceededException s') ↔ all_pinned s) ∧
  (¬ all_pinned s →
   ∃ i s' d, allocBuf s = Ok i s' ∧ 0 ≤ i < numBufs s ∧
             bufDescTable s' !! Z.to_nat i = Some d ∧ valid d = false).
Proof.
  intros H Hsmall.
  split; [|by apply allocBuf_finds]. split.
  - intros (s' & Hthrow). destruct (decide (all_pinned s)) as [|Hnot]; [done|].
    destruct (allocBuf_finds s H Hsmall Hnot) as (i & s1 & d & Hok & _).
    congruence.
  - by apply allocBuf_all_pinned.
Qed.

Lemma allocBuf_throws_iff_all_pinned_witness :
  ((∃ s', allocBuf ex_pressure = Throw BufferExceededException s')
   ↔ all_pinned ex_pressure) ∧
  (¬ all_pinned ex_pressure →
   ∃ i s' d, allocBuf ex_pressure = Ok i s' ∧ 0 ≤ i < numBufs ex_pressure ∧
             bufDescTable s' !! Z.to_nat i = Some d ∧ valid d = false).
Proof.
  apply (allocBuf_throws_iff_all_pinned ex_pressure).
  - apply reachable_inv, ex_pressure_reachable.
  - by vm_compute.
Defined.

(** When the frame after the hand is free and the bound is not zero,
    [allocBuf] returns it, having moved the hand and nothing else. *)
Lemma allocBuf_next_free s d :
  0 < numBufs s < UINT32_MOD → numBufs s ≠ 2 ^ 31 →
  bufDescTable s !! Z.to_nat (next_hand s) = Some d → valid d = false →
  allocBuf s = Ok (next_hand s) (advanced s).
Proof.
  intros Hn Hne Hd Hv. unfold allocBuf. run_monad.
  rewrite advanceClock_eq by lia.
  destruct (Z.to_nat ((2 * numBufs s) mod UINT32_MOD)) as [|m] eqn:Hm.
  { exfalso. unfold UINT32_MOD in *.
    assert ((2 * numBufs s) mod 2 ^ 32 = 0) as H0.
    { pose proof (Z.mod_pos_bound (2 * numBufs s) (2 ^ 32)). lia. }
    apply Z.mod_divide in H0 as [q Hq]; [|done].
    change (2 ^ 32) with 4294967296 in *. change (2 ^ 31) with 2147483648 in *.
    lia. }
  simpl. unfold bind. rewrite (allocBuf_body_free (advanced s) d); [done|done|done].
Qed.

(** The two ways through [readPage], as equations. *)
Lemma readPage_hit f p s j d :
  hashTable s !! (f, p) = Some j →
  bufDescTable s !! Z.to_nat j = Some d →
  pinCnt d ≠ INT_MAX →
  readPage f p s
  = Ok j (set_desc j (with_refbit true (with_pinCnt (pinCnt d + 1) d)) s).
Proof.
  intros Hj Hd Hmax. unfold readPage. run_monad. rewrite Hj, Hd.
  rewrite decide_False by done. simpl. rewrite Hd. simpl.
  rewrite list_lookup_insert_eq by (by eapply lookup_lt_Some). simpl.
  unfold set_desc, with_table. simpl. by rewrite list_insert_insert_eq.
Qed.

Lemma readPage_miss f p s i s1 d pg0 bytes :
  hashTable s !! (f, p) = None →
  allocBuf s = Ok i s1 →
  f ≠ NULL →
  disk s1 !! (f, p) = Some bytes →
  bufPool s1 !! Z.to_nat i = Some pg0 →
  bufDescTable s1 !! Z.to_nat i = Some d →
  hashTable s1 !! (f, p) = None →
  readPage f p s = Ok i (loaded i d f p bytes s1).
Proof.
  intros Hnone Ha Hf Hbytes Hpg Hd Hnone1. unfold readPage. run_monad.
  rewrite Hnone, Ha. unfold file_readPage. rewrite decide_False by done.
  rewrite Hbytes. simpl. rewrite Hpg. simpl. rewrite Hd. simpl.
  by rewrite Hnone1.
Qed.

(** The constructor has a defined behaviour for fewer than 894784854
    frames only. *)
Lemma htsize_defined bufs :
  0 ≤ bufs → is_Some (htsize bufs) ↔ bufs < 894784854.
Proof.
  intros Hb. unfold htsize, INT_MAX. change (2 ^ 31) with 2147483648.
  pose proof (Z.div_mod (6 * bufs) 5 ltac:(lia)) as Hdiv.
  pose proof (Z.mod_pos_bound (6 * bufs) 5 ltac:(lia)) as Hmod.
  split.
  - intros [x Hx]. repeat case_decide; try done. lia.
  - intros Hlt. rewrite !decide_True by lia. eauto.
Qed.

Lemma BufMgr_constructor_Some bufs files s0 :
  0 ≤ bufs → BufMgr_constructor bufs files = Some s0 →
  bufs < 894784854 ∧ s0 = BufMgr bufs files.
Proof.
  intros Hb Hc. unfold BufMgr_constructor in Hc.
  destruct (htsize bufs) as [x|] eqn:Hx; [|done]. simplify_eq.
  split; [|done]. apply (htsize_defined bufs Hb). by rewrite Hx.
Qed.

(** What the constructor builds, of one frame or more, is a state from
    which the reachable states are counted. *)
Lemma BufMgr_constructor_reachable bufs files s0 :
  0 < bufs → BufMgr_constructor bufs files = Some s0 → reachable s0.
Proof.
  intros Hb Hc.
  destruct (BufMgr_constructor_Some bufs files s0 ltac:(lia) Hc) as [Hlt ->].
  apply reach_new. unfold UINT32_MOD. change (2 ^ 32) with 4294967296. lia.
Qed.

(** X3.  In a pool of one frame or more that the constructor has just
    built, the first fetch of a page that the file holds goes to frame 0:
    the constructor leaves the hand on the last frame so that the first
    sweep starts at the first.  Nothing is evicted, and the frame holds the
    bytes of the file. *)
Theorem first_fetch_takes_frame_0 bufs files f p bytes s0 :
  0 < bufs → BufMgr_constructor bufs files = Some s0 → f ≠ NULL →
  files !! (f, p) = Some bytes →
  ∃ s', readPage f p s0 = Ok 0 s' ∧
        bufPool s' !! 0%nat = Some (mkPage p bytes) ∧
        bufDescTable s' !! 0%nat = Some (mkBufDesc f p 0 1 false true true) ∧
        hashTable s' = {[ (f, p) := 0 ]} ∧
        clockHand s' = 0 ∧ disk s' = files ∧
        trace s' = [EvAdvanceClock; EvReadPage f p; EvSet 0 f p].
Proof.
  intros Hpos Hc Hf Hbytes.
  destruct (BufMgr_constructor_Some bufs files s0 ltac:(lia) Hc) as [Hlt ->].
  assert (0 < bufs < UINT32_MOD) as Hb
    by (unfold UINT32_MOD; change (2 ^ 32) with 4294967296; lia).
  assert (bufs ≠ 2 ^ 31) as Hne by (change (2 ^ 31) with 2147483648; lia).
  assert (next_hand (BufMgr bufs files) = 0) as Hnext.
  { unfold next_hand. simpl. unfold UINT32_MOD in *.
    change (2 ^ 32) with 4294967296 in *.
    rewrite (Z.mod_small (bufs - 1)) by lia.
    replace (bufs - 1 + 1) with bufs by lia.
    rewrite (Z.mod_small bufs) by lia. by apply Z_mod_same_full. }
  assert (bufDescTable (BufMgr bufs files) !! 0%nat = Some (BufDesc_new 0)) as Hd0.
  { simpl. rewrite list_lookup_fmap. rewrite lookup_seqZ_lt by lia. done. }
  assert (bufPool (BufMgr bufs files) !! 0%nat = Some Page_default) as Hp0.
  { simpl. apply lookup_replicate_2. lia. }
  exists (loaded 0 (BufDesc_new 0) f p bytes (advanced (BufMgr bufs files))).
  split.
  - apply (readPage_miss _ _ _ _ _ _ Page_default); try done.
    rewrite <- Hnext at 1.
    apply (allocBuf_next_free _ (BufDesc_new 0)); try done. by rewrite Hnext.
  - assert (0 < length (bufDescTable (BufMgr bufs files)))%nat
      by (by eapply lookup_lt_Some).
    assert (0 < length (bufPool (BufMgr bufs files)))%nat
      by (by eapply lookup_lt_Some).
    split; [by apply list_lookup_insert_eq|].
    split; [by apply list_lookup_insert_eq|].
    split; [by unfold loaded; simpl; rewrite insert_empty|].
    split; [exact Hnext|]. done.
Qed.

Lemma first_fetch_takes_frame_0_witness :
  ∃ s', readPage 7 2 (BufMgr 3 files0) = Ok 0 s' ∧
        bufPool s' !! 0%nat = Some (mkPage 2 "B") ∧
        bufDescTable s' !! 0%nat = Some (mkBufDesc 7 2 0 1 false true true) ∧
        hashTable s' = {[ (7, 2) := 0 ]} ∧
        clockHand s' = 0 ∧ disk s' = files0 ∧
        trace s' = [EvAdvanceClock; EvReadPage 7 2; EvSet 0 7 2].
Proof.
  apply (first_fetch_takes_frame_0 3 files0 7 2 "B" (BufMgr 3 files0)).
  - lia.
  - reflexivity.
  - done.
  - by vm_compute.
Defined.

(** ** What a sweep that returns a frame has done *)

(** The frame [i] that [allocBuf] returns was free, or it held a page that
    nobody had pinned, which the sweep has evicted. *)
Lemma allocBuf_Ok_cases s i s' d0 :
  pool_inv s → allocBuf s = Ok i s' →
  bufDescTable s !! Z.to_nat i = Some d0 →
  ∃ k s1 d,
    (k < sweep_bound s)%nat ∧ swept (advanced s) k s1 ∧ pool_inv s1 ∧
    clockHand s1 = i ∧ bufDescTable s1 !! Z.to_nat i = Some d ∧
    same_but_refbit d0 d ∧
    ((valid d0 = false ∧ s' = s1) ∨
     (valid d0 = true ∧ pinCnt d0 = 0 ∧ refbit d = false ∧
      ∃ pg, bufPool s !! Z.to_nat i = Some pg ∧ s' = evict_frame i d pg s1)).
Proof.
  intros H Ha Hd0. pose proof (allocBuf_spec s H) as Hout. revert Ha.
  destruct Hout as [s1 Hsw H1|k s1 d Hk Hsw H1 Hd Hv Hb
                    |k s1 d pg Hk Hsw H1 Hd Hpg Hv Hrb Hp Hb];
    intros Ha; simplify_eq;
    destruct (Forall2_lookup_l _ _ _ _ _ (sw_table _ _ _ Hsw) Hd0)
      as (d' & Hd' & Hsame);
    assert (d' = d) as -> by congruence;
    destruct (same_but_refbit_fields _ _ Hsame) as (Ev & Ep & _).
  - exists k, s', d. do 6 (split; [done|]).
    left. split; [congruence|done].
  - exists k, s1, d. do 6 (split; [done|]).
    right. split; [congruence|]. split; [congruence|]. split; [done|].
    exists pg. split; [|done].
    change (bufPool s) with (bufPool (advanced s)).
    by rewrite <- (sw_pool _ _ _ Hsw).
Qed.

(** ** Fetching and releasing a resident page *)

Lemma unPinPage_hit f p b s j d :
  hashTable s !! (f, p) = Some j →
  bufDescTable s !! Z.to_nat j = Some d →
  0 < pinCnt d →
  unPinPage f p b s
  = Ok tt (set_desc j (if b then with_dirty true (with_pinCnt (pinCnt d - 1) d)
                       else with_pinCnt (pinCnt d - 1) d) s).
Proof.
  intros Hj Hd Hpin. unfold unPinPage. run_monad. rewrite Hj, Hd.
  destruct (Z.leb_spec (pinCnt d) 0); [lia|]. simpl. rewrite Hd. simpl.
  destruct b; [|done]. simpl.
  rewrite list_lookup_insert_eq by (by eapply lookup_lt_Some). simpl.
  unfold set_desc, with_table. simpl. by rewrite list_insert_insert_eq.
Qed.

(** X4.  A fetch of a page that is resident returns the frame that holds
    it, with one more pin and the reference bit set, unless the pin count
    is at [INT_MAX], where the increment has no defined behaviour.  The
    release that follows takes the pool back to where it was, but for the
    reference bit and, if the page is released as modified, the dirty
    flag: no call to the file, no move of the hand. *)
Theorem fetch_release_resident f p j s :
  pool_inv s → hashTable s !! (f, p) = Some j →
  ∃ d, bufDescTable s !! Z.to_nat j = Some d ∧
    (pinCnt d = INT_MAX → readPage f p s = Undefined) ∧
    (pinCnt d < INT_MAX →
     ∃ s1, readPage f p s = Ok j s1 ∧
       bufDescTable s1 !! Z.to_nat j
         = Some (with_refbit true (with_pinCnt (pinCnt d + 1) d)) ∧
       ∀ b, unPinPage f p b s1
            = Ok tt (set_desc j (with_refbit true
                                   (if b then with_dirty true d else d)) s)).
Proof.
  intros H Hj. destruct (inv_hash _ H _ _ _ Hj) as (Hj0 & d & Hd & Hv & Hf & Hp).
  pose proof (desc_ok_pin_range _ _ _ (inv_desc _ H _ _ Hd)) as Hpin.
  exists d. split; [done|]. split.
  - intros Hmax. unfold readPage. run_monad. rewrite Hj, Hd.
    by rewrite decide_True.
  - intros Hmax. eexists. split; [apply (readPage_hit f p s j d); [done|done|lia]|].
    assert (Z.to_nat j < length (bufDescTable s))%nat by (by eapply lookup_lt_Some).
    split; [by apply list_lookup_insert_eq|].
    intros b.
    rewrite (unPinPage_hit f p b _ j (with_refbit true (with_pinCnt (pinCnt d + 1) d)));
      [|done|by apply list_lookup_insert_eq|simpl; lia].
    f_equal. unfold set_desc, with_table. simpl. rewrite list_insert_insert_eq.
    do 2 f_equal. destruct d, b; unfold with_refbit, with_dirty, with_pinCnt; simpl;
      f_equal; lia.
Qed.

Lemma fetch_release_resident_witness :
  ∃ d, bufDescTable ex_released !! Z.to_nat 0 = Some d ∧
    (pinCnt d = INT_MAX → readPage 7 1 ex_released = Undefined) ∧
    (pinCnt d < INT_MAX →
     ∃ s1, readPage 7 1 ex_released = Ok 0 s1 ∧
       bufDescTable s1 !! Z.to_nat 0
         = Some (with_refbit true (with_pinCnt (pinCnt d + 1) d)) ∧
       ∀ b, unPinPage 7 1 b s1
            = Ok tt (set_desc 0 (with_refbit true
                                   (if b then with_dirty true d else d))
                       ex_released)).
Proof.
  apply (fetch_release_resident 7 1 0 ex_released).
  - apply reachable_inv, ex_released_reachable.
  - by vm_compute.
Defined.

(** ** Evictions without a write *)

(** X5.  When the frame that [allocBuf] returns was not dirty, the sweep
    has made no call to a file: the files and the frame contents are as
    before, and the calls made are the moves of the hand, followed by the
    one [Clear] if the frame held a page. *)
Theorem allocBuf_clean_frame_no_write s i s' d0 :
  pool_inv s → allocBuf s = Ok i s' →
  bufDescTable s !! Z.to_nat i = Some d0 → dirty d0 = false →
  disk s' = disk s ∧ bufPool s' = bufPool s ∧
  ∃ k : nat, (k < sweep_bound s)%nat ∧
    trace s' = trace s ++ replicate (S k) EvAdvanceClock
                 ++ (if valid d0 then [EvClear i] else []).
Proof.
  intros H Ha Hd0 Hclean.
  destruct (allocBuf_Ok_cases s i s' d0 H Ha Hd0)
    as (k & s1 & d & Hk & Hsw & H1 & Hh & Hd & Hsame & Hcase).
  destruct (same_but_refbit_fields _ _ Hsame) as (Ev & Ep & Ef & Epg & Edirty & _).
  pose proof (sw_trace _ _ _ Hsw) as Htr. simpl in Htr.
  rewrite <- app_assoc in Htr. simpl in Htr.
  destruct Hcase as [(Hv & ->)|(Hv & Hp & Hr & pg & Hpg & ->)].
  - split; [apply (sw_disk _ _ _ Hsw)|]. split; [apply (sw_pool _ _ _ Hsw)|].
    exists k. split; [done|]. rewrite Hv, app_nil_r. done.
  - rewrite evict_frame_disk, evict_frame_pool, evict_frame_trace, Edirty, Hclean.
    split; [apply (sw_disk _ _ _ Hsw)|]. split; [apply (sw_pool _ _ _ Hsw)|].
    exists k. split; [done|]. rewrite Hv, Htr. simpl. by rewrite <- app_assoc.
Qed.

Lemma allocBuf_clean_frame_no_write_witness :
  disk ex_clean_evicted = disk ex_clean_full ∧
  bufPool ex_clean_evicted = bufPool ex_clean_full ∧
  ∃ k : nat, (k < sweep_bound ex_clean_full)%nat ∧
    trace ex_clean_evicted
    = trace ex_clean_full ++ replicate (S k) EvAdvanceClock
        ++ (if valid (mkBufDesc 7 1 0 0 false true true) then [EvClear 0] else []).
Proof.
  apply (allocBuf_clean_frame_no_write ex_clean_full 0 ex_clean_evicted
           (mkBufDesc 7 1 0 0 false true true)).
  - apply reachable_inv, (ex_reachable ex_calls_clean_full). by vm_compute.
  - by vm_compute.
  - by vm_compute.
  - done.
Defined.

(** ** A fetch of a page that the file does not have *)

(** X6.  A fetch of a page that is neither resident nor in the file throws
    [InvalidPageException] only after [allocBuf] has returned a frame: the
    pool is left as the sweep left it.  The frame is free, and the page it
    held, if any, is out of the index. *)
Theorem readPage_missing_page_evicts f p s :
  pool_inv s → numBufs s < 2 ^ 31 → f ≠ NULL →
  disk s !! (f, p) = None → ¬ all_pinned s →
  ∃ i s1 d1, allocBuf s = Ok i s1 ∧
    readPage f p s = Throw (InvalidPageException p f) s1 ∧
    bufDescTable s1 !! Z.to_nat i = Some d1 ∧ valid d1 = false ∧
    ∀ d0, bufDescTable s !! Z.to_nat i = Some d0 → valid d0 = true →
          hashTable s !! (file d0, pageNo d0) = Some i ∧
          hashTable s1 !! (file d0, pageNo d0) = None.
Proof.
  intros H Hsmall Hf Hdisk Hnot.
  assert (hashTable s !! (f, p) = None) as Hnone.
  { destruct (hashTable s !! (f, p)) eqn:E; [|done].
    destruct (pool_inv_hash_disk s (f, p) H) as [x Hx]; [by rewrite E|].
    congruence. }
  destruct (allocBuf_finds s H Hsmall Hnot) as (i & s1 & d1 & Ha & Hi & Hd1 & Hv1).
  exists i, s1, d1. split; [done|]. split; [|split; [done|split; [done|]]].
  - unfold readPage. run_monad. rewrite Hnone, Ha. unfold file_readPage.
    rewrite decide_False by done.
    rewrite (allocBuf_disk_unindexed s s1 (f, p) H) by (by rewrite ?Ha).
    by rewrite Hdisk.
  - intros d0 Hd0 Hv0.
    pose proof (ok_hash _ _ _ (inv_desc _ H _ _ Hd0) Hv0) as Hh.
    rewrite Z2Nat.id in Hh by lia. split; [done|].
    destruct (allocBuf_Ok_cases s i s1 d0 H Ha Hd0)
      as (k & s2 & d & Hk & Hsw & H2 & Hh2 & Hd & Hsame & Hcase).
    destruct (same_but_refbit_fields _ _ Hsame) as (Ev & Ep & Ef & Epg & _).
    destruct Hcase as [(Hv & ->)|(Hv & Hp & Hr & pg & Hpg & ->)]; [congruence|].
    rewrite evict_frame_hash, Ef, Epg. apply lookup_delete_eq.
Qed.

Lemma readPage_missing_page_evicts_witness :
  ∃ i s1 d1, allocBuf ex_pressure = Ok i s1 ∧
    readPage 7 9 ex_pressure = Throw (InvalidPageException 9 7) s1 ∧
    bufDescTable s1 !! Z.to_nat i = Some d1 ∧ valid d1 = false ∧
    ∀ d0, bufDescTable ex_pressure !! Z.to_nat i = Some d0 → valid d0 = true →
          hashTable ex_pressure !! (file d0, pageNo d0) = Some i ∧
          hashTable s1 !! (file d0, pageNo d0) = None.
Proof.
  apply (readPage_missing_page_evicts 7 9 ex_pressure).
  - apply reachable_inv, ex_pressure_reachable.
  - by vm_compute.
  - done.
  - by vm_compute.
  - intros HF. vm_compute in HF. inversion HF as [|? ? [_ Hp] _]. discriminate Hp.
Defined.

(** ** A fetch when there is room *)

(** X7.  In a pool of fewer than [2^31] frames in which some frame is free
    or unpinned, a fetch of a page that is in the file and not resident
    returns: the frame it returns holds the bytes that the file has for the
    page, the index maps the page to the frame, and the page is pinned
    once, not dirty, with its reference bit set. *)
Theorem readPage_succeeds_with_room f p bytes s :
  pool_inv s → numBufs s < 2 ^ 31 → f ≠ NULL →
  hashTable s !! (f, p) = None → disk s !! (f, p) = Some bytes →
  ¬ all_pinned s →
  ∃ i s' d, readPage f p s = Ok i s' ∧ 0 ≤ i < numBufs s ∧
    bufPool s' !! Z.to_nat i = Some (mkPage p bytes) ∧
    hashTable s' !! (f, p) = Some i ∧
    bufDescTable s' !! Z.to_nat i = Some (Set_ d f p) ∧
    disk s' !! (f, p) = Some bytes.
Proof.
  intros H Hsmall Hf Hnone Hbytes Hnot.
  destruct (allocBuf_finds s H Hsmall Hnot) as (i & s1 & d1 & Ha & Hi & Hd1 & Hv1).
  pose proof (allocBuf_frame s H) as Hfr. rewrite Ha in Hfr.
  destruct Hfr as (H1 & Hi1 & _ & Hhash & _).
  destruct (pool_inv_lookup s1 i H1 Hi1) as (d' & pg & Hd' & Hpg).
  assert (disk s1 !! (f, p) = Some bytes) as Hbytes1.
  { by rewrite (allocBuf_disk_unindexed s s1 (f, p) H) by (by rewrite ?Ha). }
  exists i, (loaded i d1 f p bytes s1), d1.
  split; [by apply (readPage_miss f p s i s1 d1 pg); auto|].
  split; [done|].
  assert (Z.to_nat i < length (bufDescTable s1))%nat by (by eapply lookup_lt_Some).
  assert (Z.to_nat i < length (bufPool s1))%nat by (by eapply lookup_lt_Some).
  split; [by apply list_lookup_insert_eq|].
  split; [apply lookup_insert_eq|].
  split; [by apply list_lookup_insert_eq|done].
Qed.

Lemma readPage_succeeds_with_room_witness :
  ∃ i s' d, readPage 7 4 ex_pressure = Ok i s' ∧ 0 ≤ i < numBufs ex_pressure ∧
    bufPool s' !! Z.to_nat i = Some (mkPage 4 "D") ∧
    hashTable s' !! (7, 4) = Some i ∧
    bufDescTable s' !! Z.to_nat i = Some (Set_ d 7 4) ∧
    disk s' !! (7, 4) = Some "D".
Proof.
  apply (readPage_succeeds_with_room 7 4 "D" ex_pressure).
  - apply reachable_inv, ex_pressure_reachable.
  - by vm_compute.
  - done.
  - by vm_compute.
  - by vm_compute.
  - intros HF. vm_compute in HF. inversion HF as [|? ? [_ Hp] _]. discriminate Hp.
Defined.

(** ** [allocPage] when a frame is found *)

Lemma allocPage_Ok f s i s1 d pg0 :
  f ≠ NULL →
  allocBuf (allocated f s) = Ok i s1 →
  hashTable s1 !! (f, last_page f (disk s) + 1) = None →
  bufDescTable s1 !! Z.to_nat i = Some d →
  bufPool s1 !! Z.to_nat i = Some pg0 →
  allocPage f s
  = Ok (last_page f (disk s) + 1, i)
       (installed i d f (last_page f (disk s) + 1) s1).
Proof.
  intros Hf Ha Hnone Hd Hpg. unfold allocPage. unfold bind at 1.
  rewrite file_allocatePage_eq by done. unfold bind at 1. rewrite Ha.
  run_monad. rewrite Hnone. simpl. rewrite Hd. simpl. by rewrite Hpg.
Qed.

(** X8.  When the sweep that [allocPage] starts returns a frame, the call
    returns a page number that the file did not have, and that frame: the
    file now has the page, empty; the frame holds it; the index maps the
    page to the frame; and the page is pinned once, not dirty, with its
    reference bit set. *)
Theorem allocPage_returns_new_pinned_page f s i s1 :
  pool_inv s → f ≠ NULL →
  allocBuf (allocated f s) = Ok i s1 →
  let p := last_page f (disk s) + 1 in
  ∃ s' d, allocPage f s = Ok (p, i) s' ∧
    disk s !! (f, p) = None ∧
    disk s' !! (f, p) = Some "" ∧
    hashTable s' !! (f, p) = Some i ∧
    bufPool s' !! Z.to_nat i = Some (mkPage p "") ∧
    bufDescTable s' !! Z.to_nat i = Some (Set_ d f p) ∧
    pool_inv s'.
Proof.
  intros H Hf Ha p.
  assert (disk s !! (f, p) = None) as Hfresh by apply last_page_fresh.
  assert (hashTable (allocated f s) !! (f, p) = None) as Hnone.
  { simpl. destruct (hashTable s !! (f, p)) eqn:E; [|done].
    destruct (pool_inv_hash_disk s (f, p) H) as [x Hx]; [by rewrite E|].
    congruence. }
  pose proof (pool_inv_allocated f s H) as H0.
  pose proof (allocBuf_frame _ H0) as Hfr. rewrite Ha in Hfr.
  destruct Hfr as (H1 & Hi & (d & Hd & Hv) & Hhash & Hdisk).
  destruct (pool_inv_lookup s1 i H1 Hi) as (d' & pg & Hd' & Hpg).
  assert (d' = d) as -> by congruence.
  exists (installed i d f p s1), d.
  split; [by apply (allocPage_Ok f s i s1 d pg); auto|].
  split; [done|].
  assert (Z.to_nat i < length (bufDescTable s1))%nat by (by eapply lookup_lt_Some).
  assert (Z.to_nat i < length (bufPool s1))%nat by (by eapply lookup_lt_Some).
  split.
  { change (disk (installed i d f p s1)) with (disk s1).
    rewrite (allocBuf_disk_unindexed (allocated f s) s1 (f, p) H0)
      by (by rewrite ?Ha).
    simpl. apply lookup_insert_eq. }
  split; [apply lookup_insert_eq|].
  split; [by apply list_lookup_insert_eq|].
  split; [by apply list_lookup_insert_eq|].
  pose proof (allocPage_inv f s H) as Hinv.
  by rewrite (allocPage_Ok f s i s1 d pg) in Hinv by auto.
Qed.

Lemma allocPage_returns_new_pinned_page_witness :
  let p := last_page 8 (disk ex_released) + 1 in
  ∃ s' d, allocPage 8 ex_released = Ok (p, 1) s' ∧
    disk ex_released !! (8, p) = None ∧
    disk s' !! (8, p) = Some "" ∧
    hashTable s' !! (8, p) = Some 1 ∧
    bufPool s' !! Z.to_nat 1 = Some (mkPage p "") ∧
    bufDescTable s' !! Z.to_nat 1 = Some (Set_ d 8 p) ∧
    pool_inv s'.
Proof.
  apply (allocPage_returns_new_pinned_page 8 ex_released 1 ex_released_swept).
  - apply reachable_inv, ex_released_reachable.
  - done.
  - by vm_compute.
Defined.

(** ** [disposePage] *)

(** X9.  [disposePage] deletes the page from the file first; if the file
    does not have it, the call throws [InvalidPageException] and the pool
    is as before.  Otherwise a frame that holds the page is cleared and
    taken out of the index whatever its pin count and dirty flag: nothing
    is written back, and a release of the page afterwards does nothing. *)
Theorem disposePage_discards_frame f p s :
  pool_inv s → f ≠ NULL →
  (disk s !! (f, p) = None →
   disposePage f p s = Throw (InvalidPageException p f) s) ∧
  (is_Some (disk s !! (f, p)) →
   ∃ s', disposePage f p s = Ok tt s' ∧
     disk s' = delete (f, p) (disk s) ∧
     hashTable s' = delete (f, p) (hashTable s) ∧
     bufPool s' = bufPool s ∧
     (∀ b, unPinPage f p b s' = Ok tt s') ∧
     match hashTable s !! (f, p) with
     | Some j =>
         ∃ d, bufDescTable s !! Z.to_nat j = Some d ∧
              bufDescTable s' = <[Z.to_nat j := Clear d]> (bufDescTable s) ∧
              trace s' = trace s ++ [EvDeletePage f p; EvClear j]
     | None =>
         bufDescTable s' = bufDescTable s ∧
         trace s' = trace s ++ [EvDeletePage f p]
     end).
Proof.
  intros H Hf. split.
  - intros Hnone. unfold disposePage. unfold bind at 1. unfold file_deletePage.
    rewrite decide_False by done. by rewrite Hnone.
  - intros [x Hx]. unfold disposePage. unfold bind at 1. unfold file_deletePage.
    rewrite decide_False by done. rewrite Hx. run_monad.
    destruct (hashTable s !! (f, p)) as [j|] eqn:Hj; simpl.
    + destruct (inv_hash _ H _ _ _ Hj) as (Hj0 & d & Hd & Hv & Ef & Ep).
      rewrite Hj. simpl. rewrite Hd. simpl.
      eexists. split; [done|]. simpl. do 3 (split; [done|]).
      split.
      * intros b. unfold unPinPage. run_monad. by rewrite lookup_delete_eq.
      * exists d. split; [done|]. split; [done|]. by rewrite <- app_assoc.
    + eexists. split; [done|]. simpl. split; [done|].
      split; [by rewrite delete_id|]. split; [done|]. split; [|done].
      intros b. unfold unPinPage. run_monad. by rewrite Hj.
Qed.

Lemma disposePage_discards_frame_witness :
  (disk ex_dirty !! (7, 1) = None →
   disposePage 7 1 ex_dirty = Throw (InvalidPageException 1 7) ex_dirty) ∧
  (is_Some (disk ex_dirty !! (7, 1)) →
   ∃ s', disposePage 7 1 ex_dirty = Ok tt s' ∧
     disk s' = delete (7, 1) (disk ex_dirty) ∧
     hashTable s' = delete (7, 1) (hashTable ex_dirty) ∧
     bufPool s' = bufPool ex_dirty ∧
     (∀ b, unPinPage 7 1 b s' = Ok tt s') ∧
     match hashTable ex_dirty !! (7, 1) with
     | Some j =>
         ∃ d, bufDescTable ex_dirty !! Z.to_nat j = Some d ∧
              bufDescTable s' = <[Z.to_nat j := Clear d]> (bufDescTable ex_dirty) ∧
              trace s' = trace ex_dirty ++ [EvDeletePage 7 1; EvClear j]
     | None =>
         bufDescTable s' = bufDescTable ex_dirty ∧
         trace s' = trace ex_dirty ++ [EvDeletePage 7 1]
     end).
Proof.
  apply (disposePage_discards_frame 7 1 ex_dirty).
  - apply reachable_inv, (ex_reachable
      [OpReadPage 7 1; OpUnPinPage 7 1 true; OpReadPage 7 1]). by vm_compute.
  - done.
Defined.

(** ** The destructor *)

Lemma destructor_body_spec i s d pg :
  pool_inv s →
  bufDescTable s !! Z.to_nat i = Some d →
  bufPool s !! Z.to_nat i = Some pg →
  destructor_body i s = Ok tt (write_back d pg s).
Proof.
  intros H Hd Hpg. unfold destructor_body, write_back. run_monad. rewrite Hd.
  destruct (inv_desc _ H _ _ Hd) as [Hpin Hfree Hfile Hhash Hpage Hdisk].
  destruct (dirty d) eqn:Hdirty; [|done].
  destruct (valid d) eqn:Hv; [|by rewrite (Hfree eq_refl) in Hdirty].
  rewrite Hpg. unfold file_writePage. rewrite decide_False by auto.
  destruct (Hpage eq_refl) as (pg' & Hpg' & Hnum).
  assert (pg' = pg) as -> by congruence.
  rewrite Hnum. destruct (Hdisk eq_refl) as [x ->].
  unfold written. by rewrite Hnum.
Qed.

Lemma pool_inv_write_back d pg s : pool_inv s → pool_inv (write_back d pg s).
Proof. intros H. unfold write_back. destruct (dirty d); [by apply pool_inv_written|done]. Qed.

(** Two frames that hold the same page are one frame. *)
Lemma pool_inv_one_frame s i j d d' :
  pool_inv s →
  bufDescTable s !! i = Some d → bufDescTable s !! j = Some d' →
  valid d = true → valid d' = true →
  (file d, pageNo d) = (file d', pageNo d') → i = j.
Proof.
  intros H Hd Hd' Hv Hv' Hkey.
  pose proof (ok_hash _ _ _ (inv_desc _ H _ _ Hd) Hv) as Hh.
  pose proof (ok_hash _ _ _ (inv_desc _ H _ _ Hd') Hv') as Hh'.
  rewrite Hkey in Hh. rewrite Hh in Hh'. simplify_eq. lia.
Qed.

Lemma pool_inv_dirty_valid s i d :
  pool_inv s → bufDescTable s !! i = Some d → dirty d = true → valid d = true.
Proof.
  intros H Hd Hdirty. destruct (valid d) eqn:Hv; [done|].
  by rewrite (ok_free _ _ _ (inv_desc _ H _ _ Hd) Hv) in Hdirty.
Qed.

Lemma destructor_loop_spec n : ∀ i s,
  pool_inv s →
  (i + n = length (bufDescTable s))%nat →
  ∃ s', destructor_loop (Z.of_nat i) n s = Ok tt s' ∧
        pool_inv s' ∧ bufDescTable s' = bufDescTable s ∧
        bufPool s' = bufPool s ∧ hashTable s' = hashTable s ∧
        clockHand s' = clockHand s ∧
        trace s' = trace s ++ destructor_events (drop i (bufDescTable s))
                                                (drop i (bufPool s)) ∧
        (∀ k d pg, (i ≤ k)%nat →
           bufDescTable s !! k = Some d → bufPool s !! k = Some pg →
           dirty d = true → disk s' !! (file d, pageNo d) = Some (data pg)) ∧
        (∀ key, (∀ k d, (i ≤ k)%nat → bufDescTable s !! k = Some d →
                        dirty d = true → (file d, pageNo d) ≠ key) →
                disk s' !! key = disk s !! key).
Proof.
  induction n as [|n IH]; intros i s H Hlen; simpl.
  - exists s. split; [done|]. do 5 (split; [done|]). split; [|split; [|done]].
    + rewrite drop_ge by lia. simpl. by rewrite app_nil_r.
    + intros k d pg Hik Hk. apply lookup_lt_Some in Hk. lia.
  - unfold bind.
    destruct (pool_inv_lookup s (Z.of_nat i) H) as (d & pg & Hd & Hpg).
    { pose proof (inv_table _ H). lia. }
    rewrite (destructor_body_spec _ s d pg H Hd Hpg).
    rewrite Nat2Z.id in Hd, Hpg.
    rewrite (drop_S _ _ _ Hd), (drop_S _ _ _ Hpg). simpl.
    replace (Z.of_nat i + 1) with (Z.of_nat (S i)) by lia.
    assert (bufDescTable (write_back d pg s) = bufDescTable s) as Et1
      by (unfold write_back; by destruct (dirty d)).
    assert (bufPool (write_back d pg s) = bufPool s) as Ep1
      by (unfold write_back; by destruct (dirty d)).
    assert (hashTable (write_back d pg s) = hashTable s) as Eh1
      by (unfold write_back; by destruct (dirty d)).
    assert (clockHand (write_back d pg s) = clockHand s) as Ec1
      by (unfold write_back; by destruct (dirty d)).
    assert (trace (write_back d pg s)
            = trace s ++ (if dirty d then [EvWritePage (file d) pg] else [])) as Etr1.
    { unfold write_back. destruct (dirty d); [done|]. by rewrite app_nil_r. }
    assert (disk (write_back d pg s)
            = if dirty d then <[(file d, page_number pg) := data pg]> (disk s)
              else disk s) as Ed1
      by (unfold write_back; by destruct (dirty d)).
    destruct (IH (S i) (write_back d pg s))
      as (s' & Hrun & H' & Et & Ep & Eh & Ec & Etr & Hw & Hk).
    { by apply pool_inv_write_back. }
    { rewrite Et1. lia. }
    rewrite Et1, Ep1 in Etr, Hw. rewrite Et1 in Hk.
    exists s'. split; [done|]. split; [done|].
    split; [congruence|]. split; [congruence|]. split; [congruence|].
    split; [congruence|]. split; [|split].
    + by rewrite Etr, Etr1, <- app_assoc.
    + intros k dk pgk Hik Hdk Hpgk Hdirty.
      destruct (decide (k = i)) as [->|Hne]; [|apply (Hw k dk pgk); [lia|done..]].
      assert (dk = d) as -> by congruence. assert (pgk = pg) as -> by congruence.
      pose proof (pool_inv_dirty_valid s i d H Hd Hdirty) as Hv.
      rewrite Hk.
      * rewrite Ed1, Hdirty.
        destruct (ok_page _ _ _ (inv_desc _ H _ _ Hd) Hv) as (pg' & Hpg' & Hnum).
        assert (pg' = pg) as -> by congruence.
        rewrite Hnum. apply lookup_insert_eq.
      * intros k dk Hik' Hdk' Hdirtyk Hkey.
        pose proof (pool_inv_dirty_valid s k dk H Hdk' Hdirtyk) as Hvk.
        pose proof (pool_inv_one_frame s k i dk d H Hdk' Hd Hvk Hv Hkey). lia.
    + intros key Hkey. rewrite Hk.
      * rewrite Ed1. destruct (dirty d) eqn:Hdirty; [|done].
        pose proof (pool_inv_dirty_valid s i d H Hd Hdirty) as Hv.
        destruct (ok_page _ _ _ (inv_desc _ H _ _ Hd) Hv) as (pg' & Hpg' & Hnum).
        assert (pg' = pg) as -> by congruence.
        rewrite Hnum. apply lookup_insert_ne. by apply (Hkey i d).
      * intros k dk Hik' Hdk Hdirtyk. apply (Hkey k dk); [lia|done..].
Qed.

(** X10.  On a pool that satisfies the invariant the destructor returns: it
    calls [writePage] once for every dirty frame, in the order of the
    frames, and nothing else.  Afterwards the file holds, for the page of
    each dirty frame, the bytes of that frame, and what the files hold for
    every other page is as before. *)
Theorem destructor_writes_back_dirty_frames s :
  pool_inv s →
  ∃ s', BufMgr_destructor s = Ok tt s' ∧
        trace s' = trace s ++ destructor_events (bufDescTable s) (bufPool s) ∧
        (∀ k d pg,
           bufDescTable s !! k = Some d → bufPool s !! k = Some pg →
           dirty d = true → disk s' !! (file d, pageNo d) = Some (data pg)) ∧
        (∀ key, (∀ k d, bufDescTable s !! k = Some d →
                        dirty d = true → (file d, pageNo d) ≠ key) →
                disk s' !! key = disk s !! key).
Proof.
  intros H. unfold BufMgr_destructor. run_monad.
  destruct (destructor_loop_spec (Z.to_nat (numBufs s)) 0 s H)
    as (s' & Hrun & _ & _ & _ & _ & _ & Etr & Hw & Hk).
  { pose proof (inv_table _ H). lia. }
  exists s'. split; [done|]. split; [done|]. split.
  - intros k d pg. apply Hw. lia.
  - intros key Hkey. apply Hk. intros k d _. apply Hkey.
Qed.

Lemma destructor_writes_back_dirty_frames_witness :
  ∃ s', BufMgr_destructor ex_pressure = Ok tt s' ∧
        trace s' = trace ex_pressure
                   ++ destructor_events (bufDescTable ex_pressure)
                                        (bufPool ex_pressure) ∧
        (∀ k d pg,
           bufDescTable ex_pressure !! k = Some d →
           bufPool ex_pressure !! k = Some pg →
           dirty d = true → disk s' !! (file d, pageNo d) = Some (data pg)) ∧
        (∀ key, (∀ k d, bufDescTable ex_pressure !! k = Some d →
                        dirty d = true → (file d, pageNo d) ≠ key) →
                disk s' !! key = disk ex_pressure !! key).
Proof.
  apply (destructor_writes_back_dirty_frames ex_pressure).
  apply reachable_inv, ex_pressure_reachable.
Defined.

(** ** [flushFile] on a file with a pinned page *)

Lemma flushFile_loop_pinned f m j d n : ∀ i s,
  pool_inv s →
  (i + n = j)%nat → (j + S m = length (bufDescTable s))%nat →
  bufDescTable s !! j = Some d → owned f d → 0 < pinCnt d →
  (∀ k dk, (i ≤ k < j)%nat → bufDescTable s !! k = Some dk → owned f dk →
           pinCnt dk = 0) →
  ∃ s', flushFile_loop f (Z.of_nat i) (n + S m) s
        = Throw (PagePinnedException f (pageNo d) (Z.of_nat j)) s' ∧
        pool_inv s' ∧ bufPool s' = bufPool s ∧
        trace s' = trace s ++ flush_events f i (take n (drop i (bufDescTable s)))
                                               (drop i (bufPool s)) ∧
        (∀ k dk, bufDescTable s !! k = Some dk →
           bufDescTable s' !! k
             = Some (if decide ((i ≤ k < j)%nat ∧ owned f dk) then Clear dk else dk)).
Proof.
  induction n as [|n IH]; intros i s H Hij Hlen Hd Ho Hp Hunpinned; simpl.
  - assert (i = j) as -> by lia. unfold bind.
    destruct Ho as [Hv Hf].
    rewrite (flushFile_body_pinned f (Z.of_nat j) s d); try done.
    + exists s. split; [done|]. split; [done|]. split; [done|]. split.
      * by rewrite app_nil_r.
      * intros k dk Hk. rewrite decide_False; [done|]. intros [? _]. lia.
    + by rewrite Nat2Z.id.
    + rewrite <- Hf. by apply (ok_file _ _ _ (inv_desc _ H _ _ Hd)).
  - unfold bind.
    destruct (flushFile_body_spec f (Z.of_nat i) s H) as (di & pg & Hdi & Hpg & Hcase).
    { pose proof (inv_table _ H). lia. }
    rewrite Nat2Z.id in Hdi, Hpg.
    rewrite (drop_S _ _ _ Hdi), (drop_S _ _ _ Hpg). simpl.
    replace (Z.of_nat i + 1) with (Z.of_nat (S i)) by lia.
    inversion Hcase as [Hskip Heq|Hv Hf Hpi Heq|Hv Hf Hpi Heq].
    + destruct (IH (S i) s H) as (s' & Hrun & H' & Ep & Et & Etab);
        [lia|done|done|done|done
        |intros k dk Hk Hdk Hok; apply (Hunpinned k dk); [lia|done..]|].
      exists s'. split; [done|]. do 2 (split; [done|]). split.
      * rewrite Et. rewrite decide_False; [done|]. unfold owned. intros [Hv Hf].
        destruct Hskip; congruence.
      * intros k dk Hk. rewrite (Etab k dk Hk).
        destruct (decide (k = i)) as [->|Hne].
        -- assert (dk = di) as -> by congruence.
           rewrite !decide_False; [done|..]; unfold owned.
           ++ intros [_ [Hv Hf]]. destruct Hskip; congruence.
           ++ intros [Hlt _]. lia.
        -- destruct (decide ((S i ≤ k < j)%nat ∧ owned f dk)) as [[Hle Hok]|Hno].
           ++ rewrite decide_True; [done|]. split; [lia|done].
           ++ rewrite decide_False; [done|]. intros [Hle Hok]. apply Hno.
              split; [lia|done].
    + specialize (Hunpinned i di ltac:(lia) Hdi (conj Hv Hf)). lia.
    + assert (bufDescTable (evict_frame (Z.of_nat i) di pg s)
              = <[i := Clear di]> (bufDescTable s)) as Etab1.
      { by rewrite evict_frame_table, Nat2Z.id. }
      destruct (IH (S i) (evict_frame (Z.of_nat i) di pg s))
        as (s' & Hrun & H' & Ep & Et & Etab).
      * apply pool_inv_evict_frame; [done| |done]. by rewrite Nat2Z.id.
      * lia.
      * rewrite Etab1, length_insert. lia.
      * rewrite Etab1, list_lookup_insert_ne by lia. done.
      * done.
      * done.
      * intros k dk Hk Hdk Hok. rewrite Etab1, list_lookup_insert_ne in Hdk by lia.
        apply (Hunpinned k dk); [lia|done..].
      * exists s'. split; [done|]. split; [done|].
        rewrite evict_frame_pool in Ep. split; [done|]. split.
        -- rewrite Et, evict_frame_trace, Etab1, evict_frame_pool.
           rewrite drop_insert_lt by lia. rewrite decide_True by done.
           rewrite Hf. by rewrite <- !app_assoc.
        -- intros k dk Hk. destruct (decide (k = i)) as [->|Hne].
           ++ assert (dk = di) as -> by congruence.
              rewrite (Etab i (Clear di)).
              ** rewrite decide_False by (intros [_ [Hc _]]; done).
                 rewrite decide_True; [done|]. split; [lia|done].
              ** rewrite Etab1. apply list_lookup_insert_eq.
                 by eapply lookup_lt_Some.
           ++ rewrite (Etab k dk) by (by rewrite Etab1, list_lookup_insert_ne).
              destruct (decide ((S i ≤ k < j)%nat ∧ owned f dk)) as [[Hle Hok]|Hno].
              ** rewrite decide_True; [done|]. split; [lia|done].
              ** rewrite decide_False; [done|]. intros [Hle Hok]. apply Hno.
                 split; [lia|done].
Qed.

(** X11.  When a page of file [f] is pinned, [flushFile f] throws
    [PagePinnedException] for the first frame of the file that is pinned,
    and what it has done until then stays done: the frames of the file
    before that one have been flushed (written if dirty, taken out of the
    index, cleared), all other frames are as they were. *)
Theorem flushFile_stops_at_first_pinned f s j d :
  pool_inv s →
  bufDescTable s !! j = Some d → owned f d → 0 < pinCnt d →
  (∀ k dk, (k < j)%nat → bufDescTable s !! k = Some dk → owned f dk →
           pinCnt dk = 0) →
  ∃ s', flushFile f s = Throw (PagePinnedException f (pageNo d) (Z.of_nat j)) s' ∧
        pool_inv s' ∧ bufPool s' = bufPool s ∧
        trace s' = trace s ++ flush_events f 0 (take j (bufDescTable s)) (bufPool s) ∧
        (∀ k dk, bufDescTable s !! k = Some dk →
           bufDescTable s' !! k
             = Some (if decide ((k < j)%nat ∧ owned f dk) then Clear dk else dk)).
Proof.
  intros H Hd Ho Hp Hunpinned. unfold flushFile. run_monad.
  pose proof (lookup_lt_Some _ _ _ Hd) as Hj. pose proof (inv_table _ H) as Hlen.
  replace (Z.to_nat (numBufs s))
    with (j + S (length (bufDescTable s) - j - 1))%nat by lia.
  destruct (flushFile_loop_pinned f (length (bufDescTable s) - j - 1) j d j 0%nat s)
    as (s' & Hrun & H' & Ep & Et & Etab); try done; try lia.
  { intros k dk [_ Hk]. by apply Hunpinned. }
  exists s'. split; [done|]. do 3 (split; [done|]).
  intros k dk Hk. rewrite (Etab k dk Hk).
  destruct (decide ((k < j)%nat ∧ owned f dk)) as [[Hle Hok]|Hno].
  - rewrite decide_True; [done|]. split; [lia|done].
  - rewrite decide_False; [done|]. intros [Hle Hok]. apply Hno. split; [lia|done].
Qed.

Lemma flushFile_stops_at_first_pinned_witness :
  ∃ s', flushFile 7 ex_half_pinned
        = Throw (PagePinnedException 7 (pageNo (mkBufDesc 7 2 1 1 false true true))
                   (Z.of_nat 1)) s' ∧
        pool_inv s' ∧ bufPool s' = bufPool ex_half_pinned ∧
        trace s' = trace ex_half_pinned
                   ++ flush_events 7 0 (take 1 (bufDescTable ex_half_pinned))
                                       (bufPool ex_half_pinned) ∧
        (∀ k dk, bufDescTable ex_half_pinned !! k = Some dk →
           bufDescTable s' !! k
             = Some (if decide ((k < 1)%nat ∧ owned 7 dk) then Clear dk else dk)).
Proof.
  apply (flushFile_stops_at_first_pinned 7 ex_half_pinned 1
           (mkBufDesc 7 2 1 1 false true true)).
  - apply reachable_inv, (ex_reachable ex_calls_half_pinned). by vm_compute.
  - by vm_compute.
  - by vm_compute.
  - done.
  - intros k dk Hk Hdk Hok. assert (k = 0%nat) as -> by lia.
    vm_compute in Hdk. by simplify_eq.
Defined.

(** ** [printSelf] and the size of the index *)

(** An index that maps the page of each valid descriptor of [ds] to the
    position of the descriptor, counted from [off], and has no other
    entries, has as many entries as [ds] has valid descriptors. *)
Lemma index_size_from (ds : list BufDesc) : ∀ (m : gmap (Z * Z) Z) (off : nat),
  (∀ i d, ds !! i = Some d → valid d = true →
          m !! (file d, pageNo d) = Some (Z.of_nat (off + i))) →
  (∀ k j, m !! k = Some j →
          ∃ i d, j = Z.of_nat (off + i) ∧ ds !! i = Some d ∧ valid d = true ∧
                 (file d, pageNo d) = k) →
  size m = length (valid_frames ds).
Proof.
  induction ds as [|d ds IH]; intros m off Hin Hout.
  - simpl. apply map_size_empty_iff, map_empty. intros k.
    destruct (m !! k) as [j|] eqn:E; [|done].
    destruct (Hout k j E) as (i & d & _ & Hd & _). done.
  - unfold valid_frames. rewrite filter_cons. destruct (decide (valid d = true)) as [Hv|Hv].
    + pose proof (Hin 0%nat d eq_refl Hv) as Hd.
      rewrite <- (insert_delete_id m _ _ Hd).
      rewrite map_size_insert_None by apply lookup_delete_eq.
      simpl. f_equal. apply (IH _ (S off)).
      * intros i d' Hd' Hv'. pose proof (Hin (S i) d' Hd' Hv') as Hh.
        rewrite lookup_delete_ne; [by rewrite <- Nat.add_succ_comm in Hh|].
        intros Hkey. rewrite Hkey in Hd. rewrite Hd in Hh. simplify_eq. lia.
      * intros k j Hk. apply lookup_delete_Some in Hk as [Hne Hk].
        destruct (Hout k j Hk) as (i & d' & -> & Hd' & Hv' & Hkey).
        destruct i as [|i]; [simpl in Hd'; by simplify_eq|].
        exists i, d'. split; [f_equal; lia|done].
    + apply (IH _ (S off)).
      * intros i d' Hd' Hv'. pose proof (Hin (S i) d' Hd' Hv') as Hh.
        by rewrite <- Nat.add_succ_comm in Hh.
      * intros k j Hk.
        destruct (Hout k j Hk) as (i & d' & -> & Hd' & Hv' & Hkey).
        destruct i as [|i]; [simpl in Hd'; by simplify_eq|].
        exists i, d'. split; [f_equal; lia|done].
Qed.

Lemma index_size s :
  pool_inv s → size (hashTable s) = length (valid_frames (bufDescTable s)).
Proof.
  intros H. apply (index_size_from _ _ 0).
  - intros i d Hd Hv. exact (ok_hash _ _ _ (inv_desc _ H _ _ Hd) Hv).
  - intros [f p] j Hj.
    destruct (inv_hash _ H _ _ _ Hj) as (Hj0 & d & Hd & Hv & Hf & Hp).
    exists (Z.to_nat j), d. split; [simpl; lia|]. by rewrite Hf, Hp.
Qed.

Lemma printSelf_loop_spec n : ∀ i s validFrames out,
  (i + n = length (bufDescTable s))%nat →
  validFrames ≤ INT_MAX →
  printSelf_loop (Z.of_nat i) n validFrames out s
  = if decide (validFrames
               + Z.of_nat (length (valid_frames (drop i (bufDescTable s))))
               ≤ INT_MAX)
    then Ok (out ++ numbered (Z.of_nat i) (drop i (bufDescTable s)),
             validFrames
             + Z.of_nat (length (valid_frames (drop i (bufDescTable s))))) s
    else Undefined.
Proof.
  induction n as [|n IH]; intros i s vf out Hlen Hvf; simpl.
  - rewrite drop_ge by lia. simpl. rewrite decide_True by lia.
    unfold ret. by rewrite app_nil_r, Z.add_0_r.
  - destruct (lookup_lt_is_Some_2 (bufDescTable s) i) as [d Hd]; [lia|].
    unfold bind, getDesc. rewrite Nat2Z.id, Hd.
    rewrite (drop_S _ _ _ Hd).
    assert (length (valid_frames (d :: drop (S i) (bufDescTable s)))
            = if valid d
              then S (length (valid_frames (drop (S i) (bufDescTable s))))
              else length (valid_frames (drop (S i) (bufDescTable s)))) as ->.
    { unfold valid_frames. rewrite filter_cons.
      destruct (valid d); [by rewrite decide_True|by rewrite decide_False]. }
    cbn [numbered]. replace (Z.of_nat i + 1) with (Z.of_nat (S i)) by lia.
    destruct (valid d).
    + destruct (decide (vf = INT_MAX)) as [->|Hne].
      * rewrite decide_False by lia. done.
      * unfold ret. rewrite (IH (S i)) by lia. rewrite <- app_assoc. cbn [app].
        repeat case_decide; try lia; [|done]. do 2 f_equal. lia.
    + rewrite (IH (S i)) by lia. rewrite <- app_assoc. cbn [app]. done.
Qed.

(** X12.  [printSelf] changes nothing.  It prints every frame once, in the
    order of the frames, and then a total, which is the number of valid
    frames and, by the pool invariant, the number of pages in the index.
    The total is counted in an [int]: with more than [INT_MAX] valid frames
    the call has no defined behaviour. *)
Theorem printSelf_total_is_index_size s :
  pool_inv s →
  (Z.of_nat (size (hashTable s)) ≤ INT_MAX →
   printSelf s
   = Ok (numbered 0 (bufDescTable s), Z.of_nat (size (hashTable s))) s) ∧
  (INT_MAX < Z.of_nat (size (hashTable s)) → printSelf s = Undefined) ∧
  size (hashTable s) = length (valid_frames (bufDescTable s)).
Proof.
  intros H. pose proof (index_size s H) as Hsize.
  assert (printSelf s
          = if decide (Z.of_nat (size (hashTable s)) ≤ INT_MAX)
            then Ok (numbered 0 (bufDescTable s), Z.of_nat (size (hashTable s))) s
            else Undefined) as Heq.
  { unfold printSelf. run_monad.
    pose proof (printSelf_loop_spec (Z.to_nat (numBufs s)) 0 s 0 []) as Hl.
    change (Z.of_nat 0) with 0 in Hl. rewrite Hl.
    - rewrite drop_0, <- Hsize. cbn [app]. by rewrite !Z.add_0_l.
    - pose proof (inv_table _ H). lia.
    - done. }
  split; [|split; [|done]]; intros Hle; rewrite Heq.
  - by rewrite decide_True.
  - rewrite decide_False; [done|lia].
Qed.

Lemma printSelf_total_is_index_size_witness :
  (Z.of_nat (size (hashTable ex_flush)) ≤ INT_MAX →
   printSelf ex_flush
   = Ok (numbered 0 (bufDescTable ex_flush), Z.of_nat (size (hashTable ex_flush)))
        ex_flush) ∧
  (INT_MAX < Z.of_nat (size (hashTable ex_flush)) → printSelf ex_flush = Undefined) ∧
  size (hashTable ex_flush) = length (valid_frames (bufDescTable ex_flush)).
Proof.
  apply (printSelf_total_is_index_size ex_flush).
  apply reachable_inv, (ex_reachable ex_calls_flush). by vm_compute.
Defined.

(** ** The exceptions of each call *)

Lemma readPage_outcomes f p s :
  pool_inv s →
  match readPage f p s with
  | Ok _ _ => True
  | Throw e _ => may_throw (OpReadPage f p) e
  | Undefined => ill_formed (OpReadPage f p) s
  end.
Proof.
  intros H. unfold readPage. run_monad.
  destruct (hashTable s !! (f, p)) as [j|] eqn:Hj.
  - destruct (inv_hash _ H _ _ _ Hj) as (Hj0 & d & Hd & Hv & Hf & Hp).
    rewrite Hd. destruct (decide (pinCnt d = INT_MAX)) as [|Hmax]; [right; eauto|].
    simpl. rewrite Hd. simpl.
    by rewrite list_lookup_insert_eq by (by eapply lookup_lt_Some).
  - pose proof (allocBuf_frame s H) as Ha.
    destruct (allocBuf s) as [i s1|e s1|]; [|destruct Ha as [_ ->]; by left|done].
    destruct Ha as (H1 & Hi & (d & Hd & Hv) & Hhash & Hdisk).
    unfold file_readPage. destruct (decide (f = NULL)) as [|Hf]; [by left|].
    destruct (disk s1 !! (f, p)) as [bytes|] eqn:Hbytes; [|by right].
    simpl. destruct (pool_inv_lookup s1 i H1) as (d' & pg & Hd' & Hpg); [done|].
    rewrite Hpg. simpl. rewrite Hd. simpl. by rewrite (Hhash _ Hj).
Qed.

Lemma unPinPage_outcomes f p b s :
  pool_inv s →
  match unPinPage f p b s with
  | Ok _ _ => True
  | Throw e _ => may_throw (OpUnPinPage f p b) e
  | Undefined => False
  end.
Proof.
  intros H. unfold unPinPage. run_monad.
  destruct (hashTable s !! (f, p)) as [j|] eqn:Hj; [|done].
  destruct (inv_hash _ H _ _ _ Hj) as (Hj0 & d & Hd & Hv & Hf & Hp).
  rewrite Hd. destruct (Z.leb_spec (pinCnt d) 0) as [Hle|Hgt].
  - rewrite decide_False; [by exists j|].
    rewrite <- Hf. by apply (ok_file _ _ _ (inv_desc _ H _ _ Hd)).
  - simpl. rewrite Hd. simpl. destruct b; [|done]. simpl.
    by rewrite list_lookup_insert_eq by (by eapply lookup_lt_Some).
Qed.

Lemma flushFile_outcomes f s :
  pool_inv s →
  match flushFile f s with
  | Ok _ _ => True
  | Throw e _ => may_throw (OpFlushFile f) e
  | Undefined => False
  end.
Proof.
  intros H. unfold flushFile. run_monad.
  assert (∀ n i s0, 0 ≤ i → i + Z.of_nat n ≤ numBufs s0 → pool_inv s0 →
    match flushFile_loop f i n s0 with
    | Ok _ _ => True
    | Throw e _ => may_throw (OpFlushFile f) e
    | Undefined => False
    end) as Hloop.
  { induction n as [|n IH]; intros i s0 Hi Hn H0; simpl; [done|].
    unfold bind.
    destruct (flushFile_body_spec f i s0 H0) as (d & pg & Hd & Hpg & Hcase); [lia|].
    inversion Hcase as [Hskip Heq|Hv Hf Hp Heq|Hv Hf Hp Heq].
    - apply IH; [lia|lia|done].
    - by exists (pageNo d), i.
    - apply IH; [lia|rewrite evict_frame_numBufs; lia|].
      by apply pool_inv_evict_frame. }
  apply Hloop; [done| |done]. pose proof (inv_numBufs _ H). lia.
Qed.

Lemma allocPage_outcomes f s :
  pool_inv s →
  match allocPage f s with
  | Ok _ _ => True
  | Throw e _ => may_throw (OpAllocPage f) e
  | Undefined => ill_formed (OpAllocPage f) s
  end.
Proof.
  intros H. destruct (decide (f = NULL)) as [Hf|Hf].
  { unfold allocPage. unfold bind at 1. unfold file_allocatePage.
    by rewrite decide_True. }
  pose proof (pool_inv_allocated f s H) as H0.
  pose proof (allocBuf_frame _ H0) as Hfr.
  destruct (allocBuf (allocated f s)) as [i s1|e s1|] eqn:Ha; [| |done].
  - destruct Hfr as (H1 & Hi & (d & Hd & Hv) & Hhash & Hdisk).
    destruct (pool_inv_lookup s1 i H1 Hi) as (d' & pg & Hd' & Hpg).
    rewrite (allocPage_Ok f s i s1 d pg); auto.
    apply Hhash. simpl. destruct (hashTable s !! _) eqn:E; [|done].
    destruct (pool_inv_hash_disk s _ H (mk_is_Some _ _ E)) as [x Hx].
    by rewrite last_page_fresh in Hx.
  - destruct Hfr as [_ ->]. unfold allocPage. unfold bind at 1.
    rewrite file_allocatePage_eq by done. unfold bind at 1. by rewrite Ha.
Qed.

Lemma disposePage_outcomes f p s :
  pool_inv s →
  match disposePage f p s with
  | Ok _ _ => True
  | Throw e _ => may_throw (OpDisposePage f p) e
  | Undefined => ill_formed (OpDisposePage f p) s
  end.
Proof.
  intros H. unfold disposePage. unfold bind at 1. unfold file_deletePage.
  destruct (decide (f = NULL)) as [|Hf]; [done|].
  destruct (disk s !! (f, p)) as [x|] eqn:Hx; [|done].
  run_monad. destruct (hashTable s !! (f, p)) as [j|] eqn:Hj; simpl; [|done].
  destruct (inv_hash _ H _ _ _ Hj) as (Hj0 & d & Hd & Hv & Ef & Ep).
  rewrite Hj. simpl. by rewrite Hd.
Qed.



(** ** A pinned frame is kept *)

Lemma frame_kept_now s i d pg :
  pool_inv s →
  bufDescTable s !! i = Some d → bufPool s !! i = Some pg → valid d = true →
  frame_kept i d pg (pinCnt d) s.
Proof.
  intros H Hd Hpg Hv. split; [done|].
  split; [exact (ok_hash _ _ _ (inv_desc _ H _ _ Hd) Hv)|].
  exists d. by repeat split.
Qed.

Lemma frame_kept_same s s' i d pg n :
  bufPool s' = bufPool s → hashTable s' = hashTable s →
  bufDescTable s' = bufDescTable s →
  frame_kept i d pg n s → frame_kept i d pg n s'.
Proof. unfold frame_kept. by intros -> -> ->. Qed.

Lemma frame_kept_set_desc s i d pg n n' j dj x :
  frame_kept i d pg n s →
  bufDescTable s !! Z.to_nat j = Some dj →
  valid x = true → file x = file dj → pageNo x = pageNo dj →
  (dirty dj = true → dirty x = true) →
  n' ≤ n → (Z.to_nat j = i → n' ≤ pinCnt x) →
  frame_kept i d pg n' (set_desc j x s).
Proof.
  intros (Hpg & Hh & d' & Hd' & Hv & Hf & Hp & Hn & Hdirty) Hdj Hvx Hfx Hpx Hdx Hle Hpin.
  split; [done|]. split; [done|]. simpl.
  destruct (decide (Z.to_nat j = i)) as [<-|Hne].
  - assert (d' = dj) as -> by congruence.
    exists x. rewrite list_lookup_insert_eq by (by eapply lookup_lt_Some).
    split; [done|]. split; [done|]. split; [congruence|]. split; [congruence|].
    split; [auto|]. auto.
  - exists d'. rewrite list_lookup_insert_ne by done.
    split; [done|]. split; [done|]. split; [done|]. split; [done|].
    split; [lia|done].
Qed.

Lemma frame_kept_evict_frame s i d pg n h dv pgv :
  pool_inv s → frame_kept i d pg n s →
  bufDescTable s !! Z.to_nat h = Some dv → valid dv = true →
  Z.to_nat h ≠ i →
  frame_kept i d pg n (evict_frame h dv pgv s).
Proof.
  intros H (Hpg & Hh & d' & Hd' & Hv & Hf & Hp & Hn & Hdirty) Hdv Hvv Hne.
  unfold frame_kept.
  rewrite evict_frame_pool, evict_frame_hash, evict_frame_table.
  split; [done|]. split.
  - rewrite lookup_delete_ne; [done|]. intros Hkey. apply Hne.
    apply (pool_inv_one_frame s _ _ dv d' H Hdv Hd' Hvv Hv). congruence.
  - exists d'. by rewrite list_lookup_insert_ne.
Qed.

(** A sweep, however it ends, keeps the frames that are pinned. *)
Lemma allocBuf_keeps s i d pg n :
  pool_inv s → 0 < n → frame_kept i d pg n s →
  match allocBuf s with
  | Ok _ s' | Throw _ s' => frame_kept i d pg n s'
  | Undefined => True
  end.
Proof.
  intros H Hn (Hpg & Hh & d0 & Hd0 & Hv & Hf & Hp & Hpin & Hdirty).
  assert (∀ k s1, swept (advanced s) k s1 →
            frame_kept i d pg n s1 ∧
            ∃ d1, bufDescTable s1 !! i = Some d1 ∧ pinCnt d1 = pinCnt d0) as Hswept.
  { intros k s1 Hsw.
    destruct (Forall2_lookup_l _ _ _ _ _ (sw_table _ _ _ Hsw) Hd0)
      as (d1 & Hd1 & Hsame).
    destruct (same_but_refbit_fields _ _ Hsame) as (Ev & Epin & Ef & Epg & Edirty & _).
    split; [|by exists d1].
    split; [by rewrite (sw_pool _ _ _ Hsw)|].
    split; [by rewrite (sw_hash _ _ _ Hsw)|].
    exists d1. split; [done|]. split; [congruence|]. split; [congruence|].
    split; [congruence|]. split; [lia|]. rewrite Edirty. done. }
  destruct (allocBuf_spec s H) as [s1 Hsw H1|k s1 dv Hk Hsw H1 Hdv Hvv Hb
                                   |k s1 dv pgv Hk Hsw H1 Hdv Hpgv Hvv Hrb Hpv Hb].
  - apply (Hswept _ _ Hsw).
  - apply (Hswept _ _ Hsw).
  - destruct (Hswept _ _ Hsw) as (Hkept & d1 & Hd1 & Epin).
    apply frame_kept_evict_frame; try done.
    intros Heq. rewrite Heq in Hdv. simplify_eq. lia.
Qed.

Lemma readPage_keeps f p s i d pg n :
  pool_inv s → 0 < n → frame_kept i d pg n s →
  match readPage f p s with
  | Ok _ s' | Throw _ s' => frame_kept i d pg n s'
  | Undefined => True
  end.
Proof.
  intros H Hn Hkept.
  destruct (hashTable s !! (f, p)) as [j|] eqn:Hj.
  - destruct (inv_hash _ H _ _ _ Hj) as (Hj0 & dj & Hdj & Hv & Hf & Hp).
    destruct (decide (pinCnt dj = INT_MAX)) as [Hmax|Hmax].
    { unfold readPage. run_monad. rewrite Hj, Hdj. by rewrite decide_True. }
    rewrite (readPage_hit f p s j dj) by done.
    apply (frame_kept_set_desc s i d pg n n j dj); try done.
    intros <-. destruct Hkept as (_ & _ & d' & Hd' & _ & _ & _ & Hpin & _).
    assert (d' = dj) as -> by congruence. simpl. lia.
  - pose proof (allocBuf_frame s H) as Ha.
    pose proof (allocBuf_keeps s i d pg n H Hn Hkept) as Hk.
    unfold readPage. run_monad. rewrite Hj.
    destruct (allocBuf s) as [i' s1|e s1|]; [|done|done].
    destruct Ha as (H1 & Hi & (d' & Hd' & Hv') & Hhash & Hdisk).
    unfold file_readPage. destruct (decide (f = NULL)) as [|Hf]; [done|].
    destruct (disk s1 !! (f, p)) as [bytes|] eqn:Hbytes; [|done].
    simpl. destruct (pool_inv_lookup s1 i' H1) as (d'' & pg' & Hd'' & Hpg'); [done|].
    rewrite Hpg'. simpl. rewrite Hd'. simpl. rewrite (Hhash _ Hj). simpl.
    destruct Hk as (Hpg1 & Hh1 & d1 & Hd1 & Hv1 & Hf1 & Hp1 & Hpin1 & Hdirty1).
    assert (Z.to_nat i' ≠ i) as Hne by (intros <-; congruence).
    split; simpl; [by rewrite list_lookup_insert_ne|]. split.
    + rewrite lookup_insert_ne; [done|]. intros Hkey. rewrite <- Hkey in Hh1.
      by rewrite (Hhash _ Hj) in Hh1.
    + exists d1. by rewrite list_lookup_insert_ne.
Qed.

Lemma unPinPage_keeps f p b s i d pg n :
  pool_inv s → 0 < n → frame_kept i d pg n s →
  match unPinPage f p b s with
  | Ok _ s' | Throw _ s' => frame_kept i d pg (pins_left (OpUnPinPage f p b) d n) s'
  | Undefined => True
  end.
Proof.
  intros H Hn Hkept. simpl.
  assert (frame_kept i d pg (if decide ((f, p) = (file d, pageNo d)) then n - 1 else n) s)
    as Hweak.
  { destruct Hkept as (Hpg & Hh & d' & Hd' & Hv & Hf & Hp & Hpin & Hdirty).
    split; [done|]. split; [done|]. exists d'. repeat split; try done.
    case_decide; lia. }
  destruct (hashTable s !! (f, p)) as [j|] eqn:Hj.
  - destruct (inv_hash _ H _ _ _ Hj) as (Hj0 & dj & Hdj & Hv & Hf & Hp).
    pose proof (desc_ok_pin_range _ _ _ (inv_desc _ H _ _ Hdj)) as Hpin.
    destruct (decide (0 < pinCnt dj)) as [Hpos|Hzero].
    + rewrite (unPinPage_hit f p b s j dj) by done.
      apply (frame_kept_set_desc s i d pg n _ j dj); try done.
      * by destruct b.
      * by destruct b.
      * by destruct b.
      * destruct b; simpl; auto.
      * case_decide; lia.
      * intros <-. destruct Hkept as (_ & _ & d' & Hd' & _ & Hf' & Hp' & Hpin' & _).
        assert (d' = dj) as -> by congruence.
        rewrite decide_True by congruence. destruct b; simpl; lia.
    + unfold unPinPage. run_monad. rewrite Hj, Hdj.
      destruct (Z.leb_spec (pinCnt dj) 0); [|lia].
      rewrite decide_False; [done|].
      rewrite <- Hf. by apply (ok_file _ _ _ (inv_desc _ H _ _ Hdj)).
  - unfold unPinPage. run_monad. by rewrite Hj.
Qed.

Lemma flushFile_keeps f s i d pg n :
  pool_inv s → 0 < n → frame_kept i d pg n s →
  match flushFile f s with
  | Ok _ s' | Throw _ s' => frame_kept i d pg n s'
  | Undefined => True
  end.
Proof.
  intros H Hn Hkept. unfold flushFile. run_monad.
  assert (∀ m k s0, 0 ≤ k → k + Z.of_nat m ≤ numBufs s0 → pool_inv s0 →
    frame_kept i d pg n s0 →
    match flushFile_loop f k m s0 with
    | Ok _ s' | Throw _ s' => frame_kept i d pg n s'
    | Undefined => True
    end) as Hloop.
  { induction m as [|m IH]; intros k s0 Hk Hm H0 Hk0; simpl; [done|].
    unfold bind.
    destruct (flushFile_body_spec f k s0 H0) as (dk & pgk & Hdk & Hpgk & Hcase); [lia|].
    inversion Hcase as [Hskip Heq|Hv Hf Hp Heq|Hv Hf Hp Heq].
    - apply IH; [lia|lia|done|done].
    - done.
    - apply IH; [lia|rewrite evict_frame_numBufs; lia| |].
      + by apply pool_inv_evict_frame.
      + apply frame_kept_evict_frame; try done.
        intros Heqk. destruct Hk0 as (_ & _ & d' & Hd' & _ & _ & _ & Hpin & _).
        rewrite Heqk in Hdk. simplify_eq. lia. }
  apply Hloop; [done| |done|done]. pose proof (inv_numBufs _ H). lia.
Qed.

Lemma allocPage_keeps f s i d pg n :
  pool_inv s → 0 < n → frame_kept i d pg n s →
  match allocPage f s with
  | Ok _ s' | Throw _ s' => frame_kept i d pg n s'
  | Undefined => True
  end.
Proof.
  intros H Hn Hkept. destruct (decide (f = NULL)) as [Hf|Hf].
  { unfold allocPage. unfold bind at 1. unfold file_allocatePage.
    by rewrite decide_True. }
  pose proof (pool_inv_allocated f s H) as H0.
  assert (frame_kept i d pg n (allocated f s)) as Hkept0
    by (by apply (frame_kept_same s)).
  pose proof (allocBuf_frame _ H0) as Hfr.
  pose proof (allocBuf_keeps _ i d pg n H0 Hn Hkept0) as Hk.
  assert (hashTable (allocated f s) !! (f, last_page f (disk s) + 1) = None) as Hnone.
  { simpl. destruct (hashTable s !! _) eqn:E; [|done].
    destruct (pool_inv_hash_disk s _ H (mk_is_Some _ _ E)) as [x Hx].
    by rewrite last_page_fresh in Hx. }
  destruct (allocBuf (allocated f s)) as [i' s1|e s1|] eqn:Ha; [| |done].
  - destruct Hfr as (H1 & Hi & (d' & Hd' & Hv') & Hhash & Hdisk).
    destruct (pool_inv_lookup s1 i' H1 Hi) as (d'' & pg' & Hd'' & Hpg').
    rewrite (allocPage_Ok f s i' s1 d' pg'); auto.
    destruct Hk as (Hpg1 & Hh1 & d1 & Hd1 & Hv1 & Hf1 & Hp1 & Hpin1 & Hdirty1).
    assert (Z.to_nat i' ≠ i) as Hne by (intros <-; congruence).
    split; simpl; [by rewrite list_lookup_insert_ne|]. split.
    + rewrite lookup_insert_ne; [done|]. intros Hkey. rewrite <- Hkey in Hh1.
      by rewrite (Hhash _ Hnone) in Hh1.
    + exists d1. by rewrite list_lookup_insert_ne.
  - unfold allocPage. unfold bind at 1.
    rewrite file_allocatePage_eq by done. unfold bind at 1. by rewrite Ha.
Qed.

Lemma disposePage_keeps f p s i d pg n :
  pool_inv s → (f, p) ≠ (file d, pageNo d) → frame_kept i d pg n s →
  match disposePage f p s with
  | Ok _ s' | Throw _ s' => frame_kept i d pg n s'
  | Undefined => True
  end.
Proof.
  intros H Hkey Hkept. unfold disposePage. unfold bind at 1. unfold file_deletePage.
  destruct (decide (f = NULL)) as [|Hf]; [done|].
  destruct (disk s !! (f, p)) as [x|] eqn:Hx; [|done].
  run_monad. destruct (hashTable s !! (f, p)) as [j|] eqn:Hj; simpl; [|done].
  destruct (inv_hash _ H _ _ _ Hj) as (Hj0 & dj & Hdj & Hv & Ef & Ep).
  rewrite Hj. simpl. rewrite Hdj. simpl.
  destruct Hkept as (Hpg & Hh & d' & Hd' & Hv' & Hf' & Hp' & Hpin & Hdirty).
  assert (Z.to_nat j ≠ i) as Hne.
  { intros <-. apply Hkey. assert (d' = dj) as -> by congruence. congruence. }
  split; simpl; [done|]. split; [by rewrite lookup_delete_ne|].
  exists d'. by rewrite list_lookup_insert_ne.
Qed.

(** X14.  As long as a page is pinned, the frame that holds it is left
    alone by every call that has a defined behaviour, but a [disposePage]
    of that page and a write through the handle: the frame holds the same
    page with the same bytes, the index maps the page to the frame, a set
    dirty flag stays set, and the pin count has not gone down, except by
    one in an [unPinPage] of that page.  This holds also when the call
    throws.  A call has no defined behaviour only when it is ill-formed:
    given a null file or a handle outside the pool, or a fetch of a page
    whose pin count stands at [INT_MAX]; there the increment of the [int]
    overflows, and nothing is said of the pin count that it leaves. *)
Theorem pinned_frame_is_kept o s i d pg :
  pool_inv s →
  bufDescTable s !! i = Some d → bufPool s !! i = Some pg →
  valid d = true → 0 < pinCnt d →
  ¬ gives_up o i d →
  match run o s with
  | Ok _ s' | Throw _ s' => frame_kept i d pg (pins_left o d (pinCnt d)) s'
  | Undefined => ill_formed o s
  end.
Proof.
  intros H Hd Hpg Hv Hpin Hno.
  pose proof (frame_kept_now s i d pg H Hd Hpg Hv) as Hkept.
  destruct o as [f p|f p b|f|f|f p|j bytes]; unfold run.
  - pose proof (readPage_keeps f p s i d pg _ H Hpin Hkept) as Hk.
    pose proof (readPage_outcomes f p s H) as Ho.
    unfold bind. by destruct (readPage f p s).
  - pose proof (unPinPage_keeps f p b s i d pg _ H Hpin Hkept) as Hk.
    pose proof (unPinPage_outcomes f p b s H) as Ho.
    by destruct (unPinPage f p b s).
  - pose proof (flushFile_keeps f s i d pg _ H Hpin Hkept) as Hk.
    pose proof (flushFile_outcomes f s H) as Ho.
    by destruct (flushFile f s).
  - pose proof (allocPage_keeps f s i d pg _ H Hpin Hkept) as Hk.
    pose proof (allocPage_outcomes f s H) as Ho.
    unfold bind. by destruct (allocPage f s).
  - pose proof (disposePage_keeps f p s i d pg _ H Hno Hkept) as Hk.
    pose proof (disposePage_outcomes f p s H) as Ho.
    by destruct (disposePage f p s).
  - simpl in Hno. unfold writeHandle. run_monad.
    destruct (bufPool s !! Z.to_nat j) as [pgj|] eqn:Hpgj; [|done]. simpl.
    rewrite Hpgj.
    destruct Hkept as (Hpg' & Hh & Hrest).
    split; simpl; [by rewrite list_lookup_insert_ne|]. by split.
Qed.

Lemma pinned_frame_is_kept_witness :
  match run (OpReadPage 7 4) ex_modified_released with
  | Ok _ s' | Throw _ s' =>
      frame_kept 1 (mkBufDesc 7 2 1 1 false true true) (mkPage 2 "B")
        (pins_left (OpReadPage 7 4) (mkBufDesc 7 2 1 1 false true true)
           (pinCnt (mkBufDesc 7 2 1 1 false true true)))
        s'
  | Undefined => ill_formed (OpReadPage 7 4) ex_modified_released
  end.
Proof.
  apply (pinned_frame_is_kept (OpReadPage 7 4) ex_modified_released 1
           (mkBufDesc 7 2 1 1 false true true) (mkPage 2 "B")).
  - apply reachable_inv, (ex_reachable ex_calls_modified_released). by vm_compute.
  - by vm_compute.
  - by vm_compute.
  - done.
  - done.
  - simpl. tauto.
Defined.

(** ** Which frame the sweep takes *)

(** Where the hand does not stand on [k], a move of the hand brings [k]
    one step nearer. *)
Lemma steps_to_choose_advanced s k dk :
  pool_inv s → 0 ≤ k < numBufs s → k ≠ clockHand s →
  steps_to_choose (advanced s) k dk = steps_to_choose s k dk - 1.
Proof.
  intros H Hk Hne. unfold steps_to_choose. hand_simpl.
  rewrite (next_hand_eq s H), hand_approaches; [lia|apply H|done|done].
Qed.

(** A frame that is free or unpinned and comes before every other such
    frame in the order of the sweep is where the loop of [allocBuf]
    ends. *)
Lemma allocBuf_loop_first m : ∀ s j d,
  pool_inv s → 0 ≤ j < numBufs s →
  bufDescTable s !! Z.to_nat j = Some d →
  valid d = false ∨ pinCnt d = 0 →
  steps_to_choose s j d < Z.of_nat m →
  (∀ k dk, 0 ≤ k < numBufs s → k ≠ j →
           bufDescTable s !! Z.to_nat k = Some dk →
           valid dk = false ∨ pinCnt dk = 0 →
           steps_to_choose s j d < steps_to_choose s k dk) →
  ∃ r s', allocBuf_loop m s = Ok r s' ∧ r ≠ O ∧ clockHand s' = j.
Proof.
  induction m as [|m IH]; intros s j d H Hj Hd Hfree Hsteps Hfirst.
  { unfold steps_to_choose in Hsteps.
    pose proof (Z.mod_pos_bound (j - clockHand s) (numBufs s)).
    destruct (valid d && refbit d); lia. }
  simpl. unfold bind.
  pose proof (inv_hand _ H) as Hh. pose proof (inv_numBufs _ H) as Hn.
  assert (0 ≤ steps_to_choose s j d) as Hpos.
  { unfold steps_to_choose.
    pose proof (Z.mod_pos_bound (j - clockHand s) (numBufs s)).
    destruct (valid d && refbit d); lia. }
  assert (∀ dh, valid dh && refbit dh = false →
                steps_to_choose s (clockHand s) dh = 0) as Hzero.
  { intros dh Hb. unfold steps_to_choose. rewrite Hb, Z.sub_diag.
    rewrite Z.mod_0_l by lia. done. }
  destruct (allocBuf_body_spec s H) as (dh & pg & Hdh & Hpg & Hcase).
  inversion Hcase as [Hv Heq|Hv Hr Heq|Hv Hr Hp Heq|Hv Hr Hp Heq].
  - (* free: this is [j] *)
    exists (S m), s. split; [done|]. split; [done|].
    destruct (decide (clockHand s = j)) as [|Hne]; [done|].
    pose proof (Hfirst (clockHand s) dh Hh Hne Hdh (or_introl Hv)) as Hlt.
    rewrite Hzero in Hlt by (by rewrite Hv). lia.
  - (* the reference bit of the frame under the hand is cleared *)
    assert (pool_inv (advanced (set_desc (clockHand s) (with_refbit false dh) s)))
      as H1.
    { apply pool_inv_advanced. eapply pool_inv_set_desc; eauto.
      exact (desc_ok_pin_range _ _ _ (inv_desc _ H _ _ Hdh)). }
    assert (Z.to_nat (clockHand s) < length (bufDescTable s))%nat as Hlen
      by (by eapply lookup_lt_Some).
    assert (steps_to_choose (advanced (set_desc (clockHand s) (with_refbit false dh) s))
              (clockHand s) (with_refbit false dh) = numBufs s - 1) as Hleft.
    { unfold steps_to_choose. hand_simpl.
      simpl (valid _ && refbit _). rewrite andb_false_r.
      rewrite (next_hand_eq s H), hand_leaves by done. lia. }
    assert (steps_to_choose s (clockHand s) dh = numBufs s) as Hfull.
    { unfold steps_to_choose. rewrite Hv, Hr, Z.sub_diag.
      rewrite Z.mod_0_l by lia. done. }
    assert (∀ k dk, 0 ≤ k < numBufs s → k ≠ clockHand s →
              steps_to_choose (advanced (set_desc (clockHand s) (with_refbit false dh) s))
                k dk = steps_to_choose s k dk - 1) as Hstep.
    { intros k dk Hk Hne. unfold steps_to_choose. hand_simpl.
      rewrite (next_hand_eq s H), hand_approaches by done. lia. }
    destruct (decide (clockHand s = j)) as [Heqj|Hne].
    + subst j. assert (dh = d) as -> by congruence.
      apply (IH _ (clockHand s) (with_refbit false d) H1).
      * done.
      * simpl. by apply list_lookup_insert_eq.
      * destruct Hfree; [congruence|by right].
      * rewrite Hleft. lia.
      * intros k dk Hk Hnek Hdk Hek. simpl in Hk, Hdk.
        rewrite list_lookup_insert_ne in Hdk by lia.
        rewrite Hleft, Hstep by done.
        pose proof (Hfirst k dk Hk Hnek Hdk Hek). lia.
    + apply (IH _ j d H1).
      * done.
      * simpl. rewrite list_lookup_insert_ne by lia. done.
      * done.
      * rewrite Hstep by done. lia.
      * intros k dk Hk Hnek Hdk Hek. simpl in Hk, Hdk.
        rewrite (Hstep j d) by done.
        destruct (decide (k = clockHand s)) as [->|Hnk].
        -- rewrite list_lookup_insert_eq in Hdk by done. simplify_eq.
           rewrite Hleft.
           assert (valid dh = false ∨ pinCnt dh = 0) as Heh
             by (destruct Hek as [Hc|Hc]; [by left|by right]).
           pose proof (Hfirst (clockHand s) dh Hh Hnek Hdh Heh). lia.
        -- rewrite list_lookup_insert_ne in Hdk by lia.
           rewrite Hstep by done.
           pose proof (Hfirst k dk Hk Hnek Hdk Hek). lia.
  - (* the frame under the hand is pinned: it is not [j] *)
    assert (clockHand s ≠ j) as Hne.
    { intros Heqj. rewrite Heqj in Hdh. assert (dh = d) as -> by congruence.
      destruct Hfree; [congruence|lia]. }
    apply (IH _ j d (pool_inv_advanced s H)); [done..| |].
    + rewrite steps_to_choose_advanced by done. lia.
    + intros k dk Hk Hnek Hdk Hek. simpl in Hk, Hdk.
      rewrite (steps_to_choose_advanced s j d) by done.
      destruct (decide (k = clockHand s)) as [->|Hnk].
      * assert (dk = dh) as -> by congruence. destruct Hek; [congruence|lia].
      * rewrite steps_to_choose_advanced by done.
        pose proof (Hfirst k dk Hk Hnek Hdk Hek). lia.
  - (* victim: this is [j] *)
    eexists (S m), _. split; [done|]. split; [done|].
    rewrite evict_frame_hand.
    destruct (decide (clockHand s = j)) as [|Hne]; [done|].
    pose proof (Hfirst (clockHand s) dh Hh Hne Hdh (or_intror Hp)) as Hlt.
    rewrite Hzero in Hlt by (by rewrite Hr, andb_false_r). lia.
Qed.

(** X15.  Which frame [allocBuf] returns, in a pool of fewer than [2^31]
    frames.  Count for each frame that is free or unpinned the steps from
    the frame after the hand to it, and a whole turn more if the frame is
    occupied with its reference bit set: the frame with the lowest count is
    the one returned. *)
Theorem allocBuf_takes_first_in_clock_order s j d :
  pool_inv s → numBufs s < 2 ^ 31 → 0 ≤ j < numBufs s →
  bufDescTable s !! Z.to_nat j = Some d →
  valid d = false ∨ pinCnt d = 0 →
  (∀ k dk, 0 ≤ k < numBufs s → k ≠ j →
           bufDescTable s !! Z.to_nat k = Some dk →
           valid dk = false ∨ pinCnt dk = 0 →
           steps_to_choose (advanced s) j d < steps_to_choose (advanced s) k dk) →
  ∃ s', allocBuf s = Ok j s'.
Proof.
  intros H Hsmall Hj Hd Hfree Hfirst. pose proof (inv_numBufs _ H) as Hn.
  destruct (allocBuf_loop_first (sweep_bound s) (advanced s) j d)
    as (r & s1 & Hloop & Hr & Hhand); simpl; try done.
  - by apply pool_inv_advanced.
  - unfold steps_to_choose, sweep_bound, UINT32_MOD. simpl.
    rewrite (Z.mod_small (2 * numBufs s)) by lia.
    pose proof (Z.mod_pos_bound (j - next_hand s) (numBufs s)).
    destruct (valid d && refbit d); lia.
  - exists s1. unfold allocBuf. run_monad. rewrite advanceClock_eq by lia.
    fold (sweep_bound s). rewrite Hloop. simpl. rewrite decide_False by done.
    by rewrite Hhand.
Qed.

Lemma allocBuf_takes_first_in_clock_order_witness :
  ∃ s', allocBuf ex_flush = Ok 0 s'.
Proof.
  apply (allocBuf_takes_first_in_clock_order ex_flush 0
           (mkBufDesc 7 1 0 0 true true true)).
  - apply reachable_inv, (ex_reachable ex_calls_flush). by vm_compute.
  - by vm_compute.
  - by vm_compute.
  - by vm_compute.
  - by right.
  - intros k dk Hk Hne Hdk Hek. change (numBufs ex_flush) with 3 in Hk.
    assert (k = 1 ∨ k = 2) as [-> | ->] by lia; vm_compute in Hdk; simplify_eq.
    + by vm_compute.
    + destruct Hek; done.
Defined.

(** ** What [flushFile] leaves in the file *)

Lemma flushFile_loop_disk f n : ∀ i s,
  pool_inv s →
  (i + n = length (bufDescTable s))%nat →
  (∀ k d, (i ≤ k)%nat → bufDescTable s !! k = Some d → owned f d → pinCnt d = 0) →
  ∃ s', flushFile_loop f (Z.of_nat i) n s = Ok tt s' ∧
        (∀ k d pg, (i ≤ k)%nat →
           bufDescTable s !! k = Some d → bufPool s !! k = Some pg →
           owned f d → dirty d = true →
           disk s' !! (f, pageNo d) = Some (data pg)) ∧
        (∀ key, (∀ k d, (i ≤ k)%nat → bufDescTable s !! k = Some d →
                        owned f d → dirty d = true → (f, pageNo d) ≠ key) →
                disk s' !! key = disk s !! key).
Proof.
  induction n as [|n IH]; intros i s H Hlen Hunpinned; simpl.
  - exists s. split; [done|]. split; [|done].
    intros k d pg Hik Hk. apply lookup_lt_Some in Hk. lia.
  - unfold bind.
    destruct (flushFile_body_spec f (Z.of_nat i) s H) as (d & pg & Hd & Hpg & Hcase).
    { pose proof (inv_table _ H). lia. }
    rewrite Nat2Z.id in Hd, Hpg.
    replace (Z.of_nat i + 1) with (Z.of_nat (S i)) by lia.
    inversion Hcase as [Hskip Heq|Hv Hf Hp Heq|Hv Hf Hp Heq].
    + destruct (IH (S i) s H) as (s' & Hrun & Hw & Hk);
        [lia|intros k dk Hk Hdk Ho; apply (Hunpinned k dk); [lia|done..]|].
      exists s'. split; [done|]. split.
      * intros k dk pgk Hik Hdk Hpgk Ho Hdirty.
        destruct (decide (k = i)) as [->|Hne]; [|apply (Hw k dk pgk); [lia|done..]].
        assert (dk = d) as -> by congruence. destruct Ho as [Hv Hf].
        destruct Hskip; congruence.
      * intros key Hkey. apply Hk. intros k dk Hik. apply (Hkey k dk). lia.
    + specialize (Hunpinned i d (Nat.le_refl i) Hd (conj Hv Hf)). lia.
    + assert (bufDescTable (evict_frame (Z.of_nat i) d pg s)
              = <[i := Clear d]> (bufDescTable s)) as Etab1.
      { by rewrite evict_frame_table, Nat2Z.id. }
      destruct (ok_page _ _ _ (inv_desc _ H _ _ Hd) Hv) as (pg' & Hpg' & Hnum).
      assert (pg' = pg) as -> by congruence.
      destruct (IH (S i) (evict_frame (Z.of_nat i) d pg s)) as (s' & Hrun & Hw & Hk).
      * apply pool_inv_evict_frame; [done| |done]. by rewrite Nat2Z.id.
      * rewrite Etab1, length_insert. lia.
      * intros k dk Hk Hdk Ho. rewrite Etab1, list_lookup_insert_ne in Hdk by lia.
        apply (Hunpinned k dk); [lia|done..].
      * rewrite Etab1 in Hw, Hk. rewrite evict_frame_pool in Hw.
        rewrite evict_frame_disk in Hk.
        exists s'. split; [done|]. split.
        -- intros k dk pgk Hik Hdk Hpgk Ho Hdirty.
           destruct (decide (k = i)) as [->|Hne].
           ++ assert (dk = d) as -> by congruence.
              assert (pgk = pg) as -> by congruence.
              rewrite Hk.
              ** rewrite Hdirty, Hf, Hnum. apply lookup_insert_eq.
              ** intros k dk Hik' Hdk' [Hvk Hfk] Hdirtyk Hkey.
                 rewrite list_lookup_insert_ne in Hdk' by lia.
                 assert (k = i); [|lia].
                 apply (pool_inv_one_frame s k i dk d H Hdk' Hd Hvk Hv).
                 rewrite Hfk, Hf. done.
           ++ apply (Hw k dk pgk); [lia| |done..].
              by rewrite list_lookup_insert_ne.
        -- intros key Hkey. rewrite Hk.
           ++ destruct (dirty d) eqn:Hdirty; [|done].
              rewrite Hf, Hnum. apply lookup_insert_ne.
              by apply (Hkey i d).
           ++ intros k dk Hik' Hdk'. rewrite list_lookup_insert_ne in Hdk' by lia.
              apply (Hkey k dk); [lia|done].
Qed.

(** X16.  After a [flushFile] of a file none of whose pages is pinned, the
    file holds, for each of its pages that was in a dirty frame, the bytes
    of that frame; what the files hold for every other page is as
    before. *)
Theorem flushFile_makes_durable f s :
  pool_inv s →
  (∀ k d, bufDescTable s !! k = Some d → owned f d → pinCnt d = 0) →
  ∃ s', flushFile f s = Ok tt s' ∧
        (∀ k d pg,
           bufDescTable s !! k = Some d → bufPool s !! k = Some pg →
           owned f d → dirty d = true →
           disk s' !! (f, pageNo d) = Some (data pg)) ∧
        (∀ key, (∀ k d, bufDescTable s !! k = Some d →
                        owned f d → dirty d = true → (f, pageNo d) ≠ key) →
                disk s' !! key = disk s !! key).
Proof.
  intros H Hunpinned. unfold flushFile. run_monad.
  destruct (flushFile_loop_disk f (Z.to_nat (numBufs s)) 0 s H)
    as (s' & Hrun & Hw & Hk).
  { pose proof (inv_table _ H). lia. }
  { intros k d _. apply Hunpinned. }
  exists s'. split; [done|]. split.
  - intros k d pg. apply Hw. lia.
  - intros key Hkey. apply Hk. intros k d _. apply Hkey.
Qed.

Lemma flushFile_makes_durable_witness :
  ∃ s', flushFile 7 ex_flush = Ok tt s' ∧
        (∀ k d pg,
           bufDescTable ex_flush !! k = Some d →
           bufPool ex_flush !! k = Some pg →
           owned 7 d → dirty d = true →
           disk s' !! (7, pageNo d) = Some (data pg)) ∧
        (∀ key, (∀ k d, bufDescTable ex_flush !! k = Some d →
                        owned 7 d → dirty d = true → (7, pageNo d) ≠ key) →
                disk s' !! key = disk ex_flush !! key).
Proof.
  apply (flushFile_makes_durable 7 ex_flush).
  - apply reachable_inv, (ex_reachable ex_calls_flush). by vm_compute.
  - intros k d Hd [_ Hf].
    destruct k as [|[|[|k]]]; vm_compute in Hd; by simplify_eq.
Defined.

(** ** The pool between two calls *)



(** ** A pool without frames *)

(** X18.  The constructor accepts a pool of no frames; the hand then wraps
    around to [2^32 - 1].  In such a pool every fetch and every
    [allocPage] takes a remainder by zero in [advanceClock], which has no
    defined behaviour, while [unPinPage] and [flushFile] return without
    doing anything. *)
Theorem pool_without_frames files f p b :
  clockHand (BufMgr 0 files) = UINT32_MOD - 1 ∧
  readPage f p (BufMgr 0 files) = Undefined ∧
  allocPage f (BufMgr 0 files) = Undefined ∧
  unPinPage f p b (BufMgr 0 files) = Ok tt (BufMgr 0 files) ∧
  flushFile f (BufMgr 0 files) = Ok tt (BufMgr 0 files).
Proof.
  split; [done|]. split; [|split; [|split]].
  - unfold readPage. run_monad. by rewrite lookup_empty.
  - unfold allocPage. unfold bind at 1. unfold file_allocatePage.
    destruct (decide (f = NULL)); done.
  - unfold unPinPage. run_monad. by rewrite lookup_empty.
  - done.
Qed.

(** * Pin counts *)








